(** * chatlog: the recording-and-delivery pipeline

    A shallow embedding of [internal/recorder/recorder.go] and
    [internal/uploader/uploader.go], with the parts of the Go standard
    library they rely on ([strings], [time], [path/filepath], [bufio],
    [os]) modelled next to them.

    Go strings are byte sequences: they are modelled by [string] (lists of
    8-bit [ascii]).  Go's [int], [int64] and [time.Duration] are 64-bit
    two's-complement integers: they are modelled by [Z] with the wrap-around
    written out ([wrap64]). *)

From Stdlib Require Import ZArith Lia Strings.String Strings.Ascii.
From stdpp Require Import gmap strings list fin_maps.

Local Open Scope Z_scope.

(** ** Machine integers *)

Definition maxInt64 : Z := 2 ^ 63 - 1.
Definition minInt64 : Z := - 2 ^ 63.

(** Two's-complement reduction of a mathematical integer to [int64]. *)
Definition wrap64 (z : Z) : Z := (z + 2 ^ 63) mod 2 ^ 64 - 2 ^ 63.

(** Conversion [uint(x)] of an [int] to a 64-bit unsigned integer. *)
Definition to_uint64 (z : Z) : Z := z mod 2 ^ 64.

(** ** Errors

    The Go code builds its errors with [fmt.Errorf]; only the place where an
    error is raised matters here, so each [fmt.Errorf] site is a
    constructor, and [%w] wrapping keeps the wrapped error. *)

Inductive error : Type :=
| ErrInvalidFilenameFormat (filename : string)  (* "invalid filename format: %s" *)
| ErrParseTimestamp (value : string)            (* "parse timestamp: %w" *)
| ErrPath (op path : string)                    (* an *os.PathError *)
| ErrClosed                                     (* os.ErrClosed *)
| ErrStore (key : string)                       (* the object store refused *)
| ErrMarshal                                    (* json.Marshal failed *)
| ErrCreateFile (e : error)                     (* "create file: %w" *)
| ErrCreateFileWriter (e : error)               (* "create file writer: %w" *)
| ErrFlushBuffer (e : error)                    (* "flush buffer: %w" *)
| ErrWriteMessage (e : error)                   (* "write message: %w" *)
| ErrWriteNewline (e : error)                   (* "write newline: %w" *)
| ErrOpenFile (e : error)                       (* "open file: %w" *)
| ErrPutObject (e : error).                     (* "put object: %w" *)

Inductive result (A : Type) : Type :=
| Ok (a : A)
| Err (e : error).
Arguments Ok {A} a.
Arguments Err {A} e.

Definition is_ok {A} (r : result A) : bool :=
  match r with Ok _ => true | Err _ => false end.

(** ** Package [strings] *)

Module GoStrings.

(** [strings.HasSuffix(s, suffix)] *)
Definition HasSuffix (s suffix : string) : bool :=
  let n := String.length s in
  let k := String.length suffix in
  (k <=? n)%nat && String.eqb (substring (n - k) k s) suffix.

(** [strings.TrimSuffix(s, suffix)]: [s] without the trailing [suffix],
    or [s] itself when it does not end with [suffix]. *)
Definition TrimSuffix (s suffix : string) : string :=
  if HasSuffix s suffix
  then substring 0 (String.length s - String.length suffix) s
  else s.

(** [strings.Split(s, sep)] for a one-byte separator: the fields between
    the occurrences of [sep]; a string without [sep] is one field. *)
Fixpoint Split (s : string) (sep : ascii) : list string :=
  match s with
  | EmptyString => [EmptyString]
  | String c rest =>
      if Ascii.eqb c sep then EmptyString :: Split rest sep
      else match Split rest sep with
           | field :: fields => String c field :: fields
           | [] => [String c EmptyString]
           end
  end.

(** [strings.Join(elems, sep)] *)
Fixpoint Join (elems : list string) (sep : string) : string :=
  match elems with
  | [] => EmptyString
  | [e] => e
  | e :: rest => e +:+ sep +:+ Join rest sep
  end.

(** The slice expression [a[lo:hi]] for [lo <= hi <= len(a)]. *)
Definition slice {A} (a : list A) (lo hi : nat) : list A :=
  take (hi - lo) (drop lo a).

(** Indexing [a[i]] of a slice of strings, for [i < len(a)]. *)
Definition index (a : list string) (i : nat) : string := nth i a EmptyString.

(** Does the byte [c] occur in [s]? *)
Fixpoint contains_byte (c : ascii) (s : string) : bool :=
  match s with
  | EmptyString => false
  | String a rest => Ascii.eqb a c || contains_byte c rest
  end.

End GoStrings.

(** ** Package [fmt]: the integer verbs used by the code *)

Module GoFmt.

Definition digit_char (d : Z) : ascii :=
  ascii_of_nat (48 + Z.to_nat d).

(** Decimal digits of a non-negative integer, most significant first. *)
Fixpoint utoa_aux (fuel : nat) (n : Z) (acc : string) : string :=
  let acc' := String (digit_char (n mod 10)) acc in
  match fuel with
  | O => acc'
  | S fuel' => if n <? 10 then acc' else utoa_aux fuel' (n / 10) acc'
  end.

Definition utoa (n : Z) : string :=
  utoa_aux (Z.to_nat (Z.log2 n)) n EmptyString.

Fixpoint zeros (k : nat) : string :=
  match k with O => EmptyString | S k' => String "0"%char (zeros k') end.

(** The verb [%0<w>d]: sign, then the digits padded with zeros so that the
    whole field is at least [w] bytes wide. *)
Definition pad0 (w : nat) (z : Z) : string :=
  if z <? 0
  then let ds := utoa (- z) in
       String "-"%char (zeros (w - 1 - String.length ds) +:+ ds)
  else let ds := utoa z in
       zeros (w - String.length ds) +:+ ds.

(** The decimal digits. *)
Definition digits10 : list Z := [0; 1; 2; 3; 4; 5; 6; 7; 8; 9].

End GoFmt.

(** ** Package [time]: the layout ["20060102_1504"]

    The layout has the chunks [2006] (year, four digits), [01] (month, two
    digits), [02] (day, two digits), the literal [_], [15] (hour) and [04]
    (minute, two digits). *)

Module GoTime.

Definition Second : Z := 1000000000.
Definition Minute : Z := 60 * Second.

(** The calendar fields of a [time.Time] in UTC that the code reads. *)
Record Time : Type := mkTime {
  Year : Z;
  Month : Z;
  Day : Z;
  Hour : Z;
  Min : Z
}.

Definition isLeap (year : Z) : bool :=
  (year mod 4 =? 0) && (negb (year mod 100 =? 0) || (year mod 400 =? 0)).

Definition daysIn (m year : Z) : Z :=
  if m =? 2 then (if isLeap year then 29 else 28)
  else if (m =? 4) || (m =? 6) || (m =? 9) || (m =? 11) then 30
  else 31.

(** ['0' <= c && c <= '9'] *)
Definition digitb (c : ascii) : bool :=
  (48 <=? nat_of_ascii c)%nat && (nat_of_ascii c <=? 57)%nat.

(** [int(c - '0')] *)
Definition digit_of (c : ascii) : Z := Z.of_nat (nat_of_ascii c) - 48.

(** [isDigit(s, i)]: [i] is in range and [s[i]] is a decimal digit. *)
Definition isDigit (s : string) (i : nat) : bool :=
  match String.get i s with
  | Some c => digitb c
  | None => false
  end.

Definition digit_val (s : string) (i : nat) : Z :=
  match String.get i s with
  | Some c => digit_of c
  | None => 0
  end.

Definition drop_bytes (n : nat) (s : string) : string :=
  substring n (String.length s - n) s.

(** [getnum(s, fixed)]: a one- or two-digit number at the start of [s];
    with [fixed] both digits are required. *)
Definition getnum (s : string) (fixed : bool) : option (Z * string) :=
  if negb (isDigit s 0) then None
  else if negb (isDigit s 1) then
    if fixed then None else Some (digit_val s 0, drop_bytes 1 s)
  else Some (digit_val s 0 * 10 + digit_val s 1, drop_bytes 2 s).

(** The chunk [2006]: four bytes, the first a digit, and [atoi] of the
    four accepts them only when all are digits. *)
Definition getyear (s : string) : option (Z * string) :=
  if (String.length s <? 4)%nat || negb (isDigit s 0) then None
  else if isDigit s 1 && isDigit s 2 && isDigit s 3
       then Some (digit_val s 0 * 1000 + digit_val s 1 * 100
                  + digit_val s 2 * 10 + digit_val s 3, drop_bytes 4 s)
       else None.

(** A literal byte of the layout must be matched by the value. *)
Definition skip (s : string) (c : ascii) : option string :=
  match s with
  | String a rest => if Ascii.eqb a c then Some rest else None
  | EmptyString => None
  end.

(** [time.Parse("20060102_1504", value)] *)
Definition Parse (value : string) : option Time :=
  match getyear value with
  | None => None
  | Some (year, v1) =>
    match getnum v1 true with
    | None => None
    | Some (month, v2) =>
      if (month <=? 0) || (12 <? month) then None else
      match getnum v2 true with
      | None => None
      | Some (day, v3) =>
        match skip v3 "_"%char with
        | None => None
        | Some v4 =>
          match getnum v4 false with
          | None => None
          | Some (hour, v5) =>
            if (hour <? 0) || (24 <=? hour) then None else
            match getnum v5 true with
            | None => None
            | Some (min, v6) =>
              if (min <? 0) || (60 <=? min) then None
              else if negb (String.length v6 =? 0)%nat then None
              else if (day <? 1) || (daysIn month year <? day) then None
              else Some (mkTime year month day hour min)
            end
          end
        end
      end
    end
  end.

(** An instant is a number of nanoseconds since the Unix epoch.  The
    civil date of a day number (days since 1970-01-01) in the proleptic
    Gregorian calendar, by eras of 400 years ([doe] is the day of the
    era, counted from a 1st of March): *)
Definition civil_of_doe (doe : Z) : Z * Z * Z :=
  let yoe := (doe - doe / 1460 + doe / 36524 - doe / 146096) / 365 in
  let doy := doe - (365 * yoe + yoe / 4 - yoe / 100) in
  let mp := (5 * doy + 2) / 153 in
  let d := doy - (153 * mp + 2) / 5 + 1 in
  let m := if mp <? 10 then mp + 3 else mp - 9 in
  (yoe, m, d).

Definition civil_from_days (days : Z) : Z * Z * Z :=
  let z := days + 719468 in
  let era := z / 146097 in
  let '(yoe, m, d) := civil_of_doe (z mod 146097) in
  (yoe + era * 400 + (if m <=? 2 then 1 else 0), m, d).

(** [t.UTC()] read as calendar fields, for the instant [ns]. *)
Definition UTC (ns : Z) : Time :=
  let minutes := ns / Minute in
  let days := minutes / 1440 in
  let '(y, m, d) := civil_from_days days in
  mkTime y m d ((minutes mod 1440) / 60) (minutes mod 60).

(** [appendInt(b, x, width)]: the sign, then the digits padded with
    zeros to [width] bytes, the sign not counted. *)
Definition appendInt (x : Z) (width : nat) : string :=
  let ds := GoFmt.utoa (Z.abs x) in
  let body := GoFmt.zeros (width - String.length ds) +:+ ds in
  if x <? 0 then String "-"%char body else body.

(** [t.Format("20060102_1504")] *)
Definition Format (t : Time) : string :=
  appendInt (Year t) 4 +:+ appendInt (Month t) 2 +:+ appendInt (Day t) 2
  +:+ "_" +:+ appendInt (Hour t) 2 +:+ appendInt (Min t) 2.

(** [t.Sub(u)]: the difference as a [Duration], saturated to [int64]. *)
Definition Sub (t u : Z) : Z :=
  Z.max minInt64 (Z.min maxInt64 (t - u)).

(** The month and the day of a day of the era are a month and a day. *)
Definition month_day_ok (doe : Z) : bool :=
  if doe <? 146097 then
    let '(_, m, d) := civil_of_doe doe in
    (1 <=? m) && (m <=? 12) && (1 <=? d) && (d <=? 31)
  else true.

(** A test on all the integers from [lo] up to [lo + 2^depth]. *)
Fixpoint on_range (depth : nat) (lo : Z) (test : Z -> bool) : bool :=
  match depth with
  | O => test lo
  | S depth' =>
      on_range depth' lo test && on_range depth' (lo + 2 ^ Z.of_nat depth') test
  end.

(** The year of the era, the month and the day of a day of the era make
    a date of the calendar. *)
Definition civil_day_ok (doe : Z) : bool :=
  if doe <? 146097 then
    let '(yoe, m, d) := civil_of_doe doe in
    let y := yoe + (if m <=? 2 then 1 else 0) in
    (0 <=? yoe) && (yoe <=? 399) && (1 <=? m) && (m <=? 12)
    && (1 <=? d) && (d <=? daysIn m y)
  else true.

(** The day of the era of a year of the era, a month and a day: the
    way back from [civil_of_doe]. *)
Definition doe_from_civil (yoe m d : Z) : Z :=
  let mp := if 2 <? m then m - 3 else m + 9 in
  let doy := (153 * mp + 2) / 5 + d - 1 in
  yoe * 365 + yoe / 4 - yoe / 100 + doy.

Definition civil_back_ok (doe : Z) : bool :=
  if doe <? 146097 then
    let '(yoe, m, d) := civil_of_doe doe in doe_from_civil yoe m d =? doe
  else true.

End GoTime.

(** ** Package [path/filepath] *)

Module GoPath.

(** [filepath.Join(dir, name)] for a directory and a file name that
    [Clean] leaves as they are (no empty, [.] or [..] elements). *)
Definition Join (dir name : string) : string := dir +:+ "/" +:+ name.

Fixpoint strip_trailing_slashes_rev (r : list ascii) : list ascii :=
  match r with
  | c :: r' => if Ascii.eqb c "/"%char then strip_trailing_slashes_rev r' else r
  | [] => []
  end.

Fixpoint last_element_rev (r : list ascii) : list ascii :=
  match r with
  | c :: r' => if Ascii.eqb c "/"%char then [] else c :: last_element_rev r'
  | [] => []
  end.

(** [filepath.Base(path)] on Unix: the last element of the path, after
    the trailing slashes are removed; ["."] for the empty path and ["/"]
    for a path of slashes only. *)
Definition Base (path : string) : string :=
  if String.eqb path EmptyString then "."
  else
    let r := strip_trailing_slashes_rev (rev (list_ascii_of_string path)) in
    let b := string_of_list_ascii (rev (last_element_rev r)) in
    if String.eqb b EmptyString then "/" else b.

End GoPath.

(** ** [internal/uploader]: the remote key of a segment *)

Module Uploader.

(** [generateS3Key(filename)] *)
Definition generateS3Key (filename : string) : result string :=
  let nameWithoutExt := GoStrings.TrimSuffix filename ".jsonl" in
  let parts := GoStrings.Split nameWithoutExt "_"%char in
  if (length parts <? 4)%nat then Err (ErrInvalidFilenameFormat filename)
  else
    let platform := GoStrings.index parts 0 in
    let dateStr := GoStrings.index parts (length parts - 2) in
    let timeStr := GoStrings.index parts (length parts - 1) in
    let channel :=
      GoStrings.Join (GoStrings.slice parts 1 (length parts - 2)) "_" in
    let timestamp := dateStr +:+ "_" +:+ timeStr in
    match GoTime.Parse timestamp with
    | None => Err (ErrParseTimestamp timestamp)
    | Some t =>
        Ok (GoFmt.pad0 4 (GoTime.Year t) +:+ "/"
            +:+ GoFmt.pad0 2 (GoTime.Month t) +:+ "/"
            +:+ GoFmt.pad0 2 (GoTime.Day t) +:+ "/"
            +:+ platform +:+ "/" +:+ channel +:+ "/" +:+ filename)
    end.

(** The [Uploader] struct; the S3 client is the outside world ([Env]). *)
Record Uploader : Type := mkUploader {
  bucket : string;
  deleteAfter : bool;
  maxRetries : Z
}.

(** What the uploader sees of the machine: the local files and the
    objects of the bucket. *)
Record Store : Type := mkStore {
  files : gmap string string;
  objects : gmap string string
}.

(** The outcomes the code does not decide: whether the object store
    accepts the [PutObject] of the [n]-th iteration of the retry loop,
    whether [ctx.Done()] is the case that the [select] of the [n]-th
    backoff takes, and whether [os.Remove] is allowed. *)
Record Env : Type := mkEnv {
  putOk : nat -> bool;
  ctxDone : nat -> bool;
  removeOk : bool
}.

(** What one call of [uploadWithRetry] does, in order. *)
Inductive event : Type :=
| EvKeyError (e : error)                 (* no key: logged, return *)
| EvAttempt (attempt : Z) (ok : bool)    (* one call of [uploadFile] *)
| EvBackoff (d : Z) (interrupted : bool) (* [select] on [time.After(d)] *)
| EvRemove (path : string) (ok : bool)   (* [os.Remove(localPath)] *)
| EvGiveUp.                              (* "Failed to upload ..." *)

(** [uploadFile(ctx, localPath, s3Key)] at iteration [n] *)
Definition uploadFile (env : Env) (n : nat) (localPath s3Key : string)
    (st : Store) : result unit * Store :=
  match files st !! localPath with
  | None => (Err (ErrOpenFile (ErrPath "open" localPath)), st)
  | Some body =>
      if putOk env n
      then (Ok tt, mkStore (files st) (<[s3Key := body]> (objects st)))
      else (Err (ErrPutObject (ErrStore s3Key)), st)
  end.

(** [os.Remove(localPath)] *)
Definition os_Remove (env : Env) (localPath : string) (st : Store)
    : result unit * Store :=
  match files st !! localPath with
  | None => (Err (ErrPath "remove" localPath), st)
  | Some _ =>
      if removeOk env
      then (Ok tt, mkStore (delete localPath (files st)) (objects st))
      else (Err (ErrPath "remove" localPath), st)
  end.

(** [time.Duration(1<<uint(attempt)) * time.Second]: the shift is done in
    [int64] (a count of 64 or more gives 0) and so is the product. *)
Definition backoff (attempt : Z) : Z :=
  let count := to_uint64 attempt in
  let shifted := if 64 <=? count then 0 else wrap64 (Z.shiftl 1 count) in
  wrap64 (shifted * GoTime.Second).

(** The [for attempt := 0; attempt <= u.maxRetries; attempt++] loop, from
    the iteration with counter [attempt], the [n]-th one.  [None]: the
    loop is still running after [fuel] iterations. *)
Fixpoint retryLoop (fuel : nat) (u : Uploader) (env : Env)
    (localPath s3Key : string) (attempt : Z) (n : nat) (st : Store)
    : option (list event * Store) :=
  match fuel with
  | O => None
  | S fuel' =>
      if attempt <=? maxRetries u then
        match uploadFile env n localPath s3Key st with
        | (Ok _, st1) =>
            if deleteAfter u then
              let '(r, st2) := os_Remove env localPath st1 in
              Some ([EvAttempt attempt true; EvRemove localPath (is_ok r)], st2)
            else Some ([EvAttempt attempt true], st1)
        | (Err _, st1) =>
            if attempt <? maxRetries u then
              let d := backoff attempt in
              if ctxDone env n
              then Some ([EvAttempt attempt false; EvBackoff d true], st1)
              else
                match retryLoop fuel' u env localPath s3Key
                        (wrap64 (attempt + 1)) (S n) st1 with
                | Some (tr, st2) =>
                    Some (EvAttempt attempt false :: EvBackoff d false :: tr, st2)
                | None => None
                end
            else
              match retryLoop fuel' u env localPath s3Key
                      (wrap64 (attempt + 1)) (S n) st1 with
              | Some (tr, st2) => Some (EvAttempt attempt false :: tr, st2)
              | None => None
              end
        end
      else Some ([EvGiveUp], st)
  end.

(** [uploadWithRetry(ctx, localPath)].  The loop evaluates its condition
    once at least, and leaves by it after at most [maxRetries + 2]
    evaluations unless [maxRetries] is the largest [int], where
    [attempt++] wraps around and the condition never fails. *)
Definition uploadWithRetry (u : Uploader) (env : Env) (localPath : string)
    (st : Store) : option (list event * Store) :=
  let filename := GoPath.Base localPath in
  match generateS3Key filename with
  | Err e => Some ([EvKeyError e], st)
  | Ok s3Key =>
      retryLoop (S (Z.to_nat (maxRetries u + 1))) u env localPath s3Key 0 0 st
  end.

(** Readings of a trace. *)
Definition is_success (e : event) : bool :=
  match e with EvAttempt _ true => true | _ => false end.

Definition is_remove (e : event) : bool :=
  match e with EvRemove _ _ => true | _ => false end.

Fixpoint attempts (tr : list event) : nat :=
  match tr with
  | [] => O
  | EvAttempt _ _ :: tr' => S (attempts tr')
  | _ :: tr' => attempts tr'
  end.

Fixpoint delays (tr : list event) : list Z :=
  match tr with
  | [] => []
  | EvBackoff d _ :: tr' => d :: delays tr'
  | _ :: tr' => delays tr'
  end.

(** An event that is neither a successful attempt nor a removal. *)
Definition quiet (e : event) : Prop := is_success e = false /\ is_remove e = false.

(** The events of the failed attempts [a], ..., [a + k - 1], each
    followed by its backoff, which runs to its end. *)
Definition retries (a : Z) (k : nat) : list event :=
  flat_map (fun b => [EvAttempt b false; EvBackoff (backoff b) false])
           (seqZ a (Z.of_nat k)).

(** A directory entry as [os.ReadDir] returns it. *)
Record DirEntry : Type := mkDirEntry {
  Name : string;
  IsDir : bool
}.

(** The error of [ScanAndUploadExisting]: ["read directory: %w"]. *)
Inductive scan_error : Type :=
| ErrReadDirectory (e : error).

(** The loop of [ScanAndUploadExisting] that collects [filesToUpload]. *)
Fixpoint collect (outputDir : string) (entries : list DirEntry)
    (filesToUpload : list string) : list string :=
  match entries with
  | [] => filesToUpload
  | entry :: rest =>
      if IsDir entry then collect outputDir rest filesToUpload
      else if GoStrings.HasSuffix (Name entry) ".jsonl"
           then collect outputDir rest
                  (filesToUpload ++ [GoPath.Join outputDir (Name entry)])
           else collect outputDir rest filesToUpload
  end.

(** [ScanAndUploadExisting(ctx, outputDir)], given what [os.ReadDir]
    returns: the error returned and the paths for which a goroutine
    running [uploadWithRetry] is started, in the order they are
    started. *)
Definition ScanAndUploadExisting (readDir : result (list DirEntry))
    (outputDir : string) : option scan_error * list string :=
  match readDir with
  | Err e => (Some (ErrReadDirectory e), [])
  | Ok entries => (None, collect outputDir entries [])
  end.

End Uploader.

(** ** Package [message] *)

Record Message : Type := mkMessage {
  Platform : string;
  Timestamp : string;
  Channel : string;
  Username : string;
  UserID : string;
  Text : string;      (* the field [Message] *)
  Badges : string
}.

(** ** Packages [os] and [bufio]: the machine the recorder runs on *)

Module GoOS.

(** The clock, the regular files by path, the descriptors that are open,
    and the paths on which [os.Create] currently fails (a missing or
    read-only directory, a full inode table, ...). *)
Record World : Type := mkWorld {
  now : Z;
  disk : gmap string string;
  open_fds : gset nat;
  next_fd : nat;
  denied : gset string
}.

(** An [*os.File]: its descriptor and the path it was opened with. *)
Record File : Type := mkFile {
  fd : nat;
  name : string
}.

(** [os.Create(path)]: the file is created, or truncated when it
    exists, and opened for writing. *)
Definition Create (path : string) (w : World) : result File * World :=
  if decide (path ∈ denied w) then (Err (ErrPath "open" path), w)
  else
    (Ok (mkFile (next_fd w) path),
     mkWorld (now w) (<[path := EmptyString]> (disk w))
             ({[next_fd w]} ∪ open_fds w) (S (next_fd w)) (denied w)).

(** [f.Write(data)]: the bytes are appended (the descriptor is only ever
    written sequentially); a closed file refuses. *)
Definition Write (f : File) (data : string) (w : World)
    : Z * option error * World :=
  if decide (fd f ∈ open_fds w)
  then (Z.of_nat (String.length data), None,
        mkWorld (now w) (alter (fun body => body +:+ data) (name f) (disk w))
                (open_fds w) (next_fd w) (denied w))
  else (0, Some ErrClosed, w).

(** [f.Close()] *)
Definition Close (f : File) (w : World) : option error * World :=
  if decide (fd f ∈ open_fds w)
  then (None, mkWorld (now w) (disk w) (open_fds w ∖ {[fd f]})
                      (next_fd w) (denied w))
  else (Some ErrClosed, w).

End GoOS.

Module GoBufio.

(** A [*bufio.Writer]: the bytes accepted and not yet written to the
    file, and the error that stops it once a write has failed.  The
    buffer is not bounded here: the real one writes itself out when its
    4096 bytes are full, which [Flush] at the end of every batch makes
    invisible while the file accepts the bytes. *)
Record Writer : Type := mkWriter {
  buffered : string;
  err : option error
}.

Definition NewWriter : Writer := mkWriter EmptyString None.

(** [b.Write(p)] *)
Definition Write (b : Writer) (p : string) : Z * option error * Writer :=
  match err b with
  | Some e => (0, Some e, b)
  | None => (Z.of_nat (String.length p), None,
             mkWriter (buffered b +:+ p) None)
  end.

(** [b.WriteByte(c)] *)
Definition WriteByte (b : Writer) (c : ascii) : option error * Writer :=
  match err b with
  | Some e => (Some e, b)
  | None => (None, mkWriter (buffered b +:+ String c EmptyString) None)
  end.

(** [b.Flush()] on the file [f] *)
Definition Flush (b : Writer) (f : GoOS.File) (w : GoOS.World)
    : option error * Writer * GoOS.World :=
  match err b with
  | Some e => (Some e, b, w)
  | None =>
      if String.eqb (buffered b) EmptyString then (None, b, w)
      else
        match GoOS.Write f (buffered b) w with
        | (_, Some e, w') => (Some e, mkWriter (buffered b) (Some e), w')
        | (_, None, w') => (None, mkWriter EmptyString None, w')
        end
  end.

End GoBufio.

(** ** [internal/recorder] *)

Module Recorder.

Import GoOS.

(** The struct [fileWriter]. *)
Record fileWriter : Type := mkFileWriter {
  file : File;
  writer : GoBufio.Writer;
  createdAt : Z;
  bytesWritten : Z;
  messageBuffer : list Message;
  platform : string;
  channel : string;
  filename : string
}.

(** The struct [Recorder]; [rotateMegabytes] holds bytes.  The mutex is
    held through every method, so the methods are atomic steps. *)
Record Recorder : Type := mkRecorder {
  outputDir : string;
  bufferSize : Z;
  rotateMinutes : Z;
  rotateMegabytes : Z;
  currentFiles : gmap string fileWriter
}.

(** The channel [fileChan]: what it holds and how much it can hold. *)
Record Chan : Type := mkChan {
  queued : list string;
  capacity : nat
}.

(** The recorder, the machine and the upload queue together. *)
Record State : Type := mkState {
  recorder : Recorder;
  world : World;
  fileChan : Chan
}.

(** [New(outputDir, bufferSize, rotateMinutes, rotateMegabytes)] *)
Definition New (outputDir : string) (bufferSize rotateMinutes rotateMegabytes : Z)
    : Recorder :=
  mkRecorder outputDir bufferSize rotateMinutes
             (wrap64 (wrap64 (rotateMegabytes * 1024) * 1024)) ∅.

Definition set_files (r : Recorder) (m : gmap string fileWriter) : Recorder :=
  mkRecorder (outputDir r) (bufferSize r) (rotateMinutes r) (rotateMegabytes r) m.

(** [key := fmt.Sprintf("%s_%s", platform, channel)] *)
Definition file_key (platform channel : string) : string :=
  platform +:+ "_" +:+ channel.

(** [fmt.Sprintf("%s_%s_%s.jsonl", platform, channel, timestamp)] *)
Definition segment_name (platform channel timestamp : string) : string :=
  platform +:+ "_" +:+ channel +:+ "_" +:+ timestamp +:+ ".jsonl".

(** The non-blocking send [select { case fileChan <- path: default: }]:
    the path is queued when there is room and dropped otherwise. *)
Definition trySend (path : string) (c : Chan) : bool * Chan :=
  if (length (queued c) <? capacity c)%nat
  then (true, mkChan (queued c ++ [path]) (capacity c))
  else (false, c).

(** [createFileWriter(platform, channel)] *)
Definition createFileWriter (r : Recorder) (platform channel : string)
    (w : World) : result fileWriter * World :=
  let timestamp := GoTime.Format (GoTime.UTC (now w)) in
  let filename := segment_name platform channel timestamp in
  let filepath := GoPath.Join (outputDir r) filename in
  match Create filepath w with
  | (Err e, w') => (Err (ErrCreateFile e), w')
  | (Ok f, w') =>
      (Ok (mkFileWriter f GoBufio.NewWriter (now w') 0 [] platform channel filename),
       w')
  end.

(** The path of the segment that [createFileWriter] opens at the instant
    [t], the world once it is open, and the writer it returns. *)
Definition segment_path (r : Recorder) (platform channel : string) (t : Z) : string :=
  GoPath.Join (outputDir r)
    (segment_name platform channel (GoTime.Format (GoTime.UTC t))).

Definition created (path : string) (w : World) : World :=
  mkWorld (now w) (<[path := EmptyString]> (disk w))
          ({[next_fd w]} ∪ open_fds w) (S (next_fd w)) (denied w).

Definition fresh_writer (r : Recorder) (platform channel : string) (w : World)
    : fileWriter :=
  mkFileWriter (mkFile (next_fd w) (segment_path r platform channel (now w)))
               GoBufio.NewWriter (now w) 0 [] platform channel
               (segment_name platform channel (GoTime.Format (GoTime.UTC (now w)))).

Section WithMarshal.

(** [json.Marshal] of a [Message], from [encoding/json]. *)
Variable json_Marshal : Message -> result string.

(** The body of the loop of [flushFileWriter] over the messages left:
    an error of [Write] or [WriteByte] returns at once. *)
Fixpoint writeMessages (msgs : list Message) (b : GoBufio.Writer)
    (written : Z) : option error * GoBufio.Writer * Z :=
  match msgs with
  | [] => (None, b, written)
  | msg :: rest =>
      match json_Marshal msg with
      | Err _ => writeMessages rest b written
      | Ok data =>
          match GoBufio.Write b data with
          | (_, Some e, b1) => (Some (ErrWriteMessage e), b1, written)
          | (n, None, b1) =>
              let written1 := wrap64 (written + n) in
              match GoBufio.WriteByte b1 "010"%char with
              | (Some e, b2) => (Some (ErrWriteNewline e), b2, written1)
              | (None, b2) => writeMessages rest b2 (wrap64 (written1 + 1))
              end
          end
      end
  end.

(** [flushFileWriter(fw)]: the writer as the call leaves it, and the
    error returned. *)
Definition flushFileWriter (fw : fileWriter) (w : World)
    : option error * fileWriter * World :=
  match writeMessages (messageBuffer fw) (writer fw) (bytesWritten fw) with
  | (Some e, b, written) =>
      (Some e,
       mkFileWriter (file fw) b (createdAt fw) written (messageBuffer fw)
                    (platform fw) (channel fw) (filename fw),
       w)
  | (None, b, written) =>
      let '(e, b', w') := GoBufio.Flush b (file fw) w in
      (e,
       mkFileWriter (file fw) b' (createdAt fw) written []
                    (platform fw) (channel fw) (filename fw),
       w')
  end.

(** [recordMessage(msg)] *)
Definition recordMessage (msg : Message) (st : State) : option error * State :=
  let r := recorder st in
  let key := file_key (Platform msg) (Channel msg) in
  let created :=
    match currentFiles r !! key with
    | Some fw => (Ok fw, world st)
    | None => createFileWriter r (Platform msg) (Channel msg) (world st)
    end in
  match created with
  | (Err e, w1) =>
      (Some (ErrCreateFileWriter e), mkState r w1 (fileChan st))
  | (Ok fw, w1) =>
      let fw1 :=
        mkFileWriter (file fw) (writer fw) (createdAt fw) (bytesWritten fw)
                     (messageBuffer fw ++ [msg])
                     (platform fw) (channel fw) (filename fw) in
      if bufferSize r <=? Z.of_nat (length (messageBuffer fw1)) then
        let '(e, fw2, w2) := flushFileWriter fw1 w1 in
        (option_map ErrFlushBuffer e,
         mkState (set_files r (<[key := fw2]> (currentFiles r))) w2 (fileChan st))
      else
        (None,
         mkState (set_files r (<[key := fw1]> (currentFiles r))) w1 (fileChan st))
  end.

(** The two tests of [checkRotation].  The age is compared in minutes
    as [float64]; the comparison is taken on the exact values here. *)
Definition timeLimit (r : Recorder) (w : World) (fw : fileWriter) : bool :=
  rotateMinutes r * GoTime.Minute <=? GoTime.Sub (now w) (createdAt fw).

Definition sizeLimit (r : Recorder) (fw : fileWriter) : bool :=
  rotateMegabytes r <=? bytesWritten fw.

Definition needsRotation (r : Recorder) (w : World) (fw : fileWriter) : bool :=
  let needs := false in
  let needs := if timeLimit r w fw then true else needs in
  let needs := if sizeLimit r fw then true else needs in
  needs.

(** The part that [rotateFile] and [flushAll] share: flush what is
    buffered, close the file, offer its path to the uploader.  The
    errors are logged and nothing else. *)
Definition finishFile (fw : fileWriter) (st : State) : State :=
  let r := recorder st in
  let '(_, fw1, w1) := flushFileWriter fw (world st) in
  let '(_, _, w2) := GoBufio.Flush (writer fw1) (file fw1) w1 in
  let '(_, w3) := Close (file fw1) w2 in
  let filepath := GoPath.Join (outputDir r) (filename fw1) in
  let '(_, c) := trySend filepath (fileChan st) in
  mkState r w3 c.

(** The world that [finishFile] leaves; the queue has no part in it. *)
Definition finish_world (fw : fileWriter) (w : World) : World :=
  let '(_, fw1, w1) := flushFileWriter fw w in
  let '(_, _, w2) := GoBufio.Flush (writer fw1) (file fw1) w1 in
  (Close (file fw1) w2).2.

(** [rotateFile(key, fw, fileChan)] *)
Definition rotateFile (key : string) (fw : fileWriter) (st : State) : State :=
  let st1 := finishFile fw st in
  let r := recorder st1 in
  match createFileWriter r (platform fw) (channel fw) (world st1) with
  | (Err _, w) =>
      mkState (set_files r (delete key (currentFiles r))) w (fileChan st1)
  | (Ok newFw, w) =>
      mkState (set_files r (<[key := newFw]> (currentFiles r))) w (fileChan st1)
  end.

(** One iteration of the [range] loop of [checkRotation]. *)
Definition checkOne (st : State) (key : string) : State :=
  match currentFiles (recorder st) !! key with
  | None => st
  | Some fw =>
      if needsRotation (recorder st) (world st) fw
      then rotateFile key fw st
      else st
  end.

(** [checkRotation(fileChan)], the keys of the map being ranged over in
    the order [keys] (Go leaves the order of a [range] over a map
    open). *)
Definition checkRotation_in (keys : list string) (st : State) : State :=
  fold_left checkOne keys st.

(** One iteration of the [range] loop of [flushAll]. *)
Definition flushOne (st : State) (key : string) : State :=
  match currentFiles (recorder st) !! key with
  | None => st
  | Some fw =>
      let st1 := finishFile fw st in
      let r := recorder st1 in
      mkState (set_files r (delete key (currentFiles r)))
              (world st1) (fileChan st1)
  end.

(** [flushAll(fileChan)], ranging in the order [keys]. *)
Definition flushAll_in (keys : list string) (st : State) : State :=
  fold_left flushOne keys st.

(** The keys of the map in the order of [map_to_list], one of the
    orders a [range] can take. *)
Definition range_keys (st : State) : list string :=
  (map_to_list (currentFiles (recorder st))).*1.

Definition checkRotation (st : State) : State :=
  checkRotation_in (range_keys st) st.

Definition flushAll (st : State) : State :=
  flushAll_in (range_keys st) st.

(** What happens around and inside the loop of [Start]: the three
    cases of its [select], and what the rest of the machine does in
    between. *)
Inductive step : Type :=
| Receive (msg : Message)      (* [case msg := <-messageChan] *)
| Tick                         (* [case <-ticker.C] *)
| Done                         (* [case <-ctx.Done()] *)
| Elapse (d : Z)               (* the clock moves on by [d] ns *)
| Dequeue                      (* the uploader takes a path *)
| Deny (paths : gset string).  (* [os.Create] fails on these from now *)

Definition elapse (d : Z) (st : State) : State :=
  let w := world st in
  mkState (recorder st)
          (mkWorld (now w + d) (disk w) (open_fds w) (next_fd w) (denied w))
          (fileChan st).

Definition dequeue (st : State) : State :=
  let c := fileChan st in
  mkState (recorder st) (world st) (mkChan (tail (queued c)) (capacity c)).

Definition deny (paths : gset string) (st : State) : State :=
  let w := world st in
  mkState (recorder st)
          (mkWorld (now w) (disk w) (open_fds w) (next_fd w) paths)
          (fileChan st).

(** The loop of [Start] over the steps that occur; it returns at
    [Done], after [flushAll].  The flag says whether it has returned. *)
Fixpoint Start (steps : list step) (st : State) : bool * State :=
  match steps with
  | [] => (false, st)
  | Receive msg :: rest => Start rest (recordMessage msg st).2
  | Tick :: rest => Start rest (checkRotation st)
  | Done :: _ => (true, flushAll st)
  | Elapse d :: rest => Start rest (elapse d st)
  | Dequeue :: rest => Start rest (dequeue st)
  | Deny paths :: rest => Start rest (deny paths st)
  end.

(** What a batch of messages puts into the file: one line for each
    message that [json.Marshal] accepts. *)
Definition line (msg : Message) : string :=
  match json_Marshal msg with
  | Ok data => data +:+ String "010"%char EmptyString
  | Err _ => EmptyString
  end.

Fixpoint encode (msgs : list Message) : string :=
  match msgs with
  | [] => EmptyString
  | msg :: rest => line msg +:+ encode rest
  end.

(** The counter [bytesWritten] after a batch. *)
Fixpoint count (msgs : list Message) (written : Z) : Z :=
  match msgs with
  | [] => written
  | msg :: rest =>
      match json_Marshal msg with
      | Ok data =>
          count rest (wrap64 (wrap64 (written + Z.of_nat (String.length data)) + 1))
      | Err _ => count rest written
      end
  end.

End WithMarshal.

(** The world after [data] is appended to the file at [path]. *)
Definition appended (path data : string) (w : World) : World :=
  mkWorld (now w) (alter (fun body => body +:+ data) path (disk w))
          (open_fds w) (next_fd w) (denied w).

(** The world after the descriptor [n] is closed. *)
Definition closed (n : nat) (w : World) : World :=
  mkWorld (now w) (disk w) (open_fds w ∖ {[n]}) (next_fd w) (denied w).

(** The states the recorder can be in between two of its methods: every
    writer of the map holds an open descriptor of its own, handed out
    earlier; nothing is left in its [bufio.Writer]; its file is on disk,
    under the name made from the output directory, the platform, the
    channel and the minute of some instant; and it is filed under the
    key of its platform and channel. *)
Record wf (st : State) : Prop := mkWf {
  wf_open : forall key fw,
    currentFiles (recorder st) !! key = Some fw ->
    fd (file fw) ∈ open_fds (world st);
  wf_bound : forall n, n ∈ open_fds (world st) -> (n < next_fd (world st))%nat;
  wf_fd_inj : forall k1 k2 fw1 fw2,
    currentFiles (recorder st) !! k1 = Some fw1 ->
    currentFiles (recorder st) !! k2 = Some fw2 ->
    fd (file fw1) = fd (file fw2) -> k1 = k2;
  wf_clean : forall key fw,
    currentFiles (recorder st) !! key = Some fw ->
    writer fw = GoBufio.NewWriter;
  wf_on_disk : forall key fw,
    currentFiles (recorder st) !! key = Some fw ->
    is_Some (disk (world st) !! name (file fw));
  wf_path : forall key fw,
    currentFiles (recorder st) !! key = Some fw ->
    name (file fw) = GoPath.Join (outputDir (recorder st)) (filename fw);
  wf_key : forall key fw,
    currentFiles (recorder st) !! key = Some fw ->
    key = file_key (platform fw) (channel fw);
  wf_stamp : forall key fw,
    currentFiles (recorder st) !! key = Some fw ->
    exists t, filename fw
              = segment_name (platform fw) (channel fw) (GoTime.Format (GoTime.UTC t))
}.

(** The state [Start] begins in: the recorder as [New] makes it, no file
    open yet. *)
Definition initial (outputDir : string) (bufferSize rotateMinutes rotateMegabytes : Z)
    (start : Z) (queue : nat) : State :=
  mkState (New outputDir bufferSize rotateMinutes rotateMegabytes)
          (mkWorld start ∅ ∅ 3 ∅)
          (mkChan [] queue).


(** The messages of a list that [recordMessage] files under [key]. *)
Definition for_key (key : string) (msgs : list Message) : list Message :=
  filter (fun msg => file_key (Platform msg) (Channel msg) = key) msgs.

Section Segments.
Variable json_Marshal : Message -> result string.

(** The writer and the machine once [recordMessage] has put [msg]
    through the writer [fw], whose file is open: the message joins the
    buffer, and the buffer is written out when it has reached
    [bufferSize]. *)
Definition after_message (r : Recorder) (fw : fileWriter) (msg : Message)
    (w : World) : fileWriter * World :=
  let buffer := messageBuffer fw ++ [msg] in
  if bufferSize r <=? Z.of_nat (length buffer)
  then (mkFileWriter (file fw) GoBufio.NewWriter (createdAt fw)
          (count json_Marshal buffer (bytesWritten fw)) []
          (platform fw) (channel fw) (filename fw),
        appended (name (file fw)) (encode json_Marshal buffer) w)
  else (mkFileWriter (file fw) (writer fw) (createdAt fw) (bytesWritten fw) buffer
          (platform fw) (channel fw) (filename fw),
        w).

(** What the current segment of a key holds once its buffer is written
    out: the bytes in the file, then a line for each buffered message. *)
Definition stream (st : State) (key : string) : string :=
  match currentFiles (recorder st) !! key with
  | Some fw =>
      default EmptyString (disk (world st) !! name (file fw))
      +:+ encode json_Marshal (messageBuffer fw)
  | None => EmptyString
  end.

(** The recorder has put the messages [msgs], and no other, through its
    writers and has closed no file yet: every key that a message came
    for has a writer whose segment holds the messages of the key, in
    order, and every file on disk is the file of a writer. *)
Record holds (msgs : list Message) (st : State) : Prop := mkHolds {
  holds_wf : wf st;
  holds_allowed : denied (world st) = ∅;
  holds_stream : forall key, stream st key = encode json_Marshal (for_key key msgs);
  holds_keys : forall key,
    is_Some (currentFiles (recorder st) !! key) <-> for_key key msgs <> [];
  holds_files : forall path,
    is_Some (disk (world st) !! path) ->
    exists key fw,
      currentFiles (recorder st) !! key = Some fw /\ name (file fw) = path
}.

End Segments.

(** A writer between two calls of the recorder: it holds fewer messages
    than the buffer size asks to write out, its counter is the size of
    its file, and its file is named after the instant it was created
    at. *)
Definition tidy_writer (r : Recorder) (w : World) (fw : fileWriter) : Prop :=
  Z.of_nat (length (messageBuffer fw)) < Z.max 1 (bufferSize r)
  /\ (exists body,
        disk w !! name (file fw) = Some body
        /\ bytesWritten fw = wrap64 (Z.of_nat (String.length body)))
  /\ filename fw
     = segment_name (platform fw) (channel fw)
         (GoTime.Format (GoTime.UTC (createdAt fw))).

Definition tidy (st : State) : Prop :=
  forall key fw,
    currentFiles (recorder st) !! key = Some fw ->
    tidy_writer (recorder st) (world st) fw.

(** The messages handed to the recorder by a list of steps. *)
Definition messages (steps : list step) : list Message :=
  flat_map (fun s => match s with Receive msg => [msg] | _ => [] end) steps.

(** The steps that are neither a rotation check, nor the shutdown, nor a
    change of what [os.Create] refuses. *)
Definition is_plain (s : step) : bool :=
  match s with
  | Receive _ | Elapse _ | Dequeue => true
  | Tick | Done | Deny _ => false
  end.

(** Instants in minutes that go up. *)
Fixpoint ascending (ts : list Z) : Prop :=
  match ts with
  | [] => True
  | t :: rest =>
      Forall (fun t' => t / GoTime.Minute < t' / GoTime.Minute) rest /\ ascending rest
  end.

(** What the files at [paths] hold, one after the other. *)
Fixpoint contents (d : gmap string string) (paths : list string) : string :=
  match paths with
  | [] => EmptyString
  | p :: rest => default EmptyString (d !! p) +:+ contents d rest
  end.

(** The time that the steps let pass. *)
Fixpoint elapsed (steps : list step) : Z :=
  match steps with
  | [] => 0
  | Elapse d :: rest => d + elapsed rest
  | _ :: rest => elapsed rest
  end.

(** The steps of a run before its shutdown during which [os.Create]
    refuses nothing and the clock does not go back. *)
Definition is_calm (s : step) : bool :=
  match s with
  | Receive _ | Tick | Dequeue => true
  | Elapse d => 0 <=? d
  | Done | Deny _ => false
  end.

Section Rotations.
Variable json_Marshal : Message -> result string.

(** The messages [msgs] that came for [key] are in its segments: the
    closed ones, created at the instants [ts], and then the current one,
    in this order. *)
Definition kept_key (msgs : list Message) (st : State) (key : string) : Prop :=
  (currentFiles (recorder st) !! key = None /\ for_key key msgs = [])
  \/ exists fw ts,
       currentFiles (recorder st) !! key = Some fw
       /\ ascending (ts ++ [createdAt fw])
       /\ Forall (fun t =>
                    minInt64 <= t
                    /\ is_Some (disk (world st)
                                 !! segment_path (recorder st) (platform fw) (channel fw) t))
                 ts
       /\ minInt64 <= createdAt fw <= now (world st)
       /\ contents (disk (world st))
            (segment_path (recorder st) (platform fw) (channel fw) <$> ts)
          +:+ stream json_Marshal st key
          = encode json_Marshal (for_key key msgs).

(** The recorder has put the messages [msgs] through its writers and
    every one of them is in a segment of its key. *)
Definition keeps (msgs : list Message) (st : State) : Prop :=
  wf st /\ tidy st /\ denied (world st) = ∅ /\ forall key, kept_key msgs st key.

End Rotations.

(** The path [q] names a segment that is on disk and was created in an
    earlier minute than the current segment of its key. *)
Definition retired (st : State) (q : string) : Prop :=
  exists key fw t,
    currentFiles (recorder st) !! key = Some fw
    /\ q = segment_path (recorder st) (platform fw) (channel fw) t
    /\ minInt64 <= t
    /\ t / GoTime.Minute < createdAt fw / GoTime.Minute
    /\ is_Some (disk (world st) !! q).

End Recorder.

(** ** [internal/config] *)

Module Config.

(** The structs of the configuration; the field [Channels] of
    [KickConfig] is [KickChannels] here. *)
Record TwitchConfig : Type := mkTwitchConfig {
  Username : string;
  OAuth : string;
  Channels : list string
}.

Record KickChannel : Type := mkKickChannel {
  Slug : string;
  ChatroomID : Z
}.

Record KickConfig : Type := mkKickConfig {
  Enabled : bool;
  KickChannels : list KickChannel
}.

Record S3Config : Type := mkS3Config {
  Bucket : string;
  Region : string;
  RoleARN : string;
  AccessKeyID : string;
  SecretAccessKey : string;
  Endpoint : string
}.

Record RecorderConfig : Type := mkRecorderConfig {
  OutputDir : string;
  RotateMinutes : Z;
  RotateMegabytes : Z;
  BufferSize : Z
}.

Record UploaderConfig : Type := mkUploaderConfig {
  CheckIntervalSeconds : Z;
  DeleteAfterUpload : bool;
  MaxRetries : Z
}.

Record Config : Type := mkConfig {
  Twitch : TwitchConfig;
  Kick : KickConfig;
  S3 : S3Config;
  Recorder : RecorderConfig;
  Uploader : UploaderConfig
}.

(** The errors of [Load], one for each [fmt.Errorf]. *)
Inductive load_error : Type :=
| ErrReadConfigFile (e : error)    (* "read config file: %w" *)
| ErrParseConfigFile (e : error)   (* "parse config file: %w" *)
| ErrTwitchUsername                (* "twitch.username is required when ..." *)
| ErrTwitchOAuth                   (* "twitch.oauth is required when ..." *)
| ErrNoChannel                     (* "at least one channel is required ..." *)
| ErrBucket                        (* "s3.bucket is required" *)
| ErrRegion                        (* "s3.region is required" *)
| ErrCredentials                   (* "either s3.role_arn (OIDC) or ..." *)
| ErrSecretAccessKey.              (* "s3.secret_access_key is required ..." *)

(** [if v := os.Getenv(name); v != "" { field = v }] *)
Definition override (field env : string) : string :=
  if String.eqb env EmptyString then field else env.

(** [if field == 0 { field = value }] *)
Definition default_int (field value : Z) : Z :=
  if field =? 0 then value else field.

Section WithFiles.

(** [os.ReadFile], [yaml.Unmarshal] into a zero [Config], and
    [os.Getenv]. *)
Variable os_ReadFile : string -> result string.
Variable yaml_Unmarshal : string -> result Config.
Variable os_Getenv : string -> string.

(** "Apply environment variable overrides" *)
Definition applyEnv (cfg : Config) : Config :=
  mkConfig
    (mkTwitchConfig (Username (Twitch cfg))
       (override (OAuth (Twitch cfg)) (os_Getenv "TWITCH_OAUTH"))
       (Channels (Twitch cfg)))
    (Kick cfg)
    (mkS3Config (Bucket (S3 cfg)) (Region (S3 cfg))
       (override (RoleARN (S3 cfg)) (os_Getenv "AWS_ROLE_ARN"))
       (override (AccessKeyID (S3 cfg)) (os_Getenv "S3_ACCESS_KEY_ID"))
       (override (SecretAccessKey (S3 cfg)) (os_Getenv "S3_SECRET_ACCESS_KEY"))
       (Endpoint (S3 cfg)))
    (Recorder cfg)
    (Uploader cfg).

(** "Set defaults" *)
Definition setDefaults (cfg : Config) : Config :=
  mkConfig (Twitch cfg) (Kick cfg) (S3 cfg)
    (mkRecorderConfig
       (if String.eqb (OutputDir (Recorder cfg)) EmptyString then "./data"
        else OutputDir (Recorder cfg))
       (default_int (RotateMinutes (Recorder cfg)) 60)
       (default_int (RotateMegabytes (Recorder cfg)) 100)
       (default_int (BufferSize (Recorder cfg)) 100))
    (mkUploaderConfig
       (default_int (CheckIntervalSeconds (Uploader cfg)) 60)
       (DeleteAfterUpload (Uploader cfg))
       (default_int (MaxRetries (Uploader cfg)) 3)).

(** "Validate required fields" *)
Definition validate (cfg : Config) : load_error + Config :=
  let twitch :=
    if (0 <? length (Channels (Twitch cfg)))%nat then
      if String.eqb (Username (Twitch cfg)) EmptyString then Some ErrTwitchUsername
      else if String.eqb (OAuth (Twitch cfg)) EmptyString then Some ErrTwitchOAuth
      else None
    else None in
  match twitch with
  | Some e => inl e
  | None =>
      let totalChannels := length (Channels (Twitch cfg)) in
      let totalChannels :=
        if Enabled (Kick cfg)
        then (totalChannels + length (KickChannels (Kick cfg)))%nat
        else totalChannels in
      if (totalChannels =? 0)%nat then inl ErrNoChannel
      else if String.eqb (Bucket (S3 cfg)) EmptyString then inl ErrBucket
      else if String.eqb (Region (S3 cfg)) EmptyString then inl ErrRegion
      else if String.eqb (RoleARN (S3 cfg)) EmptyString
              && String.eqb (AccessKeyID (S3 cfg)) EmptyString
      then inl ErrCredentials
      else if negb (String.eqb (AccessKeyID (S3 cfg)) EmptyString)
              && String.eqb (SecretAccessKey (S3 cfg)) EmptyString
      then inl ErrSecretAccessKey
      else inr cfg
  end.

(** [Load(path)] *)
Definition Load (path : string) : load_error + Config :=
  match os_ReadFile path with
  | Err e => inl (ErrReadConfigFile e)
  | Ok data =>
      match yaml_Unmarshal data with
      | Err e => inl (ErrParseConfigFile e)
      | Ok cfg => validate (setDefaults (applyEnv cfg))
      end
  end.

End WithFiles.

End Config.

(** ** Messages for the examples *)

Module Examples.

Definition quote : string := String (ascii_of_nat 34) EmptyString.

Definition field (k v : string) : string :=
  quote +:+ k +:+ quote +:+ ":" +:+ quote +:+ v +:+ quote.

(** [json.Marshal] of a message whose strings need no escaping. *)
Definition marshal_plain (m : Message) : result string :=
  Ok ("{" +:+ field "platform" (Platform m) +:+ ","
      +:+ field "timestamp" (Timestamp m) +:+ ","
      +:+ field "channel" (Channel m) +:+ ","
      +:+ field "username" (Username m) +:+ ","
      +:+ field "user_id" (UserID m) +:+ ","
      +:+ field "message" (Text m)
      +:+ (if String.eqb (Badges m) EmptyString then EmptyString
           else "," +:+ field "badges" (Badges m))
      +:+ "}").

Definition hello : Message :=
  mkMessage "twitch" "2025-12-30T10:30:40Z" "ludwig" "viewer1" "1001" "hello" EmptyString.

Definition gg : Message :=
  mkMessage "twitch" "2025-12-30T10:30:55Z" "ludwig" "viewer2" "1002" "gg" "subscriber".

(** 2025-12-30 10:29:50 UTC, in nanoseconds since the epoch. *)
Definition t_start : Z := 1767090590 * GoTime.Second.

(** The messages that a list of steps hands to the recorder, in order. *)
Fixpoint received (steps : list Recorder.step) : list Message :=
  match steps with
  | [] => []
  | Recorder.Receive msg :: rest => msg :: received rest
  | Recorder.Done :: _ => []
  | _ :: rest => received rest
  end.

(** A busy minute: 9000 messages ten seconds after the start, the tick
    of the rotation timer fifty seconds later, one more message, and
    the shutdown. *)
Definition busy_minute : list Recorder.step :=
  Recorder.Elapse (10 * GoTime.Second)
  :: map Recorder.Receive (repeat hello (Z.to_nat 9000))
  ++ [Recorder.Elapse (50 * GoTime.Second); Recorder.Tick;
      Recorder.Receive gg; Recorder.Done].

(** A recorder with one writer, for ["twitch_ludwig"], holding one
    message, ten seconds after the start; the queue has no room. *)
Definition one_writer : Recorder.State :=
  (Recorder.Start marshal_plain
     [Recorder.Elapse (10 * GoTime.Second); Recorder.Receive hello]
     (Recorder.initial "data" 100 60 1 t_start 0)).2.

(** The same recorder once [os.Create] refuses the path of the segment
    of the current minute. *)
Definition one_writer_denied : Recorder.State :=
  (Recorder.Start marshal_plain
     [Recorder.Elapse (10 * GoTime.Second); Recorder.Receive hello;
      Recorder.Deny {[ "data/twitch_ludwig_20251230_1030.jsonl" ]}]
     (Recorder.initial "data" 100 60 1 t_start 0)).2.

Definition hello_writer : Recorder.fileWriter :=
  Recorder.mkFileWriter
    (GoOS.mkFile 3 "data/twitch_ludwig_20251230_1030.jsonl")
    GoBufio.NewWriter (t_start + 10 * GoTime.Second) 0 [hello]
    "twitch" "ludwig" "twitch_ludwig_20251230_1030.jsonl".

Definition example_path : string := "data/twitch_ludwig_20251230_1030.jsonl".

Definition example_store : Uploader.Store :=
  Uploader.mkStore {[ example_path := "{}" ]} ∅.

(** A store that fails the first two attempts and then accepts. *)
Definition fails_twice : Uploader.Env :=
  Uploader.mkEnv (fun n => (2 <=? n)%nat) (fun _ => false) true.

(** A store that never accepts. *)
Definition always_failing : Uploader.Env :=
  Uploader.mkEnv (fun _ => false) (fun _ => false) true.

(** A store that never accepts, and a cancellation that arrives during
    the first backoff. *)
Definition cancelled_at_once : Uploader.Env :=
  Uploader.mkEnv (fun _ => false) (fun _ => true) true.

(** A configuration file that names one Twitch channel and a bucket,
    and leaves the secrets to the environment. *)
Definition example_config : Config.Config :=
  Config.mkConfig
    (Config.mkTwitchConfig "chatlog" EmptyString ["ludwig"])
    (Config.mkKickConfig false [])
    (Config.mkS3Config "chatlog-archive" "us-east-1" EmptyString EmptyString
       EmptyString EmptyString)
    (Config.mkRecorderConfig EmptyString 0 0 0)
    (Config.mkUploaderConfig 0 false (-1)).

Definition example_env (name : string) : string :=
  if String.eqb name "TWITCH_OAUTH" then "oauth:token"
  else if String.eqb name "AWS_ROLE_ARN" then "arn:aws:iam::1:role/chatlog"
  else EmptyString.

End Examples.

(** * Properties *)

(** ** Strings, numbers and dates *)

Section StringFacts.

Lemma substring_all (s : string) : substring 0 (String.length s) s = s.
Proof. induction s as [|c s IH]; simpl; [reflexivity | now rewrite IH]. Qed.

Lemma drop_bytes_0 (s : string) : GoTime.drop_bytes 0 s = s.
Proof. unfold GoTime.drop_bytes. rewrite Nat.sub_0_r. apply substring_all. Qed.

Lemma drop_bytes_S (n : nat) (c : ascii) (s : string) :
  GoTime.drop_bytes (S n) (String c s) = GoTime.drop_bytes n s.
Proof. reflexivity. Qed.

Lemma sapp_nil (b : string) : EmptyString +:+ b = b.
Proof. reflexivity. Qed.

Lemma sapp_cons (c : ascii) (a b : string) : String c a +:+ b = String c (a +:+ b).
Proof. reflexivity. Qed.

Lemma string_app_assoc (a b c : string) : (a +:+ b) +:+ c = a +:+ (b +:+ c).
Proof.
  induction a as [|x a IH]; [reflexivity|]. rewrite !sapp_cons. now rewrite IH.
Qed.

Lemma string_app_nil_r (a : string) : a +:+ EmptyString = a.
Proof.
  induction a as [|x a IH]; [reflexivity|]. rewrite sapp_cons. now rewrite IH.
Qed.

Lemma string_app_length (a b : string) :
  String.length (a +:+ b) = (String.length a + String.length b)%nat.
Proof.
  induction a as [|x a IH]; [reflexivity|]. rewrite sapp_cons. simpl. now rewrite IH.
Qed.

Lemma get_app_l (a b : string) (i : nat) :
  (i < String.length a)%nat -> String.get i (a +:+ b) = String.get i a.
Proof.
  revert i. induction a as [|x a IH]; intros i Hlen; simpl in Hlen; [lia|].
  rewrite sapp_cons. destruct i as [|i]; [reflexivity|]. simpl. apply IH. lia.
Qed.

Lemma sapp_inj_head (a x y : string) : a +:+ x = a +:+ y -> x = y.
Proof.
  induction a as [|c a IH]; [auto|]. rewrite !sapp_cons. intros [= H]. auto.
Qed.

(** Two appended strings with tails of one length are equal part by part. *)
Lemma sapp_inj_tail (a1 a2 t1 t2 : string) :
  String.length t1 = String.length t2 ->
  a1 +:+ t1 = a2 +:+ t2 -> a1 = a2 /\ t1 = t2.
Proof.
  intros Hlen. revert a2.
  induction a1 as [|x a1 IH]; intros [|y a2] H.
  - auto.
  - apply (f_equal String.length) in H.
    rewrite sapp_nil, sapp_cons in H. simpl in H.
    rewrite string_app_length in H. lia.
  - apply (f_equal String.length) in H.
    rewrite sapp_nil, sapp_cons in H. simpl in H.
    rewrite string_app_length in H. lia.
  - rewrite !sapp_cons in H. injection H as -> H.
    destruct (IH _ H) as [-> ->]. auto.
Qed.

Lemma contains_byte_app (c : ascii) (a b : string) :
  GoStrings.contains_byte c (a +:+ b)
  = GoStrings.contains_byte c a || GoStrings.contains_byte c b.
Proof.
  induction a as [|x a IH]; [reflexivity|].
  rewrite sapp_cons. simpl. rewrite IH. now rewrite orb_assoc.
Qed.

Lemma contains_byte_self (c : ascii) (b : string) :
  GoStrings.contains_byte c (String c b) = true.
Proof. simpl. now rewrite Ascii.eqb_refl. Qed.

(** The last occurrence of a separator splits a string in one way. *)
Lemma last_sep_unique (c : ascii) (k1 k2 y1 y2 : string) :
  GoStrings.contains_byte c y1 = false ->
  GoStrings.contains_byte c y2 = false ->
  k1 +:+ String c y1 = k2 +:+ String c y2 -> k1 = k2 /\ y1 = y2.
Proof.
  intros H1 H2. revert k2.
  induction k1 as [|a k1 IH]; intros [|b k2] H.
  - rewrite !sapp_nil in H. injection H as ->. auto.
  - rewrite sapp_nil, sapp_cons in H. injection H as <- ->.
    rewrite contains_byte_app, contains_byte_self, orb_true_r in H1. discriminate.
  - rewrite sapp_nil, sapp_cons in H. injection H as -> <-.
    rewrite contains_byte_app, contains_byte_self, orb_true_r in H2. discriminate.
  - rewrite !sapp_cons in H. injection H as -> H.
    destruct (IH _ H) as [-> ->]. auto.
Qed.

End StringFacts.

Section Digits.

Import GoTime GoFmt.

Lemma digits10_spec (d : Z) : 0 <= d <= 9 -> In d digits10.
Proof.
  intros H. unfold digits10. simpl.
  assert (d = 0 \/ d = 1 \/ d = 2 \/ d = 3 \/ d = 4 \/ d = 5 \/ d = 6
          \/ d = 7 \/ d = 8 \/ d = 9) by lia.
  intuition auto.
Qed.

Lemma digitb_range (c : ascii) :
  digitb c = true -> 0 <= digit_of c <= 9 /\ digit_char (digit_of c) = c.
Proof.
  unfold digitb, digit_of, digit_char. intros H.
  apply andb_true_iff in H as [H1 H2].
  apply Nat.leb_le in H1, H2. split; [lia|].
  replace (48 + Z.to_nat (Z.of_nat (nat_of_ascii c) - 48))%nat
    with (nat_of_ascii c) by lia.
  apply ascii_nat_embedding.
Qed.

Lemma pad0_4_table (d0 d1 d2 d3 : Z) :
  In d0 digits10 -> In d1 digits10 -> In d2 digits10 -> In d3 digits10 ->
  String.eqb (pad0 4 (d0 * 1000 + d1 * 100 + d2 * 10 + d3))
    (String (digit_char d0) (String (digit_char d1)
       (String (digit_char d2) (String (digit_char d3) EmptyString)))) = true.
Proof.
  intros H0 H1 H2 H3.
  revert d3 H3. apply forallb_forall.
  revert d2 H2. apply forallb_forall.
  revert d1 H1. apply forallb_forall.
  revert d0 H0. apply forallb_forall.
  vm_compute. reflexivity.
Qed.

Lemma pad0_2_table (d0 d1 : Z) :
  In d0 digits10 -> In d1 digits10 ->
  String.eqb (pad0 2 (d0 * 10 + d1))
    (String (digit_char d0) (String (digit_char d1) EmptyString)) = true.
Proof.
  intros H0 H1.
  revert d1 H1. apply forallb_forall.
  revert d0 H0. apply forallb_forall.
  vm_compute. reflexivity.
Qed.

(** [%04d] of the number read from four digits gives the digits back. *)
Lemma pad0_4_digits (c0 c1 c2 c3 : ascii) :
  digitb c0 = true -> digitb c1 = true -> digitb c2 = true -> digitb c3 = true ->
  pad0 4 (digit_of c0 * 1000 + digit_of c1 * 100 + digit_of c2 * 10 + digit_of c3)
  = String c0 (String c1 (String c2 (String c3 EmptyString))).
Proof.
  intros H0 H1 H2 H3.
  destruct (digitb_range _ H0) as [R0 E0], (digitb_range _ H1) as [R1 E1],
           (digitb_range _ H2) as [R2 E2], (digitb_range _ H3) as [R3 E3].
  pose proof (pad0_4_table _ _ _ _ (digits10_spec _ R0) (digits10_spec _ R1)
                (digits10_spec _ R2) (digits10_spec _ R3)) as Hc.
  apply String.eqb_eq in Hc. rewrite Hc, E0, E1, E2, E3. reflexivity.
Qed.

(** [%02d] of the number read from two digits gives the digits back. *)
Lemma pad0_2_digits (c0 c1 : ascii) :
  digitb c0 = true -> digitb c1 = true ->
  pad0 2 (digit_of c0 * 10 + digit_of c1) = String c0 (String c1 EmptyString).
Proof.
  intros H0 H1.
  destruct (digitb_range _ H0) as [R0 E0], (digitb_range _ H1) as [R1 E1].
  pose proof (pad0_2_table _ _ (digits10_spec _ R0) (digits10_spec _ R1)) as Hc.
  apply String.eqb_eq in Hc. rewrite Hc, E0, E1. reflexivity.
Qed.

(** What [getnum] with both digits required accepts. *)
Lemma getnum_fixed (s : string) (n : Z) (rest : string) :
  getnum s true = Some (n, rest) ->
  exists c0 c1, s = String c0 (String c1 rest)
    /\ digitb c0 = true /\ digitb c1 = true
    /\ n = digit_of c0 * 10 + digit_of c1.
Proof.
  unfold getnum, isDigit, digit_val.
  destruct s as [|c0 [|c1 s]]; simpl; try discriminate.
  - destruct (digitb c0); discriminate.
  - destruct (digitb c0) eqn:D0; simpl; [|discriminate].
    destruct (digitb c1) eqn:D1; simpl; [|discriminate].
    intros [= <- <-]. exists c0, c1. rewrite drop_bytes_S, drop_bytes_S, drop_bytes_0.
    auto.
Qed.

(** What the year chunk accepts. *)
Lemma getyear_digits (s : string) (n : Z) (rest : string) :
  getyear s = Some (n, rest) ->
  exists c0 c1 c2 c3, s = String c0 (String c1 (String c2 (String c3 rest)))
    /\ digitb c0 = true /\ digitb c1 = true /\ digitb c2 = true /\ digitb c3 = true
    /\ n = digit_of c0 * 1000 + digit_of c1 * 100 + digit_of c2 * 10 + digit_of c3.
Proof.
  unfold getyear, isDigit, digit_val.
  destruct s as [|c0 [|c1 [|c2 [|c3 s]]]]; simpl; try discriminate.
  destruct (digitb c0) eqn:D0; simpl; [|discriminate].
  destruct (digitb c1) eqn:D1; simpl; [|discriminate].
  destruct (digitb c2) eqn:D2; simpl; [|discriminate].
  destruct (digitb c3) eqn:D3; simpl; [|discriminate].
  intros [= <- <-]. exists c0, c1, c2, c3.
  rewrite !drop_bytes_S, drop_bytes_0. auto 10.
Qed.

(** A value that [Parse] accepts starts with the eight digits of the date
    and an underscore, and the date read is the one written there. *)
Lemma Parse_date (value : string) (t : Time) :
  Parse value = Some t ->
  exists y0 y1 y2 y3 m0 m1 d0 d1 rest,
    value = String y0 (String y1 (String y2 (String y3 (String m0 (String m1
              (String d0 (String d1 (String "_"%char rest))))))))
    /\ forallb digitb [y0; y1; y2; y3; m0; m1; d0; d1] = true
    /\ pad0 4 (Year t) = String y0 (String y1 (String y2 (String y3 EmptyString)))
    /\ pad0 2 (Month t) = String m0 (String m1 EmptyString)
    /\ pad0 2 (Day t) = String d0 (String d1 EmptyString).
Proof.
  unfold Parse. intros H.
  destruct (getyear value) as [[year v1]|] eqn:Hy; [|discriminate].
  destruct (getnum v1 true) as [[month v2]|] eqn:Hm; [|discriminate].
  destruct ((month <=? 0) || (12 <? month)); [discriminate|].
  destruct (getnum v2 true) as [[day v3]|] eqn:Hd; [|discriminate].
  destruct (skip v3 "_"%char) as [v4|] eqn:Hs; [|discriminate].
  destruct (getnum v4 false) as [[hour v5]|]; [|discriminate].
  destruct ((hour <? 0) || (24 <=? hour)); [discriminate|].
  destruct (getnum v5 true) as [[min v6]|]; [|discriminate].
  destruct ((min <? 0) || (60 <=? min)); [discriminate|].
  destruct (negb (String.length v6 =? 0)%nat); [discriminate|].
  destruct ((day <? 1) || (daysIn month year <? day)); [discriminate|].
  injection H as <-. simpl.
  apply getyear_digits in Hy as (y0 & y1 & y2 & y3 & -> & Y0 & Y1 & Y2 & Y3 & ->).
  apply getnum_fixed in Hm as (m0 & m1 & -> & M0 & M1 & ->).
  apply getnum_fixed in Hd as (d0 & d1 & -> & D0 & D1 & ->).
  destruct v3 as [|u v3]; [discriminate|]. simpl in Hs.
  destruct (Ascii.eqb u "_") eqn:Hu; [|discriminate].
  apply Ascii.eqb_eq in Hu as ->. injection Hs as ->.
  exists y0, y1, y2, y3, m0, m1, d0, d1, v4. split; [reflexivity|].
  split; [simpl; now rewrite Y0, Y1, Y2, Y3, M0, M1, D0, D1|].
  split; [now apply pad0_4_digits|].
  split; now apply pad0_2_digits.
Qed.

End Digits.

(** ** The time stamp of a segment name *)

Section Stamp.

Import GoStrings GoTime GoFmt.

Lemma digit_char_no_sep (d : Z) :
  0 <= d <= 9 -> Ascii.eqb (digit_char d) "_"%char = false.
Proof.
  intros H. apply digits10_spec in H. unfold digits10 in H. simpl in H.
  repeat (destruct H as [<-|H]; [reflexivity|]). destruct H.
Qed.

Lemma utoa_aux_no_sep (fuel : nat) :
  forall (n : Z) (acc : string),
    contains_byte "_"%char (utoa_aux fuel n acc) = contains_byte "_"%char acc.
Proof.
  assert (forall n acc,
            contains_byte "_"%char (String (digit_char (n mod 10)) acc)
            = contains_byte "_"%char acc) as Hstep.
  { intros n acc. cbn [contains_byte]. rewrite digit_char_no_sep; [reflexivity|].
    pose proof (Z.mod_pos_bound n 10). lia. }
  induction fuel as [|fuel IH]; intros n acc; cbn [utoa_aux].
  - apply Hstep.
  - destruct (n <? 10); [apply Hstep|]. rewrite IH. apply Hstep.
Qed.

Lemma zeros_no_sep (k : nat) : contains_byte "_"%char (zeros k) = false.
Proof. induction k as [|k IH]; [reflexivity|]. cbn [zeros contains_byte]. exact IH. Qed.

(** A number below 100 printed with [%02d] has two bytes. *)
Lemma pad0_2_length (x : Z) : 0 <= x <= 99 -> String.length (pad0 2 x) = 2%nat.
Proof.
  intros H.
  assert (0 <= x / 10 <= 9) as H0.
  { split; [apply Z.div_pos; lia|].
    assert (x / 10 < 10) by (apply Z.div_lt_upper_bound; lia). lia. }
  assert (0 <= x mod 10 <= 9) as H1 by (pose proof (Z.mod_pos_bound x 10); lia).
  pose proof (pad0_2_table _ _ (digits10_spec _ H0) (digits10_spec _ H1)) as E.
  apply String.eqb_eq in E.
  replace (x / 10 * 10 + x mod 10) with x in E
    by (pose proof (Z.div_mod x 10); lia).
  now rewrite E.
Qed.

Lemma on_range_spec (test : Z -> bool) (depth : nat) :
  forall lo x : Z,
    on_range depth lo test = true ->
    lo <= x < lo + 2 ^ Z.of_nat depth -> test x = true.
Proof.
  induction depth as [|depth IH]; intros lo x H Hx.
  - simpl in H. change (2 ^ Z.of_nat 0) with 1 in Hx.
    now replace x with lo by lia.
  - cbn [on_range] in H. apply andb_true_iff in H as [Hl Hr].
    rewrite Nat2Z.inj_succ, Z.pow_succ_r in Hx by lia.
    destruct (Z.lt_ge_cases x (lo + 2 ^ Z.of_nat depth)).
    + apply (IH lo); [exact Hl | lia].
    + apply (IH (lo + 2 ^ Z.of_nat depth)); [exact Hr | lia].
Qed.

Lemma month_day_table : on_range 18 0 month_day_ok = true.
Proof. vm_cast_no_check (eq_refl true). Qed.

(** The month and the day of every day number are a month and a day. *)
Lemma civil_from_days_range (days : Z) :
  let '(_, m, d) := civil_from_days days in 1 <= m <= 12 /\ 1 <= d <= 31.
Proof.
  unfold civil_from_days.
  pose proof (Z.mod_pos_bound (days + 719468) 146097 ltac:(lia)) as Hdoe.
  set (doe := (days + 719468) mod 146097) in *.
  pose proof (on_range_spec month_day_ok 18 0 doe month_day_table) as T.
  change (2 ^ Z.of_nat 18) with 262144 in T.
  specialize (T ltac:(lia)). unfold month_day_ok in T.
  destruct (Z.ltb_spec doe 146097); [|lia].
  destruct (civil_of_doe doe) as [[yoe m] d].
  rewrite !andb_true_iff in T. lia.
Qed.

(** [appendInt] of a number that is not negative is [%0<w>d] of it, and
    no number is printed with an underscore. *)
Lemma appendInt_nonneg (x : Z) (w : nat) : 0 <= x -> appendInt x w = pad0 w x.
Proof.
  intros H. unfold appendInt, pad0.
  destruct (Z.ltb_spec x 0); [lia|]. now rewrite Z.abs_eq.
Qed.

Lemma appendInt_no_sep (x : Z) (w : nat) :
  contains_byte "_"%char (appendInt x w) = false.
Proof.
  unfold appendInt, utoa. destruct (x <? 0); cbn [contains_byte];
    rewrite contains_byte_app, zeros_no_sep, utoa_aux_no_sep; reflexivity.
Qed.

(** The time stamp of an instant: the year, which has no underscore, and
    nine more bytes. *)
Lemma Format_shape (t : Z) :
  exists year rest,
    Format (UTC t) = year +:+ rest
    /\ contains_byte "_"%char year = false
    /\ String.length rest = 9%nat.
Proof.
  unfold UTC.
  pose proof (civil_from_days_range (t / Minute / 1440)) as R.
  destruct (civil_from_days (t / Minute / 1440)) as [[y m] d].
  unfold Format. cbn [Year Month Day Hour Min].
  eexists _, _. split; [reflexivity|]. split; [apply appendInt_no_sep|].
  rewrite !string_app_length.
  assert (0 <= t / Minute mod 1440 < 1440) as Hm by (apply Z.mod_pos_bound; lia).
  assert (0 <= t / Minute mod 1440 / 60 <= 99) as Hh.
  { split; [apply Z.div_pos; lia|].
    assert (t / Minute mod 1440 / 60 < 100) by (apply Z.div_lt_upper_bound; lia).
    lia. }
  assert (0 <= t / Minute mod 60 <= 99) as Hmi
    by (pose proof (Z.mod_pos_bound (t / Minute) 60); lia).
  rewrite !appendInt_nonneg, !pad0_2_length by lia. reflexivity.
Qed.

(** Equal segment names are names for one key. *)
Lemma segment_name_key_inj (p1 c1 p2 c2 : string) (t1 t2 : Z) :
  Recorder.segment_name p1 c1 (Format (UTC t1))
  = Recorder.segment_name p2 c2 (Format (UTC t2)) ->
  Recorder.file_key p1 c1 = Recorder.file_key p2 c2.
Proof.
  unfold Recorder.segment_name, Recorder.file_key.
  destruct (Format_shape t1) as (y1 & r1 & -> & Y1 & L1).
  destruct (Format_shape t2) as (y2 & r2 & -> & Y2 & L2).
  intros H.
  assert ((p1 +:+ "_" +:+ c1) +:+ String "_"%char y1 +:+ (r1 +:+ ".jsonl")
          = (p2 +:+ "_" +:+ c2) +:+ String "_"%char y2 +:+ (r2 +:+ ".jsonl")) as H'.
  { rewrite !string_app_assoc in *. exact H. }
  rewrite <- !(string_app_assoc _ (String "_"%char _) (_ +:+ ".jsonl")) in H'.
  apply sapp_inj_tail in H' as [H' _];
    [|rewrite !string_app_length; lia].
  now apply last_sep_unique in H' as [-> _].
Qed.

End Stamp.

(** ** The remote key *)

Section RemoteKey.

Import GoStrings GoTime Uploader.

Lemma parts_length (first date time : string) (middle : list string) :
  length (first :: middle ++ [date; time]) = (3 + length middle)%nat.
Proof. simpl. rewrite length_app. simpl. lia. Qed.

Lemma parts_first (first date time : string) (middle : list string) :
  index (first :: middle ++ [date; time]) 0 = first.
Proof. reflexivity. Qed.

Lemma parts_date (first date time : string) (middle : list string) :
  index (first :: middle ++ [date; time]) (3 + length middle - 2) = date.
Proof.
  unfold index. replace (3 + length middle - 2)%nat with (S (length middle)) by lia.
  simpl. rewrite app_nth2 by lia. now rewrite Nat.sub_diag.
Qed.

Lemma parts_time (first date time : string) (middle : list string) :
  index (first :: middle ++ [date; time]) (3 + length middle - 1) = time.
Proof.
  unfold index. replace (3 + length middle - 1)%nat with (S (length middle + 1)) by lia.
  simpl. rewrite app_nth2 by lia.
  now replace (length middle + 1 - length middle)%nat with 1%nat by lia.
Qed.

Lemma parts_middle (first date time : string) (middle : list string) :
  slice (first :: middle ++ [date; time]) 1 (3 + length middle - 2) = middle.
Proof.
  unfold slice. replace (3 + length middle - 2 - 1)%nat with (length middle) by lia.
  simpl. rewrite drop_0. now rewrite take_app_length.
Qed.

Lemma underscore_not_digit : digitb "_"%char = false.
Proof. reflexivity. Qed.

(** A date token followed by an underscore that starts with eight digits
    and an underscore starts with these eight digits itself. *)
Lemma date_token_digits (date tail rest : string) (y0 y1 y2 y3 m0 m1 d0 d1 : ascii) :
  date +:+ String "_"%char tail
  = String y0 (String y1 (String y2 (String y3 (String m0 (String m1
      (String d0 (String d1 (String "_"%char rest)))))))) ->
  forallb digitb [y0; y1; y2; y3; m0; m1; d0; d1] = true ->
  exists date',
    date = String y0 (String y1 (String y2 (String y3 (String m0 (String m1
             (String d0 (String d1 date'))))))).
Proof.
  intros E D. simpl in D. rewrite !andb_true_iff in D.
  destruct D as (Y0 & Y1 & Y2 & Y3 & M0 & M1 & D0 & D1 & _).
  repeat match goal with
  | H : ?s +:+ String "_"%char _ = String ?c _ |- _ =>
      destruct s as [|? ?];
      [ rewrite sapp_nil in H; injection H as <- _;
        rewrite underscore_not_digit in *; discriminate
      | rewrite sapp_cons in H; injection H as -> H ]
  end.
  eexists. reflexivity.
Qed.

(** C2 — [generateS3Key] (the spec's [deriveRemoteKey]): a file name of at
    least four underscore-separated tokens (once [.jsonl] is trimmed)
    whose last two tokens parse against [20060102_1504] gets the key
    [YYYY/MM/DD/<first token>/<middle tokens joined by underscores>/<file
    name>], where [YYYY], [MM] and [DD] are the first four, next two and
    last two bytes of the date token; the two examples of the
    specification come out as written there. *)
Theorem generateS3Key_layout :
  (forall (filename first date time : string) (middle : list string) (t : Time),
      Split (TrimSuffix filename ".jsonl") "_"%char
        = first :: middle ++ [date; time] ->
      middle <> [] ->
      Parse (date +:+ "_" +:+ time) = Some t ->
      generateS3Key filename
      = Ok (substring 0 4 date +:+ "/" +:+ substring 4 2 date +:+ "/"
            +:+ substring 6 2 date +:+ "/" +:+ first +:+ "/"
            +:+ Join middle "_" +:+ "/" +:+ filename))
  /\ generateS3Key "twitch_ludwig_20251230_1030.jsonl"
     = Ok "2025/12/30/twitch/ludwig/twitch_ludwig_20251230_1030.jsonl"
  /\ generateS3Key "twitch_some_long_name_20251230_1030.jsonl"
     = Ok "2025/12/30/twitch/some_long_name/twitch_some_long_name_20251230_1030.jsonl".
Proof.
  split; [|split; vm_compute; reflexivity].
  intros filename first date time middle t Hsplit Hmid Hparse.
  unfold generateS3Key. rewrite Hsplit, parts_length.
  assert (length middle <> 0%nat) as Hlen by (destruct middle; [congruence | discriminate]).
  destruct (Nat.ltb_spec (3 + length middle) 4) as [Hlt|_]; [lia|].
  rewrite parts_first, parts_date, parts_time, parts_middle, Hparse.
  destruct (Parse_date _ _ Hparse)
    as (y0 & y1 & y2 & y3 & m0 & m1 & d0 & d1 & rest & E & D & -> & -> & ->).
  destruct (date_token_digits _ _ _ _ _ _ _ _ _ _ _ E D) as [date' ->].
  destruct date'; reflexivity.
Qed.

Lemma generateS3Key_layout_witness :
  generateS3Key "kick_a_b_20240229_2359.jsonl"
  = Ok "2024/02/29/kick/a_b/kick_a_b_20240229_2359.jsonl".
Proof.
  apply (proj1 generateS3Key_layout "kick_a_b_20240229_2359.jsonl"
           "kick" "20240229" "2359" ["a"; "b"]
           (mkTime 2024 2 29 23 59)).
  - reflexivity.
  - discriminate.
  - reflexivity.
Defined.

(** C6 — a file name with fewer than four tokens, or whose last two
    tokens do not parse against [20060102_1504], has no key:
    [generateS3Key] returns an error, and [uploadWithRetry] on such a
    file logs it and returns: no upload attempt, no retry, nothing
    removed. *)
Theorem generateS3Key_format_error (filename : string) :
  let parts := Split (TrimSuffix filename ".jsonl") "_"%char in
  let timestamp :=
    index parts (length parts - 2) +:+ "_" +:+ index parts (length parts - 1) in
  (length parts < 4)%nat \/ Parse timestamp = None ->
  exists e : error,
    (e = ErrInvalidFilenameFormat filename \/ e = ErrParseTimestamp timestamp)
    /\ generateS3Key filename = Err e
    /\ forall (u : Uploader) (env : Env) (localPath : string) (st : Store),
         GoPath.Base localPath = filename ->
         uploadWithRetry u env localPath st = Some ([EvKeyError e], st)
         /\ attempts [EvKeyError e] = 0%nat
         /\ delays [EvKeyError e] = [].
Proof.
  intros parts timestamp H.
  assert (exists e, (e = ErrInvalidFilenameFormat filename
                     \/ e = ErrParseTimestamp timestamp)
                    /\ generateS3Key filename = Err e) as (e & He & Hk).
  { unfold generateS3Key. fold parts.
    destruct (Nat.ltb_spec (length parts) 4) as [Hlt|Hge].
    - eexists. split; [left; reflexivity | reflexivity].
    - destruct H as [H|H]; [lia|]. fold timestamp. rewrite H.
      eexists. split; [right; reflexivity | reflexivity]. }
  exists e. split; [exact He|]. split; [exact Hk|].
  intros u env localPath st Hbase. unfold uploadWithRetry.
  rewrite Hbase, Hk. auto.
Qed.

Lemma generateS3Key_format_error_witness :
  exists e : error,
    (e = ErrInvalidFilenameFormat "twitch_20251230_1030.jsonl"
     \/ e = ErrParseTimestamp "20251230_1030")
    /\ generateS3Key "twitch_20251230_1030.jsonl" = Err e
    /\ forall (u : Uploader) (env : Env) (localPath : string) (st : Store),
         GoPath.Base localPath = "twitch_20251230_1030.jsonl" ->
         uploadWithRetry u env localPath st = Some ([EvKeyError e], st)
         /\ attempts [EvKeyError e] = 0%nat
         /\ delays [EvKeyError e] = [].
Proof.
  apply (generateS3Key_format_error "twitch_20251230_1030.jsonl").
  left. vm_compute. lia.
Defined.

End RemoteKey.

(** ** The retry loop *)

Section RetryLoop.

Import Uploader.

Lemma wrap64_small (z : Z) : minInt64 <= z <= maxInt64 -> wrap64 z = z.
Proof.
  unfold minInt64, maxInt64, wrap64. intros H.
  rewrite Z.mod_small; lia.
Qed.

(** Up to the 34th attempt the backoff is the power of two, in seconds. *)
Lemma backoff_pow2 (a : Z) : 0 <= a <= 33 -> backoff a = 2 ^ a * GoTime.Second.
Proof.
  intros H. unfold backoff, to_uint64.
  rewrite (Z.mod_small a) by lia.
  destruct (Z.leb_spec 64 a) as [?|_]; [lia|].
  rewrite Z.shiftl_1_l.
  assert (0 < 2 ^ a <= 2 ^ 33) as Hp.
  { split; [apply Z.pow_pos_nonneg; lia | apply Z.pow_le_mono_r; lia]. }
  change (2 ^ 33) with 8589934592 in Hp.
  unfold GoTime.Second.
  rewrite (wrap64_small (2 ^ a)) by (unfold minInt64, maxInt64; lia).
  apply wrap64_small. unfold minInt64, maxInt64. lia.
Qed.

Variables (u : Uploader) (env : Env) (localPath s3Key : string).

(** How a run of the loop ends: with one successful attempt, followed by
    the removal when it is asked for, or with the store as it was. *)
Lemma retryLoop_outcome (fuel : nat) :
  forall (a : Z) (n : nat) (st : Store) (tr : list event) (st' : Store),
    retryLoop fuel u env localPath s3Key a n st = Some (tr, st') ->
    (exists pre a' m body,
        files st !! localPath = Some body
        /\ putOk env m = true
        /\ Forall quiet pre
        /\ let st1 := mkStore (files st) (<[s3Key := body]> (objects st)) in
           (deleteAfter u = true
            /\ tr = pre ++ [EvAttempt a' true;
                            EvRemove localPath (is_ok (os_Remove env localPath st1).1)]
            /\ st' = (os_Remove env localPath st1).2)
           \/ (deleteAfter u = false
               /\ tr = pre ++ [EvAttempt a' true] /\ st' = st1))
    \/ (st' = st /\ Forall quiet tr
        /\ (last tr = Some EvGiveUp \/ exists d, last tr = Some (EvBackoff d true))).
Proof.
  induction fuel as [|fuel IH]; intros a n st tr st' H; simpl in H; [discriminate|].
  destruct (a <=? maxRetries u); cycle 1.
  { injection H as <- <-. right. split; [reflexivity|]. split; [|left; reflexivity].
    repeat constructor. }
  unfold uploadFile in H.
  destruct (files st !! localPath) as [body|] eqn:Hfile.
  - destruct (putOk env n) eqn:Hput.
    + left. exists [], a, n, body. split; [reflexivity|]. split; [exact Hput|].
      split; [constructor|]. simpl.
      destruct (deleteAfter u).
      * left. destruct (os_Remove env localPath _) as [r st2] eqn:Hrm.
        injection H as <- <-. auto.
      * right. injection H as <- <-. auto.
    + destruct (a <? maxRetries u).
      * destruct (ctxDone env n).
        { injection H as <- <-. right. split; [reflexivity|].
          split; [repeat constructor | right; eexists; reflexivity]. }
        destruct (retryLoop fuel _ _ _ _ _ _ _) as [[tr2 st2]|] eqn:Hrec; [|discriminate].
        injection H as <- <-.
        destruct (IH _ _ _ _ _ Hrec)
          as [(pre & a' & m & body' & Hb & Hm & Hq & Hcase)|(-> & Hq & Hl)].
        -- left. exists (EvAttempt a false :: EvBackoff (backoff a) false :: pre), a', m, body'.
           split; [congruence|]. split; [exact Hm|].
           split; [repeat constructor; exact Hq|].
           destruct Hcase as [(Hd & -> & ->)|(Hd & -> & ->)]; [left|right]; auto.
        -- right. split; [reflexivity|]. split; [repeat constructor; exact Hq|].
           destruct tr2 as [|e tr2]; [destruct Hl as [Hl|[d Hl]]; discriminate|].
           exact Hl.
      * destruct (retryLoop fuel _ _ _ _ _ _ _) as [[tr2 st2]|] eqn:Hrec; [|discriminate].
        injection H as <- <-.
        destruct (IH _ _ _ _ _ Hrec)
          as [(pre & a' & m & body' & Hb & Hm & Hq & Hcase)|(-> & Hq & Hl)].
        -- left. exists (EvAttempt a false :: pre), a', m, body'.
           split; [congruence|]. split; [exact Hm|].
           split; [repeat constructor; exact Hq|].
           destruct Hcase as [(Hd & -> & ->)|(Hd & -> & ->)]; [left|right]; auto.
        -- right. split; [reflexivity|]. split; [repeat constructor; exact Hq|].
           destruct tr2 as [|e tr2]; [destruct Hl as [Hl|[d Hl]]; discriminate|].
           exact Hl.
  - destruct (a <? maxRetries u).
    + destruct (ctxDone env n).
      { injection H as <- <-. right. split; [reflexivity|].
        split; [repeat constructor | right; eexists; reflexivity]. }
      destruct (retryLoop fuel _ _ _ _ _ _ _) as [[tr2 st2]|] eqn:Hrec; [|discriminate].
      injection H as <- <-.
      destruct (IH _ _ _ _ _ Hrec)
        as [(pre & a' & m & body' & Hb & Hm & Hq & Hcase)|(-> & Hq & Hl)].
      * congruence.
      * right. split; [reflexivity|]. split; [repeat constructor; exact Hq|].
        destruct tr2 as [|e tr2]; [destruct Hl as [Hl|[d Hl]]; discriminate|].
        exact Hl.
    + destruct (retryLoop fuel _ _ _ _ _ _ _) as [[tr2 st2]|] eqn:Hrec; [|discriminate].
      injection H as <- <-.
      destruct (IH _ _ _ _ _ Hrec)
        as [(pre & a' & m & body' & Hb & Hm & Hq & Hcase)|(-> & Hq & Hl)].
      * congruence.
      * right. split; [reflexivity|]. split; [repeat constructor; exact Hq|].
        destruct tr2 as [|e tr2]; [destruct Hl as [Hl|[d Hl]]; discriminate|].
        exact Hl.
Qed.

(** One iteration of the loop, read off a run that returns. *)
Lemma retryLoop_inv (fuel : nat) (a : Z) (n : nat) (st : Store)
    (tr : list event) (st' : Store) :
  retryLoop (S fuel) u env localPath s3Key a n st = Some (tr, st') ->
  (maxRetries u < a /\ tr = [EvGiveUp])
  \/ (a <= maxRetries u
      /\ (tr = [EvAttempt a true] \/ exists ok, tr = [EvAttempt a true; EvRemove localPath ok]))
  \/ (a < maxRetries u /\ tr = [EvAttempt a false; EvBackoff (backoff a) true])
  \/ (a < maxRetries u
      /\ exists tr2 st1,
           retryLoop fuel u env localPath s3Key (wrap64 (a + 1)) (S n) st1 = Some (tr2, st')
           /\ tr = EvAttempt a false :: EvBackoff (backoff a) false :: tr2)
  \/ (a = maxRetries u
      /\ exists tr2 st1,
           retryLoop fuel u env localPath s3Key (wrap64 (a + 1)) (S n) st1 = Some (tr2, st')
           /\ tr = EvAttempt a false :: tr2).
Proof.
  intros H. simpl in H.
  destruct (Z.leb_spec a (maxRetries u)) as [Hle|Hgt]; cycle 1.
  { injection H as <- <-. left. auto. }
  right.
  destruct (uploadFile env n localPath s3Key st) as [[[]|e] st1].
  - left. split; [exact Hle|].
    destruct (deleteAfter u).
    + destruct (os_Remove env localPath st1) as [r st2].
      injection H as <- <-. right. eexists. reflexivity.
    + injection H as <- <-. left. reflexivity.
  - right.
    destruct (Z.ltb_spec a (maxRetries u)) as [Hlt|Hge].
    + destruct (ctxDone env n).
      * injection H as <- <-. left. auto.
      * right. left. split; [exact Hlt|].
        destruct (retryLoop fuel _ _ _ _ _ _ _) as [[tr2 st2]|] eqn:Hrec; [|discriminate].
        injection H as <- <-. eauto.
    + right. right. split; [lia|].
      destruct (retryLoop fuel _ _ _ _ _ _ _) as [[tr2 st2]|] eqn:Hrec; [|discriminate].
      injection H as <- <-. eauto.
Qed.

(** The schedule of a run from the counter [a]: how many attempts, how
    they are numbered, and what follows a failed one. *)
Lemma retryLoop_schedule (fuel : nat) :
  maxRetries u < maxInt64 ->
  forall (a : Z) (n : nat) (st : Store) (tr : list event) (st' : Store),
    0 <= a ->
    retryLoop fuel u env localPath s3Key a n st = Some (tr, st') ->
    Z.of_nat (attempts tr) <= Z.max 0 (maxRetries u + 1 - a)
    /\ (forall (i : nat) (b : Z) (ok : bool),
          tr !! i = Some (EvAttempt b ok) ->
          b = a + Z.of_nat (attempts (take i tr)))
    /\ (forall (i : nat) (b : Z),
          tr !! i = Some (EvAttempt b false) -> b < maxRetries u ->
          exists c, tr !! S i = Some (EvBackoff (backoff b) c))
    /\ (forall i : nat,
          tr !! i = Some (EvAttempt (maxRetries u) false) ->
          tr !! S i = Some EvGiveUp).
Proof.
  intros Hmax.
  induction fuel as [|fuel IH]; intros a n st tr st' Ha H; [discriminate|].
  apply retryLoop_inv in H
    as [[Hgt ->]|[[Hle Hs]|[[Hlt ->]|[(Hlt & tr2 & st1 & Hrec & ->)|(-> & tr2 & st1 & Hrec & ->)]]]].
  - split; [simpl; lia|]. split; [|split]; intros [|[|i]]; simpl; rewrite ?lookup_nil; congruence.
  - destruct Hs as [->|[ok' ->]].
    + split; [simpl; lia|]. split; [|split].
      * intros [|i] b ok Hi; simpl in Hi; rewrite ?lookup_nil in Hi; try congruence.
        injection Hi as <- <-. simpl. lia.
      * intros [|i] b Hi; simpl in Hi; rewrite ?lookup_nil in Hi; congruence.
      * intros [|i] Hi; simpl in Hi; rewrite ?lookup_nil in Hi; congruence.
    + split; [simpl; lia|]. split; [|split].
      * intros [|[|i]] b ok Hi; simpl in Hi; rewrite ?lookup_nil in Hi; try congruence.
        injection Hi as <- <-. simpl. lia.
      * intros [|[|i]] b Hi; simpl in Hi; rewrite ?lookup_nil in Hi; congruence.
      * intros [|[|i]] Hi; simpl in Hi; rewrite ?lookup_nil in Hi; congruence.
  - split; [simpl; lia|]. split; [|split].
    + intros [|[|i]] b ok Hi; simpl in Hi; rewrite ?lookup_nil in Hi; try congruence.
      injection Hi as <- <-. simpl. lia.
    + intros [|[|i]] b Hi _; simpl in Hi; rewrite ?lookup_nil in Hi; try congruence.
      injection Hi as <-. eexists. reflexivity.
    + intros [|[|i]] Hi; simpl in Hi; rewrite ?lookup_nil in Hi; try congruence.
      injection Hi as Hi. lia.
  - rewrite wrap64_small in Hrec by (unfold minInt64; lia).
    assert (0 <= a + 1) as Ha1 by lia.
    destruct (IH _ _ _ _ _ Ha1 Hrec) as (B & N & W & G).
    split; [cbn [attempts]; lia|]. split; [|split].
    + intros [|[|i]] b ok Hi; simpl in Hi; rewrite ?lookup_nil in Hi; try congruence.
      * injection Hi as <- <-. simpl. lia.
      * apply N in Hi. simpl. lia.
    + intros [|[|i]] b Hi Hb; simpl in Hi; rewrite ?lookup_nil in Hi; try congruence.
      * injection Hi as <-. eexists. reflexivity.
      * exact (W _ _ Hi Hb).
    + intros [|[|i]] Hi; simpl in Hi; rewrite ?lookup_nil in Hi; try congruence.
      * injection Hi as Hi. lia.
      * exact (G _ Hi).
  - rewrite wrap64_small in Hrec by (unfold minInt64; lia).
    destruct fuel as [|fuel]; [discriminate|].
    apply retryLoop_inv in Hrec as [[_ ->]|[[? _]|[[? _]|[[? _]|[? _]]]]]; try lia.
    split; [simpl; lia|]. split; [|split].
    + intros [|[|i]] b ok Hi; simpl in Hi; rewrite ?lookup_nil in Hi; try congruence.
      injection Hi as <- <-. simpl. lia.
    + intros [|[|i]] b Hi Hb; simpl in Hi; rewrite ?lookup_nil in Hi; try congruence.
      injection Hi as <-. lia.
    + intros [|[|i]] Hi; simpl in Hi; rewrite ?lookup_nil in Hi; try congruence. reflexivity.
Qed.

(** The loop leaves within [maxRetries + 2 - a] evaluations of its
    condition. *)
Lemma retryLoop_returns :
  maxRetries u < maxInt64 ->
  forall (fuel : nat) (a : Z) (n : nat) (st : Store),
    0 <= a <= maxRetries u + 1 ->
    (Z.to_nat (maxRetries u + 2 - a) <= fuel)%nat ->
    is_Some (retryLoop fuel u env localPath s3Key a n st).
Proof.
  intros Hmax.
  induction fuel as [|fuel IH]; intros a n st Ha Hfuel; [lia|].
  simpl.
  destruct (Z.leb_spec a (maxRetries u)) as [Hle|Hgt]; [|eexists; reflexivity].
  assert (is_Some (retryLoop fuel u env localPath s3Key (wrap64 (a + 1)) (S n) st)) as [[tr2 st2] Hrec].
  { rewrite wrap64_small by (unfold minInt64; lia). apply IH; lia. }
  unfold uploadFile.
  destruct (files st !! localPath) as [body|].
  - destruct (putOk env n).
    + destruct (deleteAfter u); [destruct (os_Remove _ _ _)|]; eexists; reflexivity.
    + destruct (a <? maxRetries u); [destruct (ctxDone env n)|];
        rewrite ?Hrec; eexists; reflexivity.
  - destruct (a <? maxRetries u); [destruct (ctxDone env n)|];
      rewrite ?Hrec; eexists; reflexivity.
Qed.

(** A failed attempt that is retried, and a successful one. *)
Lemma retryLoop_retry (fuel : nat) (a : Z) (n : nat) (st : Store) (body : string) :
  a < maxRetries u -> files st !! localPath = Some body ->
  putOk env n = false -> ctxDone env n = false ->
  retryLoop (S fuel) u env localPath s3Key a n st
  = match retryLoop fuel u env localPath s3Key (wrap64 (a + 1)) (S n) st with
    | Some (tr, st') =>
        Some (EvAttempt a false :: EvBackoff (backoff a) false :: tr, st')
    | None => None
    end.
Proof.
  intros Ha Hfile Hput Hdone. simpl. unfold uploadFile. rewrite Hfile, Hput, Hdone.
  destruct (Z.leb_spec a (maxRetries u)); [|lia].
  destruct (Z.ltb_spec a (maxRetries u)); [reflexivity|lia].
Qed.

Lemma retryLoop_success (fuel : nat) (a : Z) (n : nat) (st : Store) (body : string) :
  a <= maxRetries u -> files st !! localPath = Some body -> putOk env n = true ->
  retryLoop (S fuel) u env localPath s3Key a n st
  = let st1 := mkStore (files st) (<[s3Key := body]> (objects st)) in
    if deleteAfter u
    then Some ([EvAttempt a true; EvRemove localPath (removeOk env)],
               if removeOk env
               then mkStore (delete localPath (files st)) (objects st1)
               else st1)
    else Some ([EvAttempt a true], st1).
Proof.
  intros Ha Hfile Hput. simpl. unfold uploadFile, os_Remove. rewrite Hfile, Hput.
  destruct (Z.leb_spec a (maxRetries u)); [|lia].
  cbn [files objects]. rewrite Hfile.
  destruct (deleteAfter u); [|reflexivity].
  destruct (removeOk env); reflexivity.
Qed.

End RetryLoop.

Section UploadWithRetry.

Import Uploader Examples.

(** C3 (as amended) — for [0 <= maxRetries < 2^63 - 1], [uploadWithRetry]
    returns after at most [maxRetries + 1] upload attempts, numbered from
    0; a failed attempt [b < maxRetries] is followed by a backoff of
    [time.Duration(1<<b) * time.Second], which is [2^b] seconds for
    [b <= 33]; the failed attempt [maxRetries] is followed by no wait.
    With [maxRetries = 3] and a store that fails twice and then accepts,
    there are exactly three attempts, with backoffs of 1s and 2s, and
    the local file is removed after the third attempt, and only when
    delete-after-upload is set. *)
Theorem uploadWithRetry_schedule (u : Uploader) (env : Env)
    (localPath : string) (st : Store) :
  0 <= maxRetries u < maxInt64 ->
  (exists (tr : list event) (st' : Store),
      uploadWithRetry u env localPath st = Some (tr, st')
      /\ Z.of_nat (attempts tr) <= maxRetries u + 1
      /\ (forall (i : nat) (b : Z) (ok : bool),
            tr !! i = Some (EvAttempt b ok) ->
            b = Z.of_nat (attempts (take i tr)))
      /\ (forall (i : nat) (b : Z),
            tr !! i = Some (EvAttempt b false) -> b < maxRetries u ->
            exists c, tr !! S i = Some (EvBackoff (backoff b) c)
                      /\ (b <= 33 -> backoff b = 2 ^ b * GoTime.Second))
      /\ (forall i : nat,
            tr !! i = Some (EvAttempt (maxRetries u) false) ->
            tr !! S i = Some EvGiveUp))
  /\ (maxRetries u = 3 ->
      putOk env 0 = false -> putOk env 1 = false -> putOk env 2 = true ->
      ctxDone env 0 = false -> ctxDone env 1 = false ->
      forall key body : string,
        generateS3Key (GoPath.Base localPath) = Ok key ->
        files st !! localPath = Some body ->
        uploadWithRetry u env localPath st
        = Some ([EvAttempt 0 false; EvBackoff (1 * GoTime.Second) false;
                 EvAttempt 1 false; EvBackoff (2 * GoTime.Second) false;
                 EvAttempt 2 true]
                ++ (if deleteAfter u then [EvRemove localPath (removeOk env)] else []),
                mkStore (if deleteAfter u && removeOk env
                         then delete localPath (files st) else files st)
                        (<[key := body]> (objects st)))).
Proof.
  intros [Hlo Hhi]. split.
  - unfold uploadWithRetry.
    destruct (generateS3Key (GoPath.Base localPath)) as [s3Key|e].
    + destruct (retryLoop_returns u env localPath s3Key Hhi
                  (S (Z.to_nat (maxRetries u + 1))) 0 0%nat st) as [[tr st'] Hrun];
        [lia | lia |].
      exists tr, st'. split; [exact Hrun|].
      destruct (retryLoop_schedule u env localPath s3Key _ Hhi _ _ _ _ _
                  (Z.le_refl 0) Hrun) as (B & N & W & G).
      split; [lia|]. split; [|split].
      * intros i b ok Hi. apply N in Hi. lia.
      * intros i b Hi Hb. destruct (W _ _ Hi Hb) as [c Hc].
        exists c. split; [exact Hc|]. intros Hb33.
        apply backoff_pow2. apply N in Hi. lia.
      * exact G.
    + exists [EvKeyError e], st. split; [reflexivity|]. split; [simpl; lia|].
      split; [|split]; intros [|i]; simpl; rewrite ?lookup_nil; congruence.
  - intros H3 P0 P1 P2 C0 C1 key body Hkey Hfile.
    unfold uploadWithRetry. rewrite Hkey, H3.
    change (S (Z.to_nat (3 + 1))) with 5%nat.
    rewrite (retryLoop_retry u env localPath key _ 0 0%nat st body) by (auto; lia).
    change (wrap64 (0 + 1)) with 1.
    rewrite (retryLoop_retry u env localPath key _ 1 1%nat st body) by (auto; lia).
    change (wrap64 (1 + 1)) with 2.
    rewrite (retryLoop_success u env localPath key _ 2 2%nat st body) by (auto; lia).
    cbv zeta. destruct (deleteAfter u); [|reflexivity].
    destruct (removeOk env); reflexivity.
Qed.

Lemma uploadWithRetry_schedule_witness :
  uploadWithRetry (mkUploader "bucket" true 3) fails_twice example_path example_store
  = Some ([EvAttempt 0 false; EvBackoff 1000000000 false;
           EvAttempt 1 false; EvBackoff 2000000000 false;
           EvAttempt 2 true; EvRemove example_path true],
          mkStore (delete example_path (files example_store))
            (<["2025/12/30/twitch/ludwig/twitch_ludwig_20251230_1030.jsonl" := "{}"]> ∅)).
Proof.
  refine (proj2 (uploadWithRetry_schedule (mkUploader "bucket" true 3) fails_twice
                   example_path example_store _) _ _ _ _ _ _ _ _ _ _).
  - unfold maxInt64. simpl. lia.
  - reflexivity.
  - reflexivity.
  - reflexivity.
  - reflexivity.
  - reflexivity.
  - reflexivity.
  - reflexivity.
  - reflexivity.
Defined.

(** C3 as the specification states it fails: with [maxRetries = 35] and a
    store that never accepts, the failed attempt 34 is not the last one,
    and the duration handed to [time.After] after it is negative (the
    product [2^34 * 10^9] does not fit [int64]), not [2^34] seconds. *)
Lemma backoff_not_always_pow2 :
  exists (tr : list event) (st' : Store),
    uploadWithRetry (mkUploader "bucket" true 35) always_failing
      example_path example_store = Some (tr, st')
    /\ tr !! 68%nat = Some (EvAttempt 34 false)
    /\ 34 < maxRetries (mkUploader "bucket" true 35)
    /\ tr !! 69%nat = Some (EvBackoff (-1266874889709551616) false)
    /\ -1266874889709551616 <> 2 ^ 34 * GoTime.Second.
Proof.
  destruct (uploadWithRetry (mkUploader "bucket" true 35) always_failing
              example_path example_store) as [[tr st']|] eqn:Hrun;
    [|vm_compute in Hrun; discriminate].
  exists tr, st'. split; [reflexivity|].
  vm_compute in Hrun. injection Hrun as <- <-.
  split; [reflexivity|]. split; [reflexivity|]. split; [reflexivity|].
  vm_compute. discriminate.
Qed.

(** C4 — the local file goes away only after an upload attempt has
    succeeded and only when delete-after-upload is set: if the local
    files differ after [uploadWithRetry], or an [os.Remove] was issued,
    then the flag is set and the trace has a successful attempt; when no
    attempt succeeds — the store never accepts, all attempts are used up,
    the name has no key, or the backoff is interrupted by the
    cancellation — the local files are as they were. *)
Theorem uploadWithRetry_removes_only_delivered (u : Uploader) (env : Env)
    (localPath : string) (st : Store) (tr : list event) (st' : Store) :
  uploadWithRetry u env localPath st = Some (tr, st') ->
  (files st' <> files st ->
     deleteAfter u = true /\ exists a, In (EvAttempt a true) tr)
  /\ (forall p ok, In (EvRemove p ok) tr ->
        p = localPath /\ deleteAfter u = true /\ exists a, In (EvAttempt a true) tr)
  /\ ((forall a, ~ In (EvAttempt a true) tr) -> files st' = files st)
  /\ ((forall n, putOk env n = false) -> files st' = files st)
  /\ (last tr = Some EvGiveUp -> files st' = files st)
  /\ (is_ok (generateS3Key (GoPath.Base localPath)) = false -> files st' = files st)
  /\ ((exists d, last tr = Some (EvBackoff d true)) -> files st' = files st).
Proof.
  unfold uploadWithRetry. intros H.
  destruct (generateS3Key (GoPath.Base localPath)) as [s3Key|e].
  - apply retryLoop_outcome in H
      as [(pre & a' & m & body & Hb & Hm & Hq & Hcase)|(-> & Hq & Hl)].
    + assert (forall p ok, ~ In (EvRemove p ok) pre) as Hpre_rm.
      { intros p ok Hin. rewrite Forall_forall in Hq.
        apply list_elem_of_In, Hq in Hin. destruct Hin as [_ Hin]. discriminate. }
      cbv zeta in Hcase.
      destruct Hcase as [(Hd & -> & ->)|(Hd & -> & ->)].
      * assert (exists a, In (EvAttempt a true)
                  (pre ++ [EvAttempt a' true;
                           EvRemove localPath
                             (is_ok (os_Remove env localPath
                                (mkStore (files st) (<[s3Key:=body]> (objects st)))).1)]))
          as Hsucc.
        { exists a'. apply in_or_app. right. left. reflexivity. }
        split; [auto|]. split.
        { intros p ok Hin. apply in_app_or in Hin as [Hin|Hin].
          - now apply Hpre_rm in Hin.
          - destruct Hin as [Hin|[Hin|[]]]; [discriminate|].
            injection Hin as <- _. auto. }
        split; [intros Hno; destruct Hsucc as [a Ha]; now apply Hno in Ha|].
        split; [intros Hno; rewrite Hno in Hm; discriminate|].
        split.
        { intros Hl. rewrite last_app in Hl. simpl in Hl. discriminate. }
        split; [discriminate|].
        intros [d Hl]. rewrite last_app in Hl. simpl in Hl. discriminate.
      * assert (exists a, In (EvAttempt a true) (pre ++ [EvAttempt a' true])) as Hsucc.
        { exists a'. apply in_or_app. right. left. reflexivity. }
        split; [intros Hne; now destruct Hne|]. split.
        { intros p ok Hin. apply in_app_or in Hin as [Hin|Hin].
          - now apply Hpre_rm in Hin.
          - destruct Hin as [Hin|[]]. discriminate. }
        repeat split; reflexivity.
    + assert (forall x, In x tr -> quiet x) as Hq'.
      { intros x Hin. rewrite Forall_forall in Hq. now apply Hq, list_elem_of_In. }
      split; [intros Hne; now destruct Hne|]. split.
      { intros p ok Hin. apply Hq' in Hin as [_ Hin]. discriminate. }
      repeat split; reflexivity.
  - injection H as <- <-.
    split; [intros Hne; now destruct Hne|]. split.
    { intros p ok [Hin|[]]. discriminate. }
    repeat split; reflexivity.
Qed.

Lemma uploadWithRetry_removes_only_delivered_witness :
  example_path = example_path
  /\ deleteAfter (mkUploader "bucket" true 3) = true
  /\ exists a,
       In (EvAttempt a true)
          [EvAttempt 0 false; EvBackoff 1000000000 false;
           EvAttempt 1 false; EvBackoff 2000000000 false;
           EvAttempt 2 true; EvRemove example_path true].
Proof.
  refine (proj1 (proj2 (uploadWithRetry_removes_only_delivered
            (mkUploader "bucket" true 3) fails_twice example_path example_store
            [EvAttempt 0 false; EvBackoff 1000000000 false;
             EvAttempt 1 false; EvBackoff 2000000000 false;
             EvAttempt 2 true; EvRemove example_path true]
            (mkStore (delete example_path (files example_store))
               (<["2025/12/30/twitch/ludwig/twitch_ludwig_20251230_1030.jsonl" := "{}"]> ∅))
            _)) example_path true _).
  - vm_compute. reflexivity.
  - simpl. auto 10.
Defined.

End UploadWithRetry.

(** ** The recorder: one writer *)

Section WriterFacts.

Import GoOS Recorder.

Variable json_Marshal : Message -> result string.

Abbreviation encode := (Recorder.encode json_Marshal).
Abbreviation count := (Recorder.count json_Marshal).
Abbreviation flushFileWriter := (Recorder.flushFileWriter json_Marshal).
Abbreviation finishFile := (Recorder.finishFile json_Marshal).
Abbreviation finish_world := (Recorder.finish_world json_Marshal).

Lemma writeMessages_clean (msgs : list Message) :
  forall (buf : string) (written : Z),
    writeMessages json_Marshal msgs (GoBufio.mkWriter buf None) written
    = (None, GoBufio.mkWriter (buf +:+ encode msgs) None, count msgs written).
Proof.
  induction msgs as [|msg msgs IH]; intros buf written; simpl.
  - now rewrite string_app_nil_r.
  - unfold line. destruct (json_Marshal msg) as [data|e].
    + unfold GoBufio.Write, GoBufio.WriteByte. simpl.
      rewrite IH. now rewrite !string_app_assoc.
    + now rewrite IH.
Qed.

Lemma appended_nothing (path : string) (w : World) :
  appended path EmptyString w = w.
Proof.
  unfold appended. destruct w as [t d o n x]. simpl. f_equal.
  apply map_eq. intros p. rewrite lookup_alter.
  destruct (decide (path = p)) as [->|]; [|reflexivity].
  destruct (d !! p); simpl; [|reflexivity]. now rewrite string_app_nil_r.
Qed.

(** Flushing what is buffered into a file that is open. *)
Lemma Flush_open (buf : string) (f : File) (w : World) :
  fd f ∈ open_fds w ->
  GoBufio.Flush (GoBufio.mkWriter buf None) f w
  = (None, GoBufio.NewWriter, appended (name f) buf w).
Proof.
  intros Hopen. unfold GoBufio.Flush. simpl.
  destruct (String.eqb_spec buf EmptyString) as [->|Hne].
  - now rewrite appended_nothing.
  - unfold Write. destruct (decide (fd f ∈ open_fds w)); [reflexivity|contradiction].
Qed.

(** A flush through an open file: no error, the lines are in the file,
    the buffer of messages is empty. *)
Lemma flushFileWriter_open (fw : fileWriter) (w : World) :
  writer fw = GoBufio.NewWriter ->
  fd (file fw) ∈ open_fds w ->
  flushFileWriter fw w
  = (None,
     mkFileWriter (file fw) GoBufio.NewWriter (createdAt fw)
                  (count (messageBuffer fw) (bytesWritten fw)) []
                  (platform fw) (channel fw) (filename fw),
     appended (name (file fw)) (encode (messageBuffer fw)) w).
Proof.
  intros Hclean Hopen. unfold Recorder.flushFileWriter.
  rewrite Hclean. unfold GoBufio.NewWriter.
  rewrite writeMessages_clean, sapp_nil.
  now rewrite Flush_open.
Qed.

Lemma flushFileWriter_fields (fw : fileWriter) (w : World) :
  let fw1 := (flushFileWriter fw w).1.2 in
  file fw1 = file fw /\ platform fw1 = platform fw /\ channel fw1 = channel fw
  /\ filename fw1 = filename fw /\ createdAt fw1 = createdAt fw.
Proof.
  unfold Recorder.flushFileWriter.
  destruct (writeMessages _ _ _ _) as [[[e|] b] written]; simpl; [auto 6|].
  destruct (GoBufio.Flush b (file fw) w) as [[e b'] w']. simpl. auto 6.
Qed.

Lemma finishFile_eq (fw : fileWriter) (st : State) :
  finishFile fw st
  = mkState (recorder st) (finish_world fw (world st))
            (trySend (GoPath.Join (outputDir (recorder st)) (filename fw))
                     (fileChan st)).2.
Proof.
  unfold Recorder.finishFile, Recorder.finish_world.
  pose proof (flushFileWriter_fields fw (world st)) as Hf.
  destruct (flushFileWriter fw (world st)) as [[e fw1] w1]. simpl in Hf.
  destruct Hf as (_ & _ & _ & Hname & _).
  destruct (GoBufio.Flush (writer fw1) (file fw1) w1) as [[e2 b2] w2].
  destruct (Close (file fw1) w2) as [e3 w3].
  rewrite Hname. destruct (trySend _ _) as [sent c]. reflexivity.
Qed.

Lemma finish_world_open (fw : fileWriter) (w : World) :
  writer fw = GoBufio.NewWriter ->
  fd (file fw) ∈ open_fds w ->
  finish_world fw w
  = closed (fd (file fw)) (appended (name (file fw)) (encode (messageBuffer fw)) w).
Proof.
  intros Hclean Hopen. unfold Recorder.finish_world.
  rewrite flushFileWriter_open by assumption. simpl.
  unfold GoBufio.NewWriter, GoBufio.Flush. simpl.
  unfold Close. simpl.
  destruct (decide (fd (file fw) ∈ open_fds w)); [reflexivity|contradiction].
Qed.

(** What every run of [finishFile] keeps: the clock, the paths refused,
    the descriptor counter; no file leaves the disk and no descriptor is
    opened. *)
Lemma Write_frame (f : File) (data : string) (w : World) :
  let w' := (Write f data w).2 in
  now w' = now w /\ denied w' = denied w /\ next_fd w' = next_fd w
  /\ open_fds w' = open_fds w
  /\ (forall p, is_Some (disk w' !! p) <-> is_Some (disk w !! p)).
Proof.
  unfold Write. destruct (decide (fd f ∈ open_fds w)); simpl; [|tauto].
  split_and!; try reflexivity.
  intros p. rewrite lookup_alter. case_decide as Hp; [|tauto]. rewrite <- Hp.
  destruct (disk w !! name f); simpl; split; intros [? ?]; try discriminate; eauto.
Qed.

Lemma Flush_frame (b : GoBufio.Writer) (f : File) (w : World) :
  let w' := (GoBufio.Flush b f w).2 in
  now w' = now w /\ denied w' = denied w /\ next_fd w' = next_fd w
  /\ open_fds w' = open_fds w
  /\ (forall p, is_Some (disk w' !! p) <-> is_Some (disk w !! p)).
Proof.
  unfold GoBufio.Flush.
  destruct (GoBufio.err b); simpl; [tauto|].
  destruct (String.eqb _ _); simpl; [tauto|].
  pose proof (Write_frame f (GoBufio.buffered b) w) as H.
  destruct (Write f (GoBufio.buffered b) w) as [[n [e|]] w']; exact H.
Qed.

Lemma Close_frame (f : File) (w : World) :
  let w' := (Close f w).2 in
  now w' = now w /\ denied w' = denied w /\ next_fd w' = next_fd w
  /\ open_fds w' ⊆ open_fds w /\ disk w' = disk w.
Proof.
  unfold Close. destruct (decide (fd f ∈ open_fds w)); simpl; split_and!;
    try reflexivity; set_solver.
Qed.

Lemma finish_world_frame (fw : fileWriter) (w : World) :
  let w' := finish_world fw w in
  now w' = now w /\ denied w' = denied w /\ next_fd w' = next_fd w
  /\ open_fds w' ⊆ open_fds w
  /\ (forall p, is_Some (disk w' !! p) <-> is_Some (disk w !! p)).
Proof.
  unfold Recorder.finish_world, Recorder.flushFileWriter.
  destruct (writeMessages _ _ _ _) as [[[e|] b] written].
  - simpl.
    pose proof (Flush_frame b (file fw) w) as H2.
    destruct (GoBufio.Flush b (file fw) w) as [[e2 b2] w2]. simpl in H2.
    destruct H2 as (N & D & F & O & K).
    pose proof (Close_frame (file fw) w2) as (N3 & D3 & F3 & O3 & K3).
    simpl in *. rewrite N3, D3, F3, K3, N, D, F. rewrite <- O.
    split_and!; auto.
  - pose proof (Flush_frame b (file fw) w) as H1.
    destruct (GoBufio.Flush b (file fw) w) as [[e1 b1] w1]. simpl in H1.
    destruct H1 as (N1 & D1 & F1 & O1 & K1). simpl.
    pose proof (Flush_frame b1 (file fw) w1) as H2.
    destruct (GoBufio.Flush b1 (file fw) w1) as [[e2 b2] w2]. simpl in H2.
    destruct H2 as (N & D & F & O & K).
    pose proof (Close_frame (file fw) w2) as (N3 & D3 & F3 & O3 & K3).
    simpl in *. rewrite N3, D3, F3, K3, N, D, F, N1, D1, F1. rewrite <- O1, <- O.
    split_and!; auto. intros p. rewrite K. apply K1.
Qed.

(** [createFileWriter], by whether the path is refused. *)
Lemma createFileWriter_eq (r : Recorder) (p c : string) (w : World) :
  createFileWriter r p c w
  = if decide (segment_path r p c (now w) ∈ denied w)
    then (Err (ErrCreateFile (ErrPath "open" (segment_path r p c (now w)))), w)
    else (Ok (fresh_writer r p c w), created (segment_path r p c (now w)) w).
Proof.
  unfold createFileWriter, Create, segment_path, fresh_writer, created.
  destruct (decide (_ ∈ denied w)); reflexivity.
Qed.

(** [rotateFile], by whether the replacement can be created. *)
Lemma rotateFile_eq (key : string) (fw : fileWriter) (st : State) :
  let r := recorder st in
  let w1 := finish_world fw (world st) in
  let c1 := (trySend (GoPath.Join (outputDir r) (filename fw)) (fileChan st)).2 in
  let path := segment_path r (platform fw) (channel fw) (now (world st)) in
  Recorder.rotateFile json_Marshal key fw st
  = if decide (path ∈ denied (world st))
    then mkState (set_files r (delete key (currentFiles r))) w1 c1
    else mkState (set_files r (<[key := fresh_writer r (platform fw) (channel fw) w1]>
                                 (currentFiles r)))
                 (created path w1) c1.
Proof.
  intros r w1 c1 path. unfold Recorder.rotateFile.
  rewrite finishFile_eq. cbn [recorder world fileChan].
  rewrite createFileWriter_eq.
  destruct (finish_world_frame fw (world st)) as (N & D & _).
  fold w1 in N, D |- *. rewrite N, D. fold r. fold path.
  destruct (decide (path ∈ denied (world st))); reflexivity.
Qed.

End WriterFacts.

(** ** The recorder: rotation of one file *)

Section Rotation.

Import GoOS Recorder.

Variable json_Marshal : Message -> result string.

Abbreviation rotateFile := (Recorder.rotateFile json_Marshal).
Abbreviation recordMessage := (Recorder.recordMessage json_Marshal).
Abbreviation finish_world := (Recorder.finish_world json_Marshal).
Abbreviation line := (Recorder.line json_Marshal).



(** The calendar fields of an instant depend on its minute only. *)
Lemma UTC_minute (t1 t2 : Z) :
  t1 / GoTime.Minute = t2 / GoTime.Minute -> GoTime.UTC t1 = GoTime.UTC t2.
Proof. intros H. unfold GoTime.UTC. now rewrite H. Qed.


(** C10 — when [os.Create] refuses the replacement during a rotation,
    the key leaves the map: no writer of the map holds the descriptor of
    the file just closed.  The next message for the key finds no writer,
    and when [os.Create] now accepts, [recordMessage] creates a writer on
    a new, open descriptor and the message is taken: it is in the
    writer's buffer or, when the buffer size is reached, in its file.
    (When [os.Create] refuses again, [recordMessage] returns its error
    and changes nothing: there is still no writer to append to.) *)
Theorem rotateFile_create_refused (key : string) (fw : fileWriter) (st : State) :
  wf st ->
  currentFiles (recorder st) !! key = Some fw ->
  segment_path (recorder st) (platform fw) (channel fw) (now (world st))
    ∈ denied (world st) ->
  let st1 := rotateFile key fw st in
  currentFiles (recorder st1) !! key = None
  /\ (fd (file fw) ∉ open_fds (world st1))
  /\ (forall k fw', currentFiles (recorder st1) !! k = Some fw' ->
        fd (file fw') <> fd (file fw))
  /\ (forall (msg : Message) (d : Z) (paths : gset string),
        file_key (Platform msg) (Channel msg) = key ->
        let st2 := deny paths (elapse d st1) in
        segment_path (recorder st) (Platform msg) (Channel msg) (now (world st2))
          ∉ paths ->
        let st3 := (recordMessage msg st2).2 in
        (recordMessage msg st2).1 = None
        /\ exists fw',
             currentFiles (recorder st3) !! key = Some fw'
             /\ fd (file fw') ∈ open_fds (world st3)
             /\ fd (file fw') <> fd (file fw)
             /\ createdAt fw' = now (world st2)
             /\ ((1 < bufferSize (recorder st) /\ messageBuffer fw' = [msg])
                 \/ (bufferSize (recorder st) <= 1 /\ messageBuffer fw' = []
                     /\ disk (world st3) !! name (file fw') = Some (line msg))))
  /\ (forall (msg : Message) (d : Z) (paths : gset string),
        file_key (Platform msg) (Channel msg) = key ->
        let st2 := deny paths (elapse d st1) in
        segment_path (recorder st) (Platform msg) (Channel msg) (now (world st2))
          ∈ paths ->
        is_Some (recordMessage msg st2).1 /\ (recordMessage msg st2).2 = st2).
Proof.
  intros Hwf Hfw Hdenied st1.
  pose proof (rotateFile_eq json_Marshal key fw st) as E. cbv zeta in E.
  destruct (decide (_ ∈ denied (world st))) as [_|Hout]; [|contradiction].
  pose proof (finish_world_open json_Marshal fw (world st)
                (wf_clean st Hwf key fw Hfw) (wf_open st Hwf key fw Hfw)) as W.
  rewrite W in E.
  assert (fd (file fw) < next_fd (world st))%nat as Hlt
    by (apply (wf_bound st Hwf), (wf_open st Hwf key fw Hfw)).
  subst st1. rewrite E. cbn [recorder set_files currentFiles world].
  split; [apply lookup_delete_eq|].
  split; [cbn [closed open_fds]; set_solver|].
  split.
  { intros k fw' Hk Heq.
    rewrite lookup_delete in Hk. case_decide as Hkk; [discriminate|].
    apply Hkk. symmetry. exact (wf_fd_inj st Hwf k key fw' fw Hk Hfw Heq). }
  split; cycle 1.
  { intros msg d paths Hkey Hpath.
    unfold Recorder.recordMessage, deny, elapse in *.
    cbn [recorder world fileChan set_files currentFiles outputDir bufferSize
         closed appended now disk open_fds next_fd denied] in *.
    rewrite Hkey, lookup_delete_eq, createFileWriter_eq.
    cbn [now denied].
    unfold segment_path in *. cbn [outputDir] in *.
    destruct (decide (_ ∈ paths)) as [_|Hout]; [|contradiction].
    cbn [fst snd]. split; [eauto | reflexivity]. }
  intros msg d paths Hkey Hpath.
  unfold Recorder.recordMessage, deny, elapse in *.
  cbn [recorder world fileChan set_files currentFiles outputDir bufferSize
       closed appended now disk open_fds next_fd denied] in *.
  rewrite Hkey, lookup_delete_eq, createFileWriter_eq.
  cbn [now denied].
  unfold segment_path in *. cbn [outputDir] in *.
  destruct (decide (_ ∈ paths)) as [Hin|_]; [contradiction|].
  cbn [fresh_writer file writer createdAt bytesWritten messageBuffer platform
       channel filename app length].
  destruct (Z.leb_spec (bufferSize (recorder st)) (Z.of_nat 1)) as [Hsmall|Hbig].
  - rewrite flushFileWriter_open;
      [|reflexivity|cbn [file fd created open_fds next_fd]; set_solver].
    cbn [fst snd recorder set_files currentFiles world option_map].
    split; [reflexivity|].
    eexists. rewrite lookup_insert_eq. split; [reflexivity|].
    cbn [file fd name createdAt messageBuffer appended created open_fds next_fd
         disk now segment_path outputDir].
    split; [set_solver|]. split; [lia|]. split; [reflexivity|].
    right. split; [lia|]. split; [reflexivity|].
    rewrite lookup_alter. case_decide; [|contradiction].
    rewrite lookup_insert_eq. cbn [Recorder.encode fmap option_fmap option_map].
    now rewrite sapp_nil, string_app_nil_r.
  - cbn [fst snd recorder set_files currentFiles world].
    split; [reflexivity|].
    eexists. rewrite lookup_insert_eq. split; [reflexivity|].
    cbn [file fd name createdAt messageBuffer created open_fds next_fd].
    split; [set_solver|]. split; [lia|]. split; [reflexivity|].
    left. split; [lia | reflexivity].
Qed.

End Rotation.

(** ** The recorder: the invariant *)

Section Invariant.

Import GoOS Recorder.

Variable json_Marshal : Message -> result string.

Lemma appended_some (path data p : string) (w : World) :
  is_Some (disk (appended path data w) !! p) <-> is_Some (disk w !! p).
Proof.
  cbn [appended disk]. rewrite lookup_alter. case_decide as Hp; [|tauto].
  rewrite <- Hp.
  destruct (disk w !! path); simpl; split; intros [? ?]; try discriminate; eauto.
Qed.

(** A writer of the map is replaced by one on the same file, and
    contents change on disk. *)
Lemma wf_update (st : State) (key : string) (fw fw' : fileWriter)
    (w' : World) (c : Chan) :
  wf st ->
  currentFiles (recorder st) !! key = Some fw ->
  file fw' = file fw -> writer fw' = GoBufio.NewWriter ->
  platform fw' = platform fw -> channel fw' = channel fw ->
  filename fw' = filename fw ->
  open_fds w' = open_fds (world st) -> next_fd w' = next_fd (world st) ->
  (forall p, is_Some (disk (world st) !! p) -> is_Some (disk w' !! p)) ->
  wf (mkState (set_files (recorder st) (<[key := fw']> (currentFiles (recorder st))))
              w' c).
Proof.
  intros Hwf Hfw Hfile Hwr Hp Hc Hn Ho Hnext Hdisk.
  assert (forall k x, <[key := fw']> (currentFiles (recorder st)) !! k = Some x ->
            exists y, currentFiles (recorder st) !! k = Some y
                      /\ file x = file y /\ writer x = GoBufio.NewWriter
                      /\ platform x = platform y /\ channel x = channel y
                      /\ filename x = filename y) as Hold.
  { intros k x Hk. rewrite lookup_insert in Hk. case_decide as Hkk.
    - subst k. injection Hk as <-. exists fw. auto 10.
    - exists x. split; [exact Hk|]. split_and!; try reflexivity.
      exact (wf_clean st Hwf k x Hk). }
  constructor; cbn [recorder world set_files currentFiles outputDir].
  - intros k x Hk. destruct (Hold k x Hk) as (y & Hy & -> & _).
    rewrite Ho. exact (wf_open st Hwf k y Hy).
  - intros n. rewrite Ho, Hnext. apply (wf_bound st Hwf).
  - intros k1 k2 x1 x2 H1 H2.
    destruct (Hold k1 x1 H1) as (y1 & Hy1 & -> & _).
    destruct (Hold k2 x2 H2) as (y2 & Hy2 & -> & _).
    exact (wf_fd_inj st Hwf k1 k2 y1 y2 Hy1 Hy2).
  - intros k x Hk. now destruct (Hold k x Hk) as (y & _ & _ & -> & _).
  - intros k x Hk. destruct (Hold k x Hk) as (y & Hy & -> & _).
    apply Hdisk. exact (wf_on_disk st Hwf k y Hy).
  - intros k x Hk. destruct (Hold k x Hk) as (y & Hy & -> & _ & _ & _ & ->).
    exact (wf_path st Hwf k y Hy).
  - intros k x Hk. destruct (Hold k x Hk) as (y & Hy & _ & _ & -> & -> & _).
    exact (wf_key st Hwf k y Hy).
  - intros k x Hk. destruct (Hold k x Hk) as (y & Hy & _ & _ & -> & -> & ->).
    exact (wf_stamp st Hwf k y Hy).
Qed.

(** A writer leaves the map, its file is written to and closed. *)
Lemma wf_drop (st : State) (key : string) (fw : fileWriter) (data : string) (c : Chan) :
  wf st ->
  currentFiles (recorder st) !! key = Some fw ->
  wf (mkState (set_files (recorder st) (delete key (currentFiles (recorder st))))
              (closed (fd (file fw)) (appended (name (file fw)) data (world st))) c).
Proof.
  intros Hwf Hfw.
  assert (forall k x, delete key (currentFiles (recorder st)) !! k = Some x ->
            k <> key /\ currentFiles (recorder st) !! k = Some x) as Hold.
  { intros k x Hk. rewrite lookup_delete in Hk.
    case_decide; [discriminate|]. auto. }
  constructor;
    cbn [recorder world set_files currentFiles outputDir closed appended
         open_fds next_fd disk].
  - intros k x Hk. destruct (Hold k x Hk) as [Hne Hx].
    apply elem_of_difference. split; [exact (wf_open st Hwf k x Hx)|].
    intros Hin. apply elem_of_singleton in Hin.
    apply Hne. exact (wf_fd_inj st Hwf k key x fw Hx Hfw Hin).
  - intros n Hn. apply elem_of_difference in Hn as [Hn _].
    exact (wf_bound st Hwf n Hn).
  - intros k1 k2 x1 x2 H1 H2.
    destruct (Hold k1 x1 H1) as [_ Hx1]. destruct (Hold k2 x2 H2) as [_ Hx2].
    exact (wf_fd_inj st Hwf k1 k2 x1 x2 Hx1 Hx2).
  - intros k x Hk. destruct (Hold k x Hk) as [_ Hx]. exact (wf_clean st Hwf k x Hx).
  - intros k x Hk. destruct (Hold k x Hk) as [_ Hx].
    apply (appended_some (name (file fw)) data (name (file x)) (world st)).
    exact (wf_on_disk st Hwf k x Hx).
  - intros k x Hk. destruct (Hold k x Hk) as [_ Hx]. exact (wf_path st Hwf k x Hx).
  - intros k x Hk. destruct (Hold k x Hk) as [_ Hx]. exact (wf_key st Hwf k x Hx).
  - intros k x Hk. destruct (Hold k x Hk) as [_ Hx]. exact (wf_stamp st Hwf k x Hx).
Qed.

(** A new writer enters the map under the key of its platform and
    channel. *)
Lemma wf_install (st : State) (p c : string) (ch : Chan) :
  wf st ->
  let r := recorder st in
  wf (mkState (set_files r (<[file_key p c := fresh_writer r p c (world st)]>
                              (currentFiles r)))
              (created (segment_path r p c (now (world st))) (world st)) ch)
  \/ is_Some (currentFiles r !! file_key p c).
Proof.
  intros Hwf r.
  destruct (currentFiles r !! file_key p c) as [old|] eqn:Hnone; [right; eauto|left].
  assert (forall k x,
            <[file_key p c := fresh_writer r p c (world st)]> (currentFiles r) !! k = Some x ->
            (k = file_key p c /\ x = fresh_writer r p c (world st))
            \/ (k <> file_key p c /\ currentFiles r !! k = Some x)) as Hold.
  { intros k x Hk. rewrite lookup_insert in Hk. case_decide as Hkk.
    - left. injection Hk as <-. auto.
    - right. auto. }
  assert (forall k x, currentFiles r !! k = Some x ->
            (fd (file x) < next_fd (world st))%nat) as Hlt.
  { intros k x Hx. apply (wf_bound st Hwf), (wf_open st Hwf k x Hx). }
  constructor;
    cbn [recorder world set_files currentFiles outputDir created
         open_fds next_fd disk].
  - intros k x Hk. destruct (Hold k x Hk) as [[-> ->]|[Hne Hx]].
    + cbn [fresh_writer file fd]. set_solver.
    + apply elem_of_union_r. exact (wf_open st Hwf k x Hx).
  - intros n Hn. apply elem_of_union in Hn as [Hn|Hn].
    + apply elem_of_singleton in Hn. lia.
    + pose proof (wf_bound st Hwf n Hn). lia.
  - intros k1 k2 x1 x2 H1 H2 Hfd.
    destruct (Hold k1 x1 H1) as [[-> ->]|[Hne1 Hx1]];
      destruct (Hold k2 x2 H2) as [[-> ->]|[Hne2 Hx2]]; [reflexivity| | |].
    + cbn [fresh_writer file fd] in Hfd. pose proof (Hlt k2 x2 Hx2). lia.
    + cbn [fresh_writer file fd] in Hfd. pose proof (Hlt k1 x1 Hx1). lia.
    + exact (wf_fd_inj st Hwf k1 k2 x1 x2 Hx1 Hx2 Hfd).
  - intros k x Hk. destruct (Hold k x Hk) as [[-> ->]|[Hne Hx]];
      [reflexivity | exact (wf_clean st Hwf k x Hx)].
  - intros k x Hk. rewrite lookup_insert. case_decide; [eauto|].
    destruct (Hold k x Hk) as [[-> ->]|[Hne Hx]].
    + cbn [fresh_writer file name] in *. contradiction.
    + exact (wf_on_disk st Hwf k x Hx).
  - intros k x Hk. destruct (Hold k x Hk) as [[-> ->]|[Hne Hx]];
      [reflexivity | exact (wf_path st Hwf k x Hx)].
  - intros k x Hk. destruct (Hold k x Hk) as [[-> ->]|[Hne Hx]];
      [reflexivity | exact (wf_key st Hwf k x Hx)].
  - intros k x Hk. destruct (Hold k x Hk) as [[-> ->]|[Hne Hx]];
      [eexists; reflexivity | exact (wf_stamp st Hwf k x Hx)].
Qed.

Lemma Join_inj (dir a b : string) : GoPath.Join dir a = GoPath.Join dir b -> a = b.
Proof.
  unfold GoPath.Join. intros H. apply sapp_inj_head in H. now apply sapp_inj_head in H.
Qed.

(** The writers of the map write to files of their own. *)
Lemma wf_name_inj (st : State) (k1 k2 : string) (x1 x2 : fileWriter) :
  wf st ->
  currentFiles (recorder st) !! k1 = Some x1 ->
  currentFiles (recorder st) !! k2 = Some x2 ->
  name (file x1) = name (file x2) -> k1 = k2.
Proof.
  intros Hwf H1 H2 Hname.
  rewrite (wf_path st Hwf k1 x1 H1), (wf_path st Hwf k2 x2 H2) in Hname.
  apply Join_inj in Hname.
  destruct (wf_stamp st Hwf k1 x1 H1) as [t1 E1].
  destruct (wf_stamp st Hwf k2 x2 H2) as [t2 E2].
  rewrite E1, E2 in Hname. apply segment_name_key_inj in Hname.
  now rewrite (wf_key st Hwf k1 x1 H1), (wf_key st Hwf k2 x2 H2).
Qed.

Lemma state_eta (st : State) : mkState (recorder st) (world st) (fileChan st) = st.
Proof. now destruct st. Qed.

Lemma wf_rotateFile (key : string) (fw : fileWriter) (st : State) :
  wf st -> currentFiles (recorder st) !! key = Some fw ->
  wf (Recorder.rotateFile json_Marshal key fw st).
Proof.
  intros Hwf Hfw.
  pose proof (rotateFile_eq json_Marshal key fw st) as E. cbv zeta in E.
  rewrite (finish_world_open json_Marshal fw (world st)
             (wf_clean st Hwf key fw Hfw) (wf_open st Hwf key fw Hfw)) in E.
  rewrite E. clear E.
  set (c1 := (trySend _ _).2).
  pose proof (wf_drop st key fw
                (Recorder.encode json_Marshal (messageBuffer fw)) c1 Hwf Hfw) as Hd.
  destruct (decide (_ ∈ denied (world st))); [exact Hd|].
  pose proof (wf_install _ (platform fw) (channel fw) c1 Hd) as Hi.
  cbv zeta in Hi. cbn [recorder world set_files currentFiles outputDir] in Hi.
  rewrite <- (wf_key st Hwf key fw Hfw) in Hi.
  rewrite lookup_delete_eq, insert_delete_eq in Hi.
  destruct Hi as [Hi|[? Hi]]; [exact Hi | discriminate].
Qed.

Lemma wf_checkOne (st : State) (key : string) :
  wf st -> wf (Recorder.checkOne json_Marshal st key).
Proof.
  intros Hwf. unfold Recorder.checkOne.
  destruct (currentFiles (recorder st) !! key) as [fw|] eqn:Hfw; [|exact Hwf].
  destruct (needsRotation _ _ _); [|exact Hwf].
  now apply wf_rotateFile.
Qed.

(** [flushOne] on a key of the map. *)
Lemma flushOne_eq (st : State) (key : string) (fw : fileWriter) :
  wf st -> currentFiles (recorder st) !! key = Some fw ->
  Recorder.flushOne json_Marshal st key
  = mkState (set_files (recorder st) (delete key (currentFiles (recorder st))))
            (closed (fd (file fw))
               (appended (name (file fw))
                  (Recorder.encode json_Marshal (messageBuffer fw)) (world st)))
            (trySend (GoPath.Join (outputDir (recorder st)) (filename fw))
                     (fileChan st)).2.
Proof.
  intros Hwf Hfw. unfold Recorder.flushOne. rewrite Hfw, finishFile_eq.
  cbn [recorder world fileChan].
  now rewrite (finish_world_open json_Marshal fw (world st)
                 (wf_clean st Hwf key fw Hfw) (wf_open st Hwf key fw Hfw)).
Qed.

Lemma wf_flushOne (st : State) (key : string) :
  wf st -> wf (Recorder.flushOne json_Marshal st key).
Proof.
  intros Hwf.
  destruct (currentFiles (recorder st) !! key) as [fw|] eqn:Hfw.
  - rewrite (flushOne_eq st key fw Hwf Hfw). now apply wf_drop.
  - unfold Recorder.flushOne. now rewrite Hfw.
Qed.

Lemma wf_fold (step : State -> string -> State) (keys : list string) :
  (forall st key, wf st -> wf (step st key)) ->
  forall st, wf st -> wf (fold_left step keys st).
Proof.
  intros Hstep. induction keys as [|key keys IH]; intros st Hwf; simpl; auto.
Qed.

Lemma wf_checkRotation_in (keys : list string) (st : State) :
  wf st -> wf (Recorder.checkRotation_in json_Marshal keys st).
Proof. apply wf_fold. intros. now apply wf_checkOne. Qed.

Lemma wf_flushAll_in (keys : list string) (st : State) :
  wf st -> wf (Recorder.flushAll_in json_Marshal keys st).
Proof. apply wf_fold. intros. now apply wf_flushOne. Qed.

(** A message buffered in, or flushed through, a writer of the map. *)
Lemma wf_buffered (st : State) (key : string) (fw : fileWriter) (msg : Message) (c : Chan) :
  wf st -> currentFiles (recorder st) !! key = Some fw ->
  let r := recorder st in
  let fw1 := mkFileWriter (file fw) (writer fw) (createdAt fw) (bytesWritten fw)
               (messageBuffer fw ++ [msg]) (platform fw) (channel fw) (filename fw) in
  wf (if bufferSize r <=? Z.of_nat (length (messageBuffer fw1))
      then let '(e, fw2, w2) := Recorder.flushFileWriter json_Marshal fw1 (world st) in
           mkState (set_files r (<[key := fw2]> (currentFiles r))) w2 c
      else mkState (set_files r (<[key := fw1]> (currentFiles r))) (world st) c).
Proof.
  intros Hwf Hfw r fw1.
  pose proof (wf_clean st Hwf key fw Hfw) as Hclean.
  pose proof (wf_open st Hwf key fw Hfw) as Hopen.
  destruct (bufferSize r <=? _).
  - rewrite (flushFileWriter_open json_Marshal fw1 (world st) Hclean Hopen).
    apply (wf_update st key fw); auto.
    intros p Hp. now apply appended_some.
  - apply (wf_update st key fw); auto.
Qed.

Lemma wf_recordMessage (msg : Message) (st : State) :
  wf st -> wf (Recorder.recordMessage json_Marshal msg st).2.
Proof.
  intros Hwf. unfold Recorder.recordMessage.
  set (key := file_key (Platform msg) (Channel msg)).
  destruct (currentFiles (recorder st) !! key) as [fw|] eqn:Hfw.
  - pose proof (wf_buffered st key fw msg (fileChan st) Hwf Hfw) as Hb.
    cbv zeta in Hb.
    destruct (bufferSize (recorder st) <=? _); [|exact Hb].
    destruct (Recorder.flushFileWriter _ _ _) as [[e fw2] w2]. exact Hb.
  - rewrite createFileWriter_eq.
    destruct (decide (_ ∈ denied (world st))).
    + cbn [snd]. now rewrite state_eta.
    + pose proof (wf_install st (Platform msg) (Channel msg) (fileChan st) Hwf) as Hi.
      cbv zeta in Hi. fold key in Hi.
      destruct Hi as [Hi|[? Hi]]; [|rewrite Hfw in Hi; discriminate].
      pose proof (wf_buffered _ key _ msg (fileChan st) Hi
                    (lookup_insert_eq _ _ _)) as Hb.
      cbv zeta in Hb. unfold set_files in Hb |- *.
      cbn [recorder world currentFiles bufferSize outputDir rotateMinutes
           rotateMegabytes fresh_writer file writer createdAt bytesWritten
           messageBuffer platform channel filename] in Hb |- *.
      destruct (bufferSize (recorder st) <=? _).
      * destruct (Recorder.flushFileWriter _ _ _) as [[e fw2] w2].
        now rewrite insert_insert_eq in Hb.
      * now rewrite insert_insert_eq in Hb.
Qed.

(** A recorder with no writer yet, on a machine whose open descriptors
    were handed out earlier. *)
Lemma wf_no_writer (r : Recorder) (w : World) (c : Chan) :
  currentFiles r = ∅ ->
  (forall n, n ∈ open_fds w -> (n < next_fd w)%nat) ->
  wf (mkState r w c).
Proof.
  intros Hnone Hbound.
  constructor; cbn [recorder world]; try rewrite Hnone;
    intros *; rewrite ?lookup_empty; try discriminate. apply Hbound.
Qed.

Lemma wf_initial (dir : string) (bufferSize rotateMinutes rotateMegabytes start : Z)
    (queue : nat) :
  wf (initial dir bufferSize rotateMinutes rotateMegabytes start queue).
Proof.
  apply wf_no_writer; [reflexivity|]. intros n Hn.
  cbn [open_fds] in Hn. now apply not_elem_of_empty in Hn.
Qed.

(** The invariant holds all along the loop of [Start]. *)
Lemma wf_Start (steps : list step) :
  forall st, wf st -> wf (Recorder.Start json_Marshal steps st).2.
Proof.
  induction steps as [|s steps IH]; intros st Hwf; [exact Hwf|].
  destruct s; cbn [Recorder.Start].
  - apply IH. now apply wf_recordMessage.
  - apply IH. now apply wf_checkRotation_in.
  - cbn [snd]. now apply wf_flushAll_in.
  - apply IH. destruct Hwf. constructor; assumption.
  - apply IH. destruct Hwf. constructor; assumption.
  - apply IH. destruct Hwf. constructor; assumption.
Qed.

End Invariant.

(** ** The recorder: the rotation check *)

Section CheckRotation.

Import GoOS Recorder.

Variable json_Marshal : Message -> result string.

Abbreviation checkOne := (Recorder.checkOne json_Marshal).
Abbreviation checkRotation_in := (Recorder.checkRotation_in json_Marshal).

(** What one iteration keeps, whatever it does. *)
Lemma checkOne_frame (st : State) (k : string) :
  let st' := checkOne st k in
  outputDir (recorder st') = outputDir (recorder st)
  /\ rotateMinutes (recorder st') = rotateMinutes (recorder st)
  /\ rotateMegabytes (recorder st') = rotateMegabytes (recorder st)
  /\ now (world st') = now (world st)
  /\ denied (world st') = denied (world st)
  /\ (next_fd (world st) <= next_fd (world st'))%nat
  /\ (forall n, n ∈ open_fds (world st') ->
        n ∈ open_fds (world st) \/ n = next_fd (world st)).
Proof.
  unfold Recorder.checkOne.
  destruct (currentFiles (recorder st) !! k) as [x|]; [|cbv zeta; auto 10].
  destruct (needsRotation _ _ _); [|cbv zeta; auto 10].
  pose proof (rotateFile_eq json_Marshal k x st) as E. cbv zeta in E.
  destruct (finish_world_frame json_Marshal x (world st)) as (N & D & F & O & _).
  cbv zeta in *. rewrite E.
  destruct (decide (_ ∈ denied (world st)));
    cbn [recorder world set_files outputDir rotateMinutes rotateMegabytes
         created now denied next_fd open_fds].
  - rewrite N, D, F. split_and!; auto.
    all: intros m Hm; left; now apply O.
  - rewrite N, D, F. split_and!; auto.
    all: intros m Hm; apply elem_of_union in Hm as [Hm|Hm];
      [right; now apply elem_of_singleton in Hm | left; now apply O].
Qed.











End CheckRotation.

(** ** The recorder: the shutdown flush *)

Section FlushAll.

Import GoOS Recorder.

Variable json_Marshal : Message -> result string.

Abbreviation flushOne := (Recorder.flushOne json_Marshal).
Abbreviation flushAll_in := (Recorder.flushAll_in json_Marshal).
Abbreviation encode := (Recorder.encode json_Marshal).

Lemma flushOne_files (st : State) (k key : string) :
  currentFiles (recorder (flushOne st k)) !! key
  = if decide (key = k) then None else currentFiles (recorder st) !! key.
Proof.
  unfold Recorder.flushOne.
  destruct (currentFiles (recorder st) !! k) as [x|] eqn:Hx.
  - rewrite finishFile_eq. cbn [recorder set_files currentFiles].
    rewrite lookup_delete. destruct (decide (k = key)), (decide (key = k));
      congruence.
  - destruct (decide (key = k)); congruence.
Qed.

Lemma flushOne_open (st : State) (k : string) :
  open_fds (world (flushOne st k)) ⊆ open_fds (world st).
Proof.
  unfold Recorder.flushOne.
  destruct (currentFiles (recorder st) !! k) as [x|]; [|reflexivity].
  rewrite finishFile_eq. cbn [world].
  now destruct (finish_world_frame json_Marshal x (world st)) as (_ & _ & _ & O & _).
Qed.

Lemma flushOne_disk_other (st : State) (k p : string) :
  wf st ->
  (forall x, currentFiles (recorder st) !! k = Some x -> name (file x) <> p) ->
  disk (world (flushOne st k)) !! p = disk (world st) !! p.
Proof.
  intros Hwf Hp.
  destruct (currentFiles (recorder st) !! k) as [x|] eqn:Hx.
  - rewrite (flushOne_eq json_Marshal st k x Hwf Hx).
    cbn [world closed appended disk]. apply lookup_alter_ne. now apply Hp.
  - unfold Recorder.flushOne. now rewrite Hx.
Qed.

Lemma flushAll_in_files (keys : list string) (key : string) :
  forall st : State,
    currentFiles (recorder (flushAll_in keys st)) !! key
    = if decide (key ∈ keys) then None else currentFiles (recorder st) !! key.
Proof.
  induction keys as [|k keys IH]; intros st.
  - destruct (decide (key ∈ [])) as [Hin|_]; [|reflexivity].
    now apply not_elem_of_nil in Hin.
  - unfold Recorder.flushAll_in in *. cbn [fold_left]. rewrite IH, flushOne_files.
    destruct (decide (key ∈ keys)), (decide (key = k)), (decide (key ∈ k :: keys));
      try reflexivity; exfalso; set_solver.
Qed.

Lemma flushAll_in_open (keys : list string) :
  forall st : State, open_fds (world (flushAll_in keys st)) ⊆ open_fds (world st).
Proof.
  induction keys as [|k keys IH]; intros st; [reflexivity|].
  unfold Recorder.flushAll_in in *. cbn [fold_left].
  etransitivity; [apply IH | apply flushOne_open].
Qed.

Lemma flushAll_in_disk_other (keys : list string) (p : string) :
  forall st : State,
    wf st ->
    (forall k x, k ∈ keys -> currentFiles (recorder st) !! k = Some x ->
                 name (file x) <> p) ->
    disk (world (flushAll_in keys st)) !! p = disk (world st) !! p.
Proof.
  induction keys as [|k keys IH]; intros st Hwf Hp; [reflexivity|].
  unfold Recorder.flushAll_in in *. cbn [fold_left]. rewrite IH.
  - apply flushOne_disk_other; [exact Hwf|].
    intros x Hx. apply (Hp k x); [apply list_elem_of_here | exact Hx].
  - now apply wf_flushOne.
  - intros k' x Hk' Hx. rewrite flushOne_files in Hx.
    destruct (decide (k' = k)); [discriminate|].
    apply (Hp k' x); [now apply list_elem_of_further | exact Hx].
Qed.

(** The order [flushAll] ranges in names every key of the map once. *)
Lemma range_keys_NoDup (st : State) : NoDup (range_keys st).
Proof. apply NoDup_fst_map_to_list. Qed.

Lemma range_keys_all (st : State) (k : string) :
  is_Some (currentFiles (recorder st) !! k) -> k ∈ range_keys st.
Proof.
  intros [x Hx]. unfold range_keys. apply list_elem_of_fmap.
  exists (k, x). split; [reflexivity|]. now apply elem_of_map_to_list.
Qed.

(** C8 — when the shutdown flush returns (the writers ranged over in any
    order that names every key of the map once), the map of writers is
    empty, and every writer that was in it has its file closed and its
    pending messages written after what the file held: each message
    that was buffered is in the file, one line each, whatever became of
    the send to the delivery queue. *)
Theorem flushAll_flushes_every_writer (keys : list string) (st : State) :
  wf st -> NoDup keys ->
  (forall k, is_Some (currentFiles (recorder st) !! k) -> k ∈ keys) ->
  let st' := flushAll_in keys st in
  currentFiles (recorder st') = ∅
  /\ (forall key fw,
        currentFiles (recorder st) !! key = Some fw ->
        (fd (file fw) ∉ open_fds (world st'))
        /\ exists old,
             disk (world st) !! name (file fw) = Some old
             /\ disk (world st') !! name (file fw)
                = Some (old +:+ encode (messageBuffer fw))).
Proof.
  intros Hwf Hnodup Hall st'. split.
  - apply map_eq. intros k. subst st'. rewrite flushAll_in_files, lookup_empty.
    destruct (decide (k ∈ keys)) as [_|Hnot]; [reflexivity|].
    destruct (currentFiles (recorder st) !! k) eqn:Hk; [|reflexivity].
    exfalso. apply Hnot, Hall. rewrite Hk. eauto.
  - intros key fw Hfw.
    assert (key ∈ keys) as Hin by (apply Hall; rewrite Hfw; eauto).
    apply list_elem_of_split in Hin as (l1 & l2 & ->).
    apply NoDup_app in Hnodup as (_ & Hl1 & Hnodup).
    apply NoDup_cons in Hnodup as [Hl2 _].
    assert (key ∉ l1) as Hnot1.
    { intros Hk. apply (Hl1 key Hk). apply list_elem_of_here. }
    set (sa := flushAll_in l1 st).
    assert (st' = flushAll_in l2 (flushOne sa key)) as ->.
    { subst st' sa. unfold Recorder.flushAll_in. now rewrite fold_left_app. }
    assert (wf sa) as Hwfa by now apply wf_flushAll_in.
    assert (forall k x, currentFiles (recorder sa) !! k = Some x ->
              currentFiles (recorder st) !! k = Some x) as Hsub.
    { intros k x. subst sa. rewrite flushAll_in_files.
      destruct (decide (k ∈ l1)); [discriminate | auto]. }
    assert (currentFiles (recorder sa) !! key = Some fw) as Hfwa.
    { subst sa. rewrite flushAll_in_files.
      destruct (decide (key ∈ l1)); [contradiction | exact Hfw]. }
    assert (forall k x, k <> key -> currentFiles (recorder st) !! k = Some x ->
              name (file x) <> name (file fw)) as Hnames.
    { intros k x Hne Hx Heq. apply Hne.
      exact (wf_name_inj st k key x fw Hwf Hx Hfw Heq). }
    destruct (wf_on_disk st Hwf key fw Hfw) as [old Hold].
    assert (disk (world sa) !! name (file fw) = Some old) as Holda.
    { subst sa. rewrite flushAll_in_disk_other; [exact Hold | exact Hwf |].
      intros k x Hk Hx. apply (Hnames k x); [|exact Hx].
      intros ->. contradiction. }
    set (sb := flushOne sa key).
    assert (sb = mkState (set_files (recorder sa) (delete key (currentFiles (recorder sa))))
                   (closed (fd (file fw))
                      (appended (name (file fw)) (encode (messageBuffer fw)) (world sa)))
                   (trySend (GoPath.Join (outputDir (recorder sa)) (filename fw))
                            (fileChan sa)).2) as Esb
      by (subst sb; now apply flushOne_eq).
    split.
    + intros Hopen. apply flushAll_in_open in Hopen.
      rewrite Esb in Hopen. cbn [world closed open_fds] in Hopen. set_solver.
    + exists old. split; [exact Hold|].
      rewrite flushAll_in_disk_other.
      * rewrite Esb. cbn [world closed appended disk].
        rewrite lookup_alter_eq, Holda. reflexivity.
      * subst sb. now apply wf_flushOne.
      * intros k x Hk Hx. subst sb. rewrite flushOne_files in Hx.
        destruct (decide (k = key)) as [|Hne]; [discriminate|].
        apply (Hnames k x Hne). now apply Hsub.
Qed.

End FlushAll.

(** ** Runs of the recorder *)

Section Runs.

Import GoOS Recorder Examples.

(** C1 at a run the code can take — a busy channel, the default buffer
    of 100 messages and a rotation size of 1 MiB: the recorder starts at
    10:29:50, 9000 messages (1 188 000 bytes) arrive at 10:30:00, the
    first tick of the rotation timer comes at 10:30:50, one more message
    arrives and the recorder is shut down.  The tick rotates the file by
    its size; the replacement gets the name of the file just closed, and
    [os.Create] truncates it.  When [Start] has returned, the one
    segment file on disk holds the last message only: the 9000 before it
    are in no file. *)
Theorem same_minute_rotation_loses_messages :
  let final := Start marshal_plain busy_minute
                 (initial "data" 100 60 1 t_start 100) in
  final.1 = true
  /\ disk (world final.2)
     = {[ "data/twitch_ludwig_20251230_1030.jsonl" := line marshal_plain gg ]}
  /\ currentFiles (recorder final.2) = ∅
  /\ queued (fileChan final.2)
     = ["data/twitch_ludwig_20251230_1030.jsonl";
        "data/twitch_ludwig_20251230_1030.jsonl"]
  /\ Z.of_nat (length (received busy_minute)) = 9001
  /\ encode marshal_plain (received busy_minute) <> line marshal_plain gg.
Proof.
  assert (Start marshal_plain busy_minute (initial "data" 100 60 1 t_start 100)
          = (true,
             mkState (mkRecorder "data" 100 60 1048576 ∅)
               (mkWorld (t_start + 60 * GoTime.Second)
                  {[ "data/twitch_ludwig_20251230_1030.jsonl"
                     := line marshal_plain gg ]}
                  ∅ 5 ∅)
               (mkChan ["data/twitch_ludwig_20251230_1030.jsonl";
                        "data/twitch_ludwig_20251230_1030.jsonl"] 100))) as E.
  { vm_cast_no_check
      (eq_refl (Start marshal_plain busy_minute
                  (initial "data" 100 60 1 t_start 100))). }
  cbv zeta. rewrite E. cbn [fst snd world recorder fileChan disk currentFiles queued].
  split_and!; [reflexivity | reflexivity | reflexivity | reflexivity | |].
  - vm_cast_no_check (eq_refl 9001).
  - assert (exists rest, received busy_minute = hello :: rest) as [rest ->]
      by (eexists; reflexivity).
    cbn [encode]. intros H.
    assert (String.get 40 (line marshal_plain hello +:+ encode marshal_plain rest)
            = String.get 40 (line marshal_plain gg)) as H40 by now rewrite H.
    rewrite get_app_l in H40 by (vm_compute; lia).
    vm_compute in H40. discriminate.
Qed.

Lemma one_writer_wf : wf one_writer.
Proof. apply wf_Start, wf_initial. Qed.

Lemma one_writer_lookup :
  currentFiles (recorder one_writer) !! "twitch_ludwig" = Some hello_writer.
Proof. vm_compute. reflexivity. Qed.


Lemma one_writer_denied_wf : wf one_writer_denied.
Proof. apply wf_Start, wf_initial. Qed.

Lemma one_writer_denied_lookup :
  currentFiles (recorder one_writer_denied) !! "twitch_ludwig" = Some hello_writer.
Proof. vm_compute. reflexivity. Qed.



Lemma flushAll_flushes_every_writer_witness :
  (3%nat ∉ open_fds (world (flushAll_in marshal_plain (range_keys one_writer)
                              one_writer)))
  /\ exists old,
       disk (world one_writer) !! "data/twitch_ludwig_20251230_1030.jsonl" = Some old
       /\ disk (world (flushAll_in marshal_plain (range_keys one_writer) one_writer))
            !! "data/twitch_ludwig_20251230_1030.jsonl"
          = Some (old +:+ encode marshal_plain [hello]).
Proof.
  exact (proj2 (flushAll_flushes_every_writer marshal_plain (range_keys one_writer)
                  one_writer one_writer_wf (range_keys_NoDup one_writer)
                  (range_keys_all one_writer))
           "twitch_ludwig" hello_writer one_writer_lookup).
Defined.


Lemma rotateFile_create_refused_witness :
  currentFiles (recorder (rotateFile marshal_plain "twitch_ludwig" hello_writer
                            one_writer_denied)) !! "twitch_ludwig" = None.
Proof.
  refine (proj1 (rotateFile_create_refused marshal_plain "twitch_ludwig" hello_writer
                   one_writer_denied one_writer_denied_wf
                   one_writer_denied_lookup _)).
  vm_compute. reflexivity.
Defined.

End Runs.

(** * More of the code *)

(** ** Strings, paths and dates, both ways *)

Section SplitJoin.
Import GoStrings.

Lemma Split_nonempty (s : string) (sep : ascii) : Split s sep <> [].
Proof.
  destruct s as [|c s]; cbn [Split]; [discriminate|].
  destruct (Ascii.eqb c sep); [discriminate|].
  destruct (Split s sep); discriminate.
Qed.

Lemma Split_no_sep (s : string) (sep : ascii) :
  contains_byte sep s = false -> Split s sep = [s].
Proof.
  induction s as [|c s IH]; [reflexivity|].
  cbn [contains_byte Split]. intros H. apply orb_false_iff in H as [Hc Hs].
  rewrite Hc, (IH Hs). reflexivity.
Qed.

(** The fields of two strings joined by the separator are the fields of
    the one followed by the fields of the other. *)
Lemma Split_app (a b : string) (sep : ascii) :
  Split (a +:+ String sep b) sep = Split a sep ++ Split b sep.
Proof.
  induction a as [|c a IH].
  - rewrite sapp_nil. cbn [Split]. now rewrite Ascii.eqb_refl.
  - rewrite sapp_cons. cbn [Split]. rewrite IH.
    destruct (Ascii.eqb c sep); [reflexivity|].
    pose proof (Split_nonempty a sep) as Hne.
    destruct (Split a sep) as [|f fs]; [congruence|reflexivity].
Qed.

Lemma Join_cons_byte (c : ascii) (f : string) (fs : list string) (sep : string) :
  Join (String c f :: fs) sep = String c (Join (f :: fs) sep).
Proof. destruct fs; cbn [Join]; [reflexivity|]. now rewrite sapp_cons. Qed.

(** Joining the fields of a string with the separator gives it back. *)
Lemma Join_Split (s : string) (sep : ascii) :
  Join (Split s sep) (String sep EmptyString) = s.
Proof.
  induction s as [|c s IH]; [reflexivity|].
  cbn [Split]. pose proof (Split_nonempty s sep) as Hne.
  destruct (Ascii.eqb_spec c sep) as [->|_].
  - destruct (Split s sep) as [|f fs]; [congruence|].
    change (Join (EmptyString :: f :: fs) (String sep EmptyString))
      with (EmptyString +:+ String sep EmptyString
            +:+ Join (f :: fs) (String sep EmptyString)).
    rewrite IH. rewrite sapp_nil, sapp_cons, sapp_nil. reflexivity.
  - destruct (Split s sep) as [|f fs]; [congruence|].
    rewrite Join_cons_byte, IH. reflexivity.
Qed.

Lemma substring_app_l (a b : string) :
  substring 0 (String.length a) (a +:+ b) = a.
Proof.
  induction a as [|c a IH].
  - rewrite sapp_nil. destruct b; reflexivity.
  - rewrite sapp_cons. cbn [String.length substring]. now rewrite IH.
Qed.

Lemma substring_app_r (a b : string) :
  substring (String.length a) (String.length b) (a +:+ b) = b.
Proof.
  induction a as [|c a IH].
  - rewrite sapp_nil. apply substring_all.
  - rewrite sapp_cons. cbn [String.length substring]. exact IH.
Qed.

Lemma HasSuffix_app (a suffix : string) : HasSuffix (a +:+ suffix) suffix = true.
Proof.
  unfold HasSuffix. rewrite string_app_length.
  replace (String.length a + String.length suffix - String.length suffix)%nat
    with (String.length a) by lia.
  rewrite substring_app_r, String.eqb_refl.
  apply andb_true_iff. split; [apply Nat.leb_le; lia | reflexivity].
Qed.

Lemma TrimSuffix_app (a suffix : string) : TrimSuffix (a +:+ suffix) suffix = a.
Proof.
  unfold TrimSuffix. rewrite HasSuffix_app, string_app_length.
  replace (String.length a + String.length suffix - String.length suffix)%nat
    with (String.length a) by lia.
  apply substring_app_l.
Qed.

End SplitJoin.

Section BaseJoin.
Import GoStrings GoPath.

Lemma list_ascii_app (a b : string) :
  list_ascii_of_string (a +:+ b) = list_ascii_of_string a ++ list_ascii_of_string b.
Proof.
  induction a as [|c a IH]; [now rewrite sapp_nil|].
  rewrite sapp_cons. cbn [list_ascii_of_string app]. now rewrite IH.
Qed.

Lemma contains_byte_list (c : ascii) (s : string) :
  contains_byte c s = false <->
  Forall (fun x => Ascii.eqb x c = false) (list_ascii_of_string s).
Proof.
  induction s as [|a s IH]; cbn [contains_byte list_ascii_of_string].
  - split; [constructor|reflexivity].
  - rewrite orb_false_iff, Forall_cons, IH. reflexivity.
Qed.

Lemma last_element_rev_app (l rest : list ascii) :
  Forall (fun x => Ascii.eqb x "/"%char = false) l ->
  last_element_rev (l ++ "/"%char :: rest) = l.
Proof.
  induction 1 as [|x l Hx _ IH]; [reflexivity|].
  cbn [app last_element_rev]. rewrite Hx, IH. reflexivity.
Qed.

(** The base of a path made of a directory and a file name is the file
    name. *)
Lemma Base_Join (dir name : string) :
  name <> EmptyString -> contains_byte "/"%char name = false ->
  Base (Join dir name) = name.
Proof.
  intros Hne Hslash. unfold Base, Join.
  destruct (String.eqb_spec (dir +:+ "/" +:+ name) EmptyString) as [E|_].
  { apply (f_equal String.length) in E. rewrite !string_app_length in E.
    cbn in E. lia. }
  rewrite !list_ascii_app, !rev_app_distr.
  apply contains_byte_list in Hslash.
  assert (Forall (fun x => Ascii.eqb x "/"%char = false)
            (rev (list_ascii_of_string name))) as Hrev.
  { now apply List.Forall_rev. }
  assert (strip_trailing_slashes_rev
            ((rev (list_ascii_of_string name) ++ rev (list_ascii_of_string "/"))
             ++ rev (list_ascii_of_string dir))
          = rev (list_ascii_of_string name) ++ "/"%char :: rev (list_ascii_of_string dir))
    as ->.
  { rewrite <- app_assoc. cbn [list_ascii_of_string rev app].
    destruct (rev (list_ascii_of_string name)) as [|x l] eqn:E.
    - apply (f_equal (@rev _)) in E. rewrite rev_involutive in E.
      destruct name; [congruence|discriminate].
    - cbn [app strip_trailing_slashes_rev].
      apply Forall_cons in Hrev as [Hx _]. now rewrite Hx. }
  rewrite last_element_rev_app by exact Hrev.
  rewrite rev_involutive, string_of_list_ascii_of_string.
  destruct (String.eqb_spec name EmptyString); [congruence|reflexivity].
Qed.

End BaseJoin.

Section ParseFormat.
Import GoStrings GoTime GoFmt.

Lemma getyear_chars (c0 c1 c2 c3 : ascii) (rest : string) :
  digitb c0 = true -> digitb c1 = true -> digitb c2 = true -> digitb c3 = true ->
  getyear (String c0 (String c1 (String c2 (String c3 rest))))
  = Some (digit_of c0 * 1000 + digit_of c1 * 100 + digit_of c2 * 10 + digit_of c3, rest).
Proof.
  intros D0 D1 D2 D3. unfold getyear, isDigit, digit_val.
  cbn [String.length String.get Nat.ltb Nat.leb orb negb].
  rewrite D0, D1, D2, D3. cbn [negb andb orb].
  rewrite !drop_bytes_S, drop_bytes_0. reflexivity.
Qed.

Lemma getnum_chars (c0 c1 : ascii) (rest : string) (fixed : bool) :
  digitb c0 = true -> digitb c1 = true ->
  getnum (String c0 (String c1 rest)) fixed
  = Some (digit_of c0 * 10 + digit_of c1, rest).
Proof.
  intros D0 D1. unfold getnum, isDigit, digit_val. cbn [String.get].
  rewrite D0, D1. cbn [negb]. rewrite !drop_bytes_S, drop_bytes_0. reflexivity.
Qed.

(** Twelve digits with an underscore after the eighth are read back as
    the numbers they spell, when these make a date and a time of day. *)
Lemma Parse_chars (y0 y1 y2 y3 m0 m1 d0 d1 h0 h1 n0 n1 : ascii) :
  forallb digitb [y0; y1; y2; y3; m0; m1; d0; d1; h0; h1; n0; n1] = true ->
  let year := digit_of y0 * 1000 + digit_of y1 * 100 + digit_of y2 * 10 + digit_of y3 in
  let month := digit_of m0 * 10 + digit_of m1 in
  let day := digit_of d0 * 10 + digit_of d1 in
  let hour := digit_of h0 * 10 + digit_of h1 in
  let min := digit_of n0 * 10 + digit_of n1 in
  1 <= month <= 12 -> 1 <= day <= daysIn month year -> hour < 24 -> min < 60 ->
  Parse (String y0 (String y1 (String y2 (String y3 (String m0 (String m1
          (String d0 (String d1 (String "_"%char (String h0 (String h1
            (String n0 (String n1 EmptyString)))))))))))))
  = Some (mkTime year month day hour min).
Proof.
  intros D. cbn [forallb] in D. rewrite !andb_true_iff in D.
  destruct D as (Y0 & Y1 & Y2 & Y3 & M0 & M1 & D0 & D1 & H0 & H1 & N0 & N1 & _).
  intros year month day hour min Hmonth Hday Hhour Hmin.
  pose proof (digitb_range _ H0) as [? _]. pose proof (digitb_range _ H1) as [? _].
  pose proof (digitb_range _ N0) as [? _]. pose proof (digitb_range _ N1) as [? _].
  unfold Parse.
  rewrite getyear_chars by assumption.
  rewrite getnum_chars by assumption. fold month.
  destruct (Z.leb_spec month 0); [lia|]. destruct (Z.ltb_spec 12 month); [lia|].
  cbn [orb]. rewrite getnum_chars by assumption. fold day.
  cbn [skip]. rewrite Ascii.eqb_refl.
  rewrite getnum_chars by assumption. fold hour.
  destruct (Z.ltb_spec hour 0); [lia|]. destruct (Z.leb_spec 24 hour); [lia|].
  cbn [orb]. rewrite getnum_chars by assumption. fold min.
  destruct (Z.ltb_spec min 0); [lia|]. destruct (Z.leb_spec 60 min); [lia|].
  cbn [orb String.length Nat.eqb negb]. fold year.
  destruct (Z.ltb_spec day 1); [lia|].
  destruct (Z.ltb_spec (daysIn month year) day); [lia|]. reflexivity.
Qed.

Lemma digit_char_digit (d : Z) :
  0 <= d <= 9 -> digitb (digit_char d) = true /\ digit_of (digit_char d) = d.
Proof.
  intros H. apply digits10_spec in H. unfold digits10 in H. cbn [In] in H.
  repeat (destruct H as [<-|H]; [split; reflexivity|]). destruct H.
Qed.

Lemma pad0_2_eq (x : Z) :
  0 <= x <= 99 ->
  pad0 2 x = String (digit_char (x / 10)) (String (digit_char (x mod 10)) EmptyString).
Proof.
  intros H.
  assert (0 <= x / 10 <= 9) as H0.
  { split; [apply Z.div_pos; lia|].
    assert (x / 10 < 10) by (apply Z.div_lt_upper_bound; lia). lia. }
  assert (0 <= x mod 10 <= 9) as H1 by (pose proof (Z.mod_pos_bound x 10); lia).
  pose proof (pad0_2_table _ _ (digits10_spec _ H0) (digits10_spec _ H1)) as E.
  apply String.eqb_eq in E.
  replace (x / 10 * 10 + x mod 10) with x in E
    by (pose proof (Z.div_mod x 10); lia).
  exact E.
Qed.

Lemma pad0_4_eq (y : Z) :
  0 <= y <= 9999 ->
  pad0 4 y = String (digit_char (y / 1000)) (String (digit_char (y / 100 mod 10))
               (String (digit_char (y / 10 mod 10))
                  (String (digit_char (y mod 10)) EmptyString))).
Proof.
  intros H.
  assert (0 <= y / 1000 <= 9) as H0.
  { split; [apply Z.div_pos; lia|].
    assert (y / 1000 < 10) by (apply Z.div_lt_upper_bound; lia). lia. }
  assert (0 <= y / 100 mod 10 <= 9) as H1
    by (pose proof (Z.mod_pos_bound (y / 100) 10); lia).
  assert (0 <= y / 10 mod 10 <= 9) as H2
    by (pose proof (Z.mod_pos_bound (y / 10) 10); lia).
  assert (0 <= y mod 10 <= 9) as H3 by (pose proof (Z.mod_pos_bound y 10); lia).
  pose proof (pad0_4_table _ _ _ _ (digits10_spec _ H0) (digits10_spec _ H1)
                (digits10_spec _ H2) (digits10_spec _ H3)) as E.
  apply String.eqb_eq in E.
  replace (y / 1000 * 1000 + y / 100 mod 10 * 100 + y / 10 mod 10 * 10 + y mod 10)
    with y in E; [exact E|].
  pose proof (Z.div_mod y 10). pose proof (Z.div_mod (y / 10) 10).
  pose proof (Z.div_mod (y / 100) 10).
  rewrite (Z.div_div y 10 10) in * by lia.
  assert (y / 100 / 10 = y / 1000) by (rewrite Z.div_div by lia; reflexivity).
  change (10 * 10) with 100 in *. lia.
Qed.

(** A date and a time of day written with [Format] are read back by
    [Parse]. *)
Lemma Parse_Format (t : Time) :
  0 <= Year t <= 9999 -> 1 <= Month t <= 12 -> 1 <= Day t <= daysIn (Month t) (Year t) ->
  0 <= Hour t < 24 -> 0 <= Min t < 60 ->
  Parse (Format t) = Some t.
Proof.
  destruct t as [Y M D H N]. cbn [Year Month Day Hour Min].
  intros Hy Hm Hd Hh Hn.
  assert (daysIn M Y <= 31) as Hdays.
  { unfold daysIn. repeat destruct (_ =? _); cbn [orb]; try lia. destruct (isLeap _); lia. }
  unfold Format. cbn [Year Month Day Hour Min].
  rewrite !appendInt_nonneg by lia.
  rewrite pad0_4_eq, !pad0_2_eq by lia.
  rewrite !sapp_cons, !sapp_nil.
  assert (forall x, 0 <= x mod 10 <= 9) as Hmod
    by (intros x; pose proof (Z.mod_pos_bound x 10); lia).
  assert (forall x k, 0 < k -> 0 <= x < 10 * k -> 0 <= x / k <= 9) as Hdiv.
  { intros x k Hk Hx. split; [apply Z.div_pos; lia|].
    apply Z.lt_succ_r, Z.div_lt_upper_bound; lia. }
  destruct (digit_char_digit (Y / 1000) (Hdiv Y 1000 ltac:(lia) ltac:(lia))) as [B0 V0].
  destruct (digit_char_digit (Y / 100 mod 10) (Hmod _)) as [B1 V1].
  destruct (digit_char_digit (Y / 10 mod 10) (Hmod _)) as [B2 V2].
  destruct (digit_char_digit (Y mod 10) (Hmod _)) as [B3 V3].
  destruct (digit_char_digit (M / 10) (Hdiv M 10 ltac:(lia) ltac:(lia))) as [B4 V4].
  destruct (digit_char_digit (M mod 10) (Hmod _)) as [B5 V5].
  destruct (digit_char_digit (D / 10) (Hdiv D 10 ltac:(lia) ltac:(lia))) as [B6 V6].
  destruct (digit_char_digit (D mod 10) (Hmod _)) as [B7 V7].
  destruct (digit_char_digit (H / 10) (Hdiv H 10 ltac:(lia) ltac:(lia))) as [B8 V8].
  destruct (digit_char_digit (H mod 10) (Hmod _)) as [B9 V9].
  destruct (digit_char_digit (N / 10) (Hdiv N 10 ltac:(lia) ltac:(lia))) as [B10 V10].
  destruct (digit_char_digit (N mod 10) (Hmod _)) as [B11 V11].
  assert (Y / 1000 * 1000 + Y / 100 mod 10 * 100 + Y / 10 mod 10 * 10 + Y mod 10 = Y)
    as EY.
  { pose proof (Z.div_mod Y 10). pose proof (Z.div_mod (Y / 10) 10).
    pose proof (Z.div_mod (Y / 100) 10).
    assert (Y / 10 / 10 = Y / 100) as E1 by (rewrite Z.div_div by lia; reflexivity).
    assert (Y / 100 / 10 = Y / 1000) as E2 by (rewrite Z.div_div by lia; reflexivity).
    rewrite <- E1 in *. lia. }
  assert (forall x, x / 10 * 10 + x mod 10 = x) as E10
    by (intros x; pose proof (Z.div_mod x 10); lia).
  rewrite Parse_chars;
    rewrite ?V0, ?V1, ?V2, ?V3, ?V4, ?V5, ?V6, ?V7, ?V8, ?V9, ?V10, ?V11, ?EY, ?E10;
    try lia.
  - reflexivity.
  - cbn [forallb]. rewrite B0, B1, B2, B3, B4, B5, B6, B7, B8, B9, B10, B11. reflexivity.
Qed.

End ParseFormat.

Section Calendar.
Import GoStrings GoTime GoFmt.

Lemma civil_day_table : on_range 18 0 civil_day_ok = true.
Proof. vm_cast_no_check (eq_refl true). Qed.

Lemma isLeap_era (y era : Z) : isLeap (y + era * 400) = isLeap y.
Proof.
  unfold isLeap.
  replace ((y + era * 400) mod 4) with (y mod 4)
    by (replace (era * 400) with (era * 100 * 4) by lia; now rewrite Z_mod_plus_full).
  replace ((y + era * 400) mod 100) with (y mod 100)
    by (replace (era * 400) with (era * 4 * 100) by lia; now rewrite Z_mod_plus_full).
  now rewrite Z_mod_plus_full.
Qed.

(** The fields of an instant make a date of the calendar and a time of
    day. *)
Lemma UTC_valid (t : Z) :
  1 <= Month (UTC t) <= 12
  /\ 1 <= Day (UTC t) <= daysIn (Month (UTC t)) (Year (UTC t))
  /\ 0 <= Hour (UTC t) < 24 /\ 0 <= Min (UTC t) < 60.
Proof.
  unfold UTC, civil_from_days.
  set (days := t / Minute / 1440).
  pose proof (Z.mod_pos_bound (days + 719468) 146097 ltac:(lia)) as Hdoe.
  set (doe := (days + 719468) mod 146097) in *.
  set (era := (days + 719468) / 146097).
  pose proof (on_range_spec civil_day_ok 18 0 doe civil_day_table) as T.
  change (2 ^ Z.of_nat 18) with 262144 in T.
  specialize (T ltac:(lia)). unfold civil_day_ok in T.
  destruct (Z.ltb_spec doe 146097); [|lia].
  destruct (civil_of_doe doe) as [[yoe m] d].
  cbn [Year Month Day Hour Min].
  rewrite !andb_true_iff in T. destruct T as (((((T0 & T1) & T2) & T3) & T4) & T5).
  replace (yoe + era * 400 + (if m <=? 2 then 1 else 0))
    with (yoe + (if m <=? 2 then 1 else 0) + era * 400) by lia.
  assert (daysIn m (yoe + (if m <=? 2 then 1 else 0) + era * 400)
          = daysIn m (yoe + (if m <=? 2 then 1 else 0))) as ->.
  { unfold daysIn. now rewrite isLeap_era. }
  pose proof (Z.mod_pos_bound (t / Minute) 1440 ltac:(lia)).
  pose proof (Z.mod_pos_bound (t / Minute) 60 ltac:(lia)).
  assert (0 <= t / Minute mod 1440 / 60 < 24).
  { split; [apply Z.div_pos; lia | apply Z.div_lt_upper_bound; lia]. }
  lia.
Qed.

Lemma civil_back_table : on_range 18 0 civil_back_ok = true.
Proof. vm_cast_no_check (eq_refl true). Qed.

Lemma civil_of_doe_back (doe : Z) :
  0 <= doe < 146097 ->
  let '(yoe, m, d) := civil_of_doe doe in
  doe_from_civil yoe m d = doe /\ 0 <= yoe <= 399.
Proof.
  intros Hdoe.
  pose proof (on_range_spec civil_back_ok 18 0 doe civil_back_table) as T.
  pose proof (on_range_spec civil_day_ok 18 0 doe civil_day_table) as T'.
  change (2 ^ Z.of_nat 18) with 262144 in T, T'.
  specialize (T ltac:(lia)). specialize (T' ltac:(lia)).
  unfold civil_back_ok in T. unfold civil_day_ok in T'.
  destruct (Z.ltb_spec doe 146097); [|lia].
  destruct (civil_of_doe doe) as [[yoe m] d].
  rewrite !andb_true_iff in T'. split; [now apply Z.eqb_eq|lia].
Qed.

(** Two day numbers with the same date are the same day. *)
Lemma civil_from_days_inj (z1 z2 : Z) :
  civil_from_days z1 = civil_from_days z2 -> z1 = z2.
Proof.
  unfold civil_from_days.
  pose proof (Z.mod_pos_bound (z1 + 719468) 146097 ltac:(lia)) as H1.
  pose proof (Z.mod_pos_bound (z2 + 719468) 146097 ltac:(lia)) as H2.
  pose proof (Z.div_mod (z1 + 719468) 146097 ltac:(lia)) as E1.
  pose proof (Z.div_mod (z2 + 719468) 146097 ltac:(lia)) as E2.
  pose proof (civil_of_doe_back _ H1) as B1. pose proof (civil_of_doe_back _ H2) as B2.
  destruct (civil_of_doe ((z1 + 719468) mod 146097)) as [[yoe1 m1] d1].
  destruct (civil_of_doe ((z2 + 719468) mod 146097)) as [[yoe2 m2] d2].
  destruct B1 as [B1 Y1], B2 as [B2 Y2].
  intros [= Hy <- <-].
  assert ((z1 + 719468) / 146097 = (z2 + 719468) / 146097 /\ yoe1 = yoe2) as [Hera ->]
    by lia.
  rewrite B1 in B2. lia.
Qed.

(** Two instants with the same calendar fields are in the same minute. *)
Lemma UTC_inj (t1 t2 : Z) : UTC t1 = UTC t2 -> t1 / Minute = t2 / Minute.
Proof.
  unfold UTC.
  set (n1 := t1 / Minute). set (n2 := t2 / Minute).
  destruct (civil_from_days (n1 / 1440)) as [[y1 m1] d1] eqn:C1.
  destruct (civil_from_days (n2 / 1440)) as [[y2 m2] d2] eqn:C2.
  intros [= -> -> -> Hh Hm].
  assert (n1 / 1440 = n2 / 1440) as Hd
    by (apply civil_from_days_inj; now rewrite C1, C2).
  pose proof (Z.div_mod n1 1440 ltac:(lia)). pose proof (Z.div_mod n2 1440 ltac:(lia)).
  pose proof (Z.div_mod (n1 mod 1440) 60 ltac:(lia)).
  pose proof (Z.div_mod (n2 mod 1440) 60 ltac:(lia)).
  assert (n1 mod 1440 mod 60 = n1 mod 60) as M1
    by (apply Z.mod_mod_divide; now exists 24).
  assert (n2 mod 1440 mod 60 = n2 mod 60) as M2
    by (apply Z.mod_mod_divide; now exists 24).
  lia.
Qed.

(** The time stamps of two instants of the years 0 to 9999 are the same
    only in the same minute. *)
Lemma Format_UTC_inj (t1 t2 : Z) :
  0 <= Year (UTC t1) <= 9999 -> 0 <= Year (UTC t2) <= 9999 ->
  Format (UTC t1) = Format (UTC t2) -> t1 / Minute = t2 / Minute.
Proof.
  intros Y1 Y2 E. apply UTC_inj.
  destruct (UTC_valid t1) as (M1 & D1 & H1 & N1).
  destruct (UTC_valid t2) as (M2 & D2 & H2 & N2).
  pose proof (Parse_Format (UTC t1) Y1 M1 D1 H1 N1) as P1.
  pose proof (Parse_Format (UTC t2) Y2 M2 D2 H2 N2) as P2.
  congruence.
Qed.

End Calendar.

(** ** The uploader: the outcomes of a delivery *)

Section Outcomes.
Import Uploader Examples.

Variables (u : Uploader) (env : Env) (localPath s3Key : string).

Lemma retries_S (a : Z) (k : nat) :
  retries a (S k)
  = EvAttempt a false :: EvBackoff (backoff a) false :: retries (a + 1) k.
Proof.
  unfold retries. rewrite Nat2Z.inj_succ, seqZ_cons by lia.
  replace (Z.pred (Z.succ (Z.of_nat k))) with (Z.of_nat k) by lia.
  replace (Z.succ a) with (a + 1) by lia. reflexivity.
Qed.

Lemma attempts_app (t1 t2 : list event) :
  attempts (t1 ++ t2) = (attempts t1 + attempts t2)%nat.
Proof.
  induction t1 as [|e t1 IH]; [reflexivity|].
  destruct e; cbn [app attempts]; rewrite IH; reflexivity.
Qed.

Lemma delays_app (t1 t2 : list event) : delays (t1 ++ t2) = delays t1 ++ delays t2.
Proof.
  induction t1 as [|e t1 IH]; [reflexivity|].
  destruct e; cbn [app delays]; rewrite IH; reflexivity.
Qed.

Lemma retries_attempts (k : nat) : forall a, attempts (retries a k) = k.
Proof.
  induction k as [|k IH]; intros a; [reflexivity|].
  rewrite retries_S. cbn [attempts]. now rewrite IH.
Qed.

Lemma retries_delays (k : nat) :
  forall a, delays (retries a k) = backoff <$> seqZ a (Z.of_nat k).
Proof.
  induction k as [|k IH]; intros a; [reflexivity|].
  rewrite retries_S. cbn [delays]. rewrite IH.
  rewrite Nat2Z.inj_succ, (seqZ_cons a) by lia.
  replace (Z.pred (Z.succ (Z.of_nat k))) with (Z.of_nat k) by lia.
  replace (Z.succ a) with (a + 1) by lia. reflexivity.
Qed.

(** An attempt fails when the local file cannot be opened or the store
    refuses the object; the store is as before. *)
Lemma uploadFile_fails (n : nat) (st : Store) :
  files st !! localPath = None \/ putOk env n = false ->
  exists e, uploadFile env n localPath s3Key st = (Err e, st).
Proof.
  unfold uploadFile. intros [H|H].
  - rewrite H. eexists; reflexivity.
  - destruct (files st !! localPath); rewrite ?H; eexists; reflexivity.
Qed.

(** [k] failed attempts in a row, none of them the last, no backoff
    interrupted: the loop goes on from attempt [a + k]. *)
Lemma retryLoop_retries (k : nat) :
  forall (fuel : nat) (a : Z) (n : nat) (st : Store),
    0 <= a -> a + Z.of_nat k <= maxRetries u -> maxRetries u <= maxInt64 ->
    (forall i, (i < k)%nat ->
       (files st !! localPath = None \/ putOk env (n + i) = false)
       /\ ctxDone env (n + i) = false) ->
    retryLoop (k + fuel) u env localPath s3Key a n st
    = match retryLoop fuel u env localPath s3Key (a + Z.of_nat k) (n + k) st with
      | Some (tr, st') => Some (retries a k ++ tr, st')
      | None => None
      end.
Proof.
  induction k as [|k IH]; intros fuel a n st Ha Hk Hmax Hfail.
  - cbn [Nat.add]. rewrite Z.add_0_r, Nat.add_0_r.
    destruct (retryLoop fuel u env localPath s3Key a n st) as [[tr st']|]; reflexivity.
  - destruct (Hfail 0%nat ltac:(lia)) as [Hf Hc]. rewrite Nat.add_0_r in Hf, Hc.
    destruct (uploadFile_fails n st Hf) as [e He].
    cbn [Nat.add retryLoop]. rewrite He, Hc.
    destruct (Z.leb_spec a (maxRetries u)); [|lia].
    destruct (Z.ltb_spec a (maxRetries u)); [|lia].
    rewrite wrap64_small by (unfold minInt64, maxInt64 in *; lia).
    rewrite IH; [|lia|lia|lia|].
    + replace (a + 1 + Z.of_nat k) with (a + Z.of_nat (S k)) by lia.
      replace (S n + k)%nat with (n + S k)%nat by lia.
      rewrite retries_S.
      destruct (retryLoop fuel u env localPath s3Key _ _ st) as [[tr st']|]; reflexivity.
    + intros i Hi. specialize (Hfail (S i) ltac:(lia)).
      replace (S n + i)%nat with (n + S i)%nat by lia. exact Hfail.
Qed.

End Outcomes.

Section UploadOutcomes.
Import Uploader Examples.

(** X1 — the first success: when the key of the file is derived, the local
    file is there, the attempts 0 to [k - 1] fail with no backoff
    interrupted and the attempt [k <= maxRetries] is accepted,
    [uploadWithRetry] makes exactly [k + 1] attempts with the backoffs of
    the attempts 0 to [k - 1] between them, stores the contents of the local
    file under the key, and removes the local file when delete-after-upload
    is set and [os.Remove] succeeds. *)
Theorem uploadWithRetry_first_success (u : Uploader) (env : Env)
    (localPath key body : string) (st : Store) (k : nat) :
  Z.of_nat k <= maxRetries u <= maxInt64 ->
  generateS3Key (GoPath.Base localPath) = Ok key ->
  files st !! localPath = Some body ->
  (forall i, (i < k)%nat -> putOk env i = false /\ ctxDone env i = false) ->
  putOk env k = true ->
  exists tr,
    uploadWithRetry u env localPath st
    = Some (tr,
            mkStore (if deleteAfter u && removeOk env
                     then delete localPath (files st) else files st)
                    (<[key := body]> (objects st)))
    /\ tr = retries 0 k ++ EvAttempt (Z.of_nat k) true
             :: (if deleteAfter u then [EvRemove localPath (removeOk env)] else [])
    /\ attempts tr = S k
    /\ delays tr = backoff <$> seqZ 0 (Z.of_nat k).
Proof.
  intros Hk Hkey Hfile Hfail Hput.
  eexists. split; [|split; [reflexivity|]].
  - unfold uploadWithRetry. rewrite Hkey.
    replace (S (Z.to_nat (maxRetries u + 1)))
      with (k + S (Z.to_nat (maxRetries u + 1) - k))%nat by lia.
    rewrite retryLoop_retries; [|lia|lia|lia|].
    + rewrite ?Z.add_0_l. cbn [Nat.add].
      rewrite (retryLoop_success u env localPath key _ _ _ st body) by (auto; lia).
      cbv zeta. destruct (deleteAfter u); [|reflexivity].
      destruct (removeOk env); reflexivity.
    + intros i Hi. destruct (Hfail i Hi). auto.
  - rewrite attempts_app, delays_app, retries_attempts, retries_delays.
    split.
    + destruct (deleteAfter u); cbn [attempts]; lia.
    + destruct (deleteAfter u); cbn [delays]; now rewrite app_nil_r.
Qed.

Lemma uploadWithRetry_first_success_witness :
  exists tr,
    uploadWithRetry (mkUploader "bucket" true 3) fails_twice example_path example_store
    = Some (tr,
            mkStore (delete example_path (files example_store))
              (<["2025/12/30/twitch/ludwig/twitch_ludwig_20251230_1030.jsonl" := "{}"]>
                 (objects example_store)))
    /\ tr = retries 0 2 ++ [EvAttempt 2 true; EvRemove example_path true]
    /\ attempts tr = 3%nat
    /\ delays tr = backoff <$> seqZ 0 2.
Proof.
  refine (uploadWithRetry_first_success (mkUploader "bucket" true 3) fails_twice
            example_path _ "{}" example_store 2 _ _ _ _ _).
  - unfold maxInt64. simpl. lia.
  - vm_compute. reflexivity.
  - vm_compute. reflexivity.
  - intros [|[|i]] Hi; [split; reflexivity | split; reflexivity | lia].
  - reflexivity.
Defined.

(** Every attempt fails and no backoff is interrupted. *)
Lemma uploadWithRetry_all_fail (u : Uploader) (env : Env)
    (localPath key : string) (st : Store) :
  0 <= maxRetries u < maxInt64 ->
  generateS3Key (GoPath.Base localPath) = Ok key ->
  (forall i : nat, Z.of_nat i <= maxRetries u ->
     (files st !! localPath = None \/ putOk env i = false)
     /\ ctxDone env i = false) ->
  uploadWithRetry u env localPath st
  = Some (retries 0 (Z.to_nat (maxRetries u))
            ++ [EvAttempt (maxRetries u) false; EvGiveUp], st)
  /\ Z.of_nat (attempts (retries 0 (Z.to_nat (maxRetries u))
                           ++ [EvAttempt (maxRetries u) false; EvGiveUp]))
     = maxRetries u + 1
  /\ delays (retries 0 (Z.to_nat (maxRetries u))
               ++ [EvAttempt (maxRetries u) false; EvGiveUp])
     = backoff <$> seqZ 0 (maxRetries u).
Proof.
  intros Hmax Hkey Hfail. split.
  - unfold uploadWithRetry. rewrite Hkey.
    replace (S (Z.to_nat (maxRetries u + 1)))
      with (Z.to_nat (maxRetries u) + 2)%nat by lia.
    rewrite retryLoop_retries; [|lia|lia|lia|].
    + rewrite Z2Nat.id by lia. rewrite ?Z.add_0_l. cbn [Nat.add].
      destruct (Hfail (Z.to_nat (maxRetries u)) ltac:(lia)) as [Hf _].
      destruct (uploadFile_fails env localPath key (Z.to_nat (maxRetries u)) st Hf)
        as [e He].
      cbn [retryLoop]. rewrite He.
      destruct (Z.leb_spec (maxRetries u) (maxRetries u)); [|lia].
      destruct (Z.ltb_spec (maxRetries u) (maxRetries u)); [lia|].
      rewrite wrap64_small by (unfold minInt64, maxInt64 in *; lia).
      destruct (Z.leb_spec (maxRetries u + 1) (maxRetries u)); [lia|].
      reflexivity.
    + intros i Hi. apply (Hfail i). lia.
  - rewrite attempts_app, delays_app, retries_attempts, retries_delays.
    cbn [attempts delays]. rewrite app_nil_r, Z2Nat.id by lia. split; [lia|reflexivity].
Qed.

(** X2 — the retries used up: for [0 <= maxRetries < 2^63 - 1], when every
    attempt fails (the local file cannot be opened, or the store refuses)
    and no backoff is interrupted, [uploadWithRetry] makes exactly
    [maxRetries + 1] attempts, waits after each but the last, gives up, and
    leaves the local files and the bucket as they were. *)
Theorem uploadWithRetry_exhausted (u : Uploader) (env : Env)
    (localPath key : string) (st : Store) :
  0 <= maxRetries u < maxInt64 ->
  generateS3Key (GoPath.Base localPath) = Ok key ->
  (forall i : nat, Z.of_nat i <= maxRetries u ->
     (files st !! localPath = None \/ putOk env i = false)
     /\ ctxDone env i = false) ->
  exists tr,
    uploadWithRetry u env localPath st = Some (tr, st)
    /\ tr = retries 0 (Z.to_nat (maxRetries u))
            ++ [EvAttempt (maxRetries u) false; EvGiveUp]
    /\ Z.of_nat (attempts tr) = maxRetries u + 1
    /\ delays tr = backoff <$> seqZ 0 (maxRetries u).
Proof.
  intros Hmax Hkey Hfail.
  destruct (uploadWithRetry_all_fail u env localPath key st Hmax Hkey Hfail)
    as (Hrun & Hn & Hd).
  eexists. split; [exact Hrun|]. split; [reflexivity|]. split; assumption.
Qed.

Lemma uploadWithRetry_exhausted_witness :
  exists tr,
    uploadWithRetry (mkUploader "bucket" true 3) always_failing example_path example_store
    = Some (tr, example_store)
    /\ tr = retries 0 3 ++ [EvAttempt 3 false; EvGiveUp]
    /\ Z.of_nat (attempts tr) = 3 + 1
    /\ delays tr = backoff <$> seqZ 0 3.
Proof.
  refine (uploadWithRetry_exhausted (mkUploader "bucket" true 3) always_failing
            example_path _ example_store _ _ _).
  - unfold maxInt64. simpl. lia.
  - vm_compute. reflexivity.
  - intros i _. split; [right|]; reflexivity.
Defined.

(** X3 — the cancellation: when the attempts 0 to [k] fail and the context
    is done during the backoff after the attempt [k < maxRetries],
    [uploadWithRetry] returns at once: [k + 1] attempts were made, no
    further one is, and the local files and the bucket are as they were. *)
Theorem uploadWithRetry_cancelled (u : Uploader) (env : Env)
    (localPath key : string) (st : Store) (k : nat) :
  Z.of_nat k < maxRetries u <= maxInt64 ->
  generateS3Key (GoPath.Base localPath) = Ok key ->
  (forall i, (i <= k)%nat -> files st !! localPath = None \/ putOk env i = false) ->
  (forall i, (i < k)%nat -> ctxDone env i = false) ->
  ctxDone env k = true ->
  exists tr,
    uploadWithRetry u env localPath st = Some (tr, st)
    /\ tr = retries 0 k
            ++ [EvAttempt (Z.of_nat k) false; EvBackoff (backoff (Z.of_nat k)) true]
    /\ attempts tr = S k.
Proof.
  intros Hk Hkey Hfail Hrun Hdone.
  eexists. split; [|split; [reflexivity|]].
  - unfold uploadWithRetry. rewrite Hkey.
    replace (S (Z.to_nat (maxRetries u + 1)))
      with (k + S (Z.to_nat (maxRetries u + 1) - k))%nat by lia.
    rewrite retryLoop_retries; [|lia|lia|lia|].
    + rewrite ?Z.add_0_l. cbn [Nat.add].
      destruct (uploadFile_fails env localPath key k st (Hfail k ltac:(lia))) as [e He].
      cbn [retryLoop]. rewrite He, Hdone.
      destruct (Z.leb_spec (Z.of_nat k) (maxRetries u)); [|lia].
      destruct (Z.ltb_spec (Z.of_nat k) (maxRetries u)); [|lia].
      reflexivity.
    + intros i Hi. split; [apply Hfail; lia | apply Hrun; lia].
  - rewrite attempts_app, retries_attempts. cbn [attempts]. lia.
Qed.

Lemma uploadWithRetry_cancelled_witness :
  exists tr,
    uploadWithRetry (mkUploader "bucket" true 3) cancelled_at_once
      example_path example_store = Some (tr, example_store)
    /\ tr = retries 0 0 ++ [EvAttempt 0 false; EvBackoff (backoff 0) true]
    /\ attempts tr = 1%nat.
Proof.
  refine (uploadWithRetry_cancelled (mkUploader "bucket" true 3) cancelled_at_once
            example_path _ example_store 0 _ _ _ _ _).
  - unfold maxInt64. simpl. lia.
  - vm_compute. reflexivity.
  - intros i _. right. reflexivity.
  - intros i Hi. lia.
  - reflexivity.
Defined.

(** With a negative [maxRetries] the loop is left before its first
    iteration. *)
Lemma uploadWithRetry_no_iteration (u : Uploader) (env : Env)
    (localPath key : string) (st : Store) :
  maxRetries u < 0 ->
  generateS3Key (GoPath.Base localPath) = Ok key ->
  uploadWithRetry u env localPath st = Some ([EvGiveUp], st).
Proof.
  intros Hneg Hkey. unfold uploadWithRetry. rewrite Hkey. cbn [retryLoop].
  destruct (Z.leb_spec 0 (maxRetries u)); [lia|reflexivity].
Qed.

(** X4 — a negative [maxRetries]: the loop is left before its first
    iteration, so [uploadWithRetry] makes no attempt at all, whatever the
    store would answer; the file is reported as failed and stays where it
    is. *)
Theorem uploadWithRetry_disabled (u : Uploader) (env : Env)
    (localPath : string) (st : Store) :
  maxRetries u < 0 ->
  exists tr,
    uploadWithRetry u env localPath st = Some (tr, st)
    /\ attempts tr = 0%nat
    /\ (is_ok (generateS3Key (GoPath.Base localPath)) = true -> tr = [EvGiveUp]).
Proof.
  intros Hneg.
  destruct (generateS3Key (GoPath.Base localPath)) as [key|e] eqn:Hkey.
  - exists [EvGiveUp]. split; [now apply (uploadWithRetry_no_iteration u env _ key)|].
    auto.
  - exists [EvKeyError e]. unfold uploadWithRetry. rewrite Hkey.
    split; [reflexivity|]. split; [reflexivity|discriminate].
Qed.

Lemma uploadWithRetry_disabled_witness :
  exists tr,
    uploadWithRetry (mkUploader "bucket" true (-1)) fails_twice example_path example_store
    = Some (tr, example_store)
    /\ attempts tr = 0%nat
    /\ (is_ok (generateS3Key (GoPath.Base example_path)) = true -> tr = [EvGiveUp]).
Proof.
  refine (uploadWithRetry_disabled (mkUploader "bucket" true (-1)) fails_twice
            example_path example_store _).
  simpl. lia.
Defined.

(** X5 — what [uploadWithRetry] leaves alone: no local file other than
    [localPath] and no object other than the one under the key derived from
    the name of [localPath] is changed; after a successful attempt the
    bucket is the old one with the contents that the local file had stored
    under that key, and with no successful attempt the bucket is as it was.
    *)
Theorem uploadWithRetry_touches_one_file_one_key (u : Uploader) (env : Env)
    (localPath : string) (st : Store) (tr : list event) (st' : Store) :
  uploadWithRetry u env localPath st = Some (tr, st') ->
  (forall p, p <> localPath -> files st' !! p = files st !! p)
  /\ (forall k, generateS3Key (GoPath.Base localPath) <> Ok k ->
        objects st' !! k = objects st !! k)
  /\ ((exists a, In (EvAttempt a true) tr) ->
      exists key body,
        generateS3Key (GoPath.Base localPath) = Ok key
        /\ files st !! localPath = Some body
        /\ objects st' = <[key := body]> (objects st))
  /\ ((forall a, ~ In (EvAttempt a true) tr) -> objects st' = objects st).
Proof.
  unfold uploadWithRetry. intros H.
  destruct (generateS3Key (GoPath.Base localPath)) as [s3Key|e].
  - apply retryLoop_outcome in H
      as [(pre & a' & m & body & Hb & Hm & Hq & Hcase)|(-> & Hq & Hl)].
    + cbv zeta in Hcase.
      assert (files st' = files st \/ files st' = delete localPath (files st)) as Hfiles'.
      { destruct Hcase as [(_ & _ & ->)|(_ & _ & ->)]; [|left; reflexivity].
        unfold os_Remove. cbn [files objects]. rewrite Hb.
        destruct (removeOk env); [right|left]; reflexivity. }
      assert (objects st' = <[s3Key := body]> (objects st)) as Hobj.
      { destruct Hcase as [(_ & _ & ->)|(_ & _ & ->)]; [|reflexivity].
        unfold os_Remove. cbn [files objects]. rewrite Hb.
        destruct (removeOk env); reflexivity. }
      assert (exists a, In (EvAttempt a true) tr) as [a Ha].
      { exists a'. destruct Hcase as [(_ & -> & _)|(_ & -> & _)];
          apply in_or_app; right; left; reflexivity. }
      split; [|split; [|split]].
      * intros p Hp. destruct Hfiles' as [->| ->]; [reflexivity|].
        now rewrite lookup_delete_ne.
      * intros k Hk. rewrite Hobj. apply lookup_insert_ne. congruence.
      * intros _. exists s3Key, body. auto.
      * intros Hno. now apply Hno in Ha.
    + split; [reflexivity|]. split; [reflexivity|]. split; [|reflexivity].
      intros [a Ha]. rewrite Forall_forall in Hq.
      apply list_elem_of_In, Hq in Ha. destruct Ha as [Ha _]. discriminate.
  - injection H as <- <-. split; [reflexivity|]. split; [reflexivity|].
    split; [|reflexivity]. intros [a [Ha|[]]]. discriminate.
Qed.

Lemma uploadWithRetry_touches_one_file_one_key_witness :
  (forall p, p <> example_path ->
     files (mkStore (delete example_path (files example_store))
              (<["2025/12/30/twitch/ludwig/twitch_ludwig_20251230_1030.jsonl" := "{}"]> ∅))
       !! p
     = files example_store !! p)
  /\ forall k,
       generateS3Key (GoPath.Base example_path) <> Ok k ->
       objects (mkStore (delete example_path (files example_store))
                  (<["2025/12/30/twitch/ludwig/twitch_ludwig_20251230_1030.jsonl" := "{}"]>
                     ∅)) !! k
       = objects example_store !! k.
Proof.
  destruct (uploadWithRetry_touches_one_file_one_key
              (mkUploader "bucket" true 3) fails_twice example_path example_store
              [EvAttempt 0 false; EvBackoff 1000000000 false;
               EvAttempt 1 false; EvBackoff 2000000000 false;
               EvAttempt 2 true; EvRemove example_path true]
              (mkStore (delete example_path (files example_store))
                 (<["2025/12/30/twitch/ludwig/twitch_ludwig_20251230_1030.jsonl" := "{}"]>
                    ∅)))
    as (Hfiles & Hobjects & _).
  - vm_compute. reflexivity.
  - split; [exact Hfiles | exact Hobjects].
Defined.

End UploadOutcomes.

(** ** From the name of a segment to its key *)

Section SegmentKey.
Import GoStrings GoTime GoFmt Uploader Recorder.

Lemma digit_not_slash (c : ascii) : digitb c = true -> Ascii.eqb c "/"%char = false.
Proof.
  intros H. destruct (Ascii.eqb_spec c "/"%char) as [->|_]; [discriminate|reflexivity].
Qed.

Lemma pad0_2_no_slash (x : Z) :
  0 <= x <= 99 -> contains_byte "/"%char (pad0 2 x) = false.
Proof.
  intros H. rewrite pad0_2_eq by exact H. cbn [contains_byte].
  assert (0 <= x / 10 <= 9) as H0.
  { split; [apply Z.div_pos; lia | apply Z.lt_succ_r, Z.div_lt_upper_bound; lia]. }
  assert (0 <= x mod 10 <= 9) as H1 by (pose proof (Z.mod_pos_bound x 10); lia).
  destruct (digit_char_digit _ H0) as [B0 _]. destruct (digit_char_digit _ H1) as [B1 _].
  now rewrite (digit_not_slash _ B0), (digit_not_slash _ B1).
Qed.

Lemma pad0_4_no_slash (y : Z) :
  0 <= y <= 9999 -> contains_byte "/"%char (pad0 4 y) = false.
Proof.
  intros H. rewrite pad0_4_eq by exact H. cbn [contains_byte].
  assert (forall x, 0 <= x mod 10 <= 9) as Hmod
    by (intros x; pose proof (Z.mod_pos_bound x 10); lia).
  assert (0 <= y / 1000 <= 9) as H0.
  { split; [apply Z.div_pos; lia | apply Z.lt_succ_r, Z.div_lt_upper_bound; lia]. }
  destruct (digit_char_digit _ H0) as [B0 _].
  destruct (digit_char_digit _ (Hmod (y / 100))) as [B1 _].
  destruct (digit_char_digit _ (Hmod (y / 10))) as [B2 _].
  destruct (digit_char_digit _ (Hmod y)) as [B3 _].
  now rewrite (digit_not_slash _ B0), (digit_not_slash _ B1),
    (digit_not_slash _ B2), (digit_not_slash _ B3).
Qed.

Lemma Format_no_slash (t : Z) :
  0 <= Year (UTC t) <= 9999 -> contains_byte "/"%char (Format (UTC t)) = false.
Proof.
  intros Hy. destruct (UTC_valid t) as (Hm & Hd & Hh & Hn).
  assert (daysIn (Month (UTC t)) (Year (UTC t)) <= 31) as Hdays.
  { unfold daysIn. repeat destruct (_ =? _); cbn [orb]; try lia. destruct (isLeap _); lia. }
  unfold Format. rewrite !appendInt_nonneg by lia.
  rewrite !contains_byte_app, pad0_4_no_slash, !pad0_2_no_slash by lia. reflexivity.
Qed.

(** The name without its extension, as [Split] sees it. *)
Lemma segment_name_parts (p c : string) (t : Time) :
  contains_byte "_"%char p = false ->
  Split (TrimSuffix (segment_name p c (Format t)) ".jsonl") "_"%char
  = p :: Split c "_"%char
      ++ [appendInt (Year t) 4 +:+ appendInt (Month t) 2 +:+ appendInt (Day t) 2;
          appendInt (Hour t) 2 +:+ appendInt (Min t) 2].
Proof.
  intros Hp.
  pose (date := appendInt (Year t) 4 +:+ appendInt (Month t) 2 +:+ appendInt (Day t) 2).
  pose (time := appendInt (Hour t) 2 +:+ appendInt (Min t) 2).
  assert (segment_name p c (Format t)
          = (p +:+ String "_"%char (c +:+ String "_"%char (date +:+ String "_"%char time)))
            +:+ ".jsonl") as ->.
  { unfold segment_name, Format, date, time.
    repeat first [rewrite string_app_assoc | rewrite sapp_cons | rewrite sapp_nil].
    reflexivity. }
  rewrite TrimSuffix_app, !Split_app.
  rewrite (Split_no_sep p) by exact Hp.
  rewrite (Split_no_sep date)
    by (unfold date; rewrite !contains_byte_app, !appendInt_no_sep; reflexivity).
  rewrite (Split_no_sep time)
    by (unfold time; rewrite !contains_byte_app, !appendInt_no_sep; reflexivity).
  reflexivity.
Qed.

Lemma generateS3Key_segment_name (p c : string) (t : Z) :
  contains_byte "_"%char p = false ->
  0 <= Year (UTC t) <= 9999 ->
  generateS3Key (segment_name p c (Format (UTC t)))
  = Ok (pad0 4 (Year (UTC t)) +:+ "/" +:+ pad0 2 (Month (UTC t)) +:+ "/"
        +:+ pad0 2 (Day (UTC t)) +:+ "/" +:+ p +:+ "/" +:+ c +:+ "/"
        +:+ segment_name p c (Format (UTC t))).
Proof.
  intros Hp Hy. destruct (UTC_valid t) as (Hm & Hd & Hh & Hn).
  unfold generateS3Key. rewrite segment_name_parts by exact Hp.
  rewrite parts_length.
  pose proof (Split_nonempty c "_"%char) as Hne.
  assert (length (Split c "_"%char) <> 0%nat) as Hlen
    by (destruct (Split c "_"%char); [congruence|discriminate]).
  destruct (Nat.ltb_spec (3 + length (Split c "_"%char)) 4); [lia|].
  rewrite parts_first, parts_date, parts_time, parts_middle.
  replace ((appendInt (Year (UTC t)) 4 +:+ appendInt (Month (UTC t)) 2
            +:+ appendInt (Day (UTC t)) 2) +:+ "_"
           +:+ appendInt (Hour (UTC t)) 2 +:+ appendInt (Min (UTC t)) 2)
    with (Format (UTC t))
    by (unfold Format;
        repeat first [rewrite string_app_assoc | rewrite sapp_cons | rewrite sapp_nil];
        reflexivity).
  rewrite Parse_Format by (assumption || lia).
  now rewrite Join_Split.
Qed.

Lemma segment_name_simple (p c : string) (t : Z) :
  contains_byte "/"%char p = false -> contains_byte "/"%char c = false ->
  0 <= Year (UTC t) <= 9999 ->
  segment_name p c (Format (UTC t)) <> EmptyString
  /\ contains_byte "/"%char (segment_name p c (Format (UTC t))) = false.
Proof.
  intros Hp Hc Hy. unfold segment_name. split.
  - intros E. apply (f_equal String.length) in E.
    rewrite !string_app_length in E. cbn in E. lia.
  - rewrite !contains_byte_app, Hp, Hc, Format_no_slash by exact Hy. reflexivity.
Qed.

End SegmentKey.

Section SegmentKeyFacts.
Import GoOS GoStrings GoTime GoFmt Uploader Recorder Examples.

(** X6 — from the recorder to the uploader: for a platform without
    underscore or slash, a channel without slash and an instant of the years
    0 to 9999, the path that [createFileWriter] opens is the output
    directory joined with the file name, [filepath.Base] gives the file name
    back, and [generateS3Key] of it is
    [YYYY/MM/DD/<platform>/<channel>/<file name>] with the UTC date of the
    creation: the key names the platform and the channel the segment was
    recorded for. *)
Theorem createFileWriter_key (r : Recorder) (p c : string) (w w' : World)
    (fw : fileWriter) :
  createFileWriter r p c w = (Ok fw, w') ->
  contains_byte "_"%char p = false ->
  contains_byte "/"%char p = false -> contains_byte "/"%char c = false ->
  0 <= Year (UTC (now w)) <= 9999 ->
  name (file fw) = GoPath.Join (outputDir r) (filename fw)
  /\ GoPath.Base (name (file fw)) = filename fw
  /\ generateS3Key (GoPath.Base (name (file fw)))
     = Ok (pad0 4 (Year (UTC (now w))) +:+ "/" +:+ pad0 2 (Month (UTC (now w))) +:+ "/"
           +:+ pad0 2 (Day (UTC (now w))) +:+ "/" +:+ p +:+ "/" +:+ c +:+ "/"
           +:+ filename fw).
Proof.
  intros Hcreate Hp Hps Hcs Hy.
  rewrite createFileWriter_eq in Hcreate.
  destruct (decide (_ ∈ denied w)); [discriminate|].
  injection Hcreate as <- <-.
  cbn [fresh_writer file name filename]. unfold segment_path.
  destruct (segment_name_simple p c (now w) Hps Hcs Hy) as [Hne Hslash].
  split; [reflexivity|].
  rewrite (Base_Join _ _ Hne Hslash). split; [reflexivity|].
  now apply generateS3Key_segment_name.
Qed.

Lemma createFileWriter_key_witness :
  generateS3Key (GoPath.Base "data/twitch_ludwig_20251230_1030.jsonl")
  = Ok ("2025" +:+ "/" +:+ "12" +:+ "/" +:+ "30" +:+ "/" +:+ "twitch" +:+ "/"
        +:+ "ludwig" +:+ "/" +:+ "twitch_ludwig_20251230_1030.jsonl").
Proof.
  refine (proj2 (proj2 (createFileWriter_key (recorder one_writer) "twitch" "ludwig"
            (world one_writer)
            (created "data/twitch_ludwig_20251230_1030.jsonl" (world one_writer))
            (fresh_writer (recorder one_writer) "twitch" "ludwig" (world one_writer))
            _ _ _ _ _))).
  - vm_compute. reflexivity.
  - reflexivity.
  - reflexivity.
  - reflexivity.
  - vm_compute. split; discriminate.
Defined.

Lemma collect_spec (outputDir : string) (entries : list DirEntry) :
  forall acc : list string,
    collect outputDir entries acc
    = acc ++ map (fun entry => GoPath.Join outputDir (Name entry))
               (List.filter (fun entry => negb (IsDir entry)
                                          && HasSuffix (Name entry) ".jsonl")
                            entries).
Proof.
  induction entries as [|entry entries IH]; intros acc.
  - cbn [collect List.filter map]. now rewrite app_nil_r.
  - cbn [collect List.filter]. destruct (IsDir entry); cbn [negb andb]; [apply IH|].
    destruct (HasSuffix (Name entry) ".jsonl"); [|apply IH].
    rewrite IH. cbn [map]. now rewrite <- app_assoc.
Qed.

(** X7 — [ScanAndUploadExisting]: when the directory cannot be read the
    error is returned and no upload is started; otherwise uploads are
    started for the entries that are not directories and whose names end in
    [.jsonl], each under the output directory and in the order of the
    listing, and every segment file of the recorder that is listed is among
    them. *)
Theorem ScanAndUploadExisting_selects (readDir : result (list DirEntry))
    (outputDir : string) :
  match readDir with
  | Err e => ScanAndUploadExisting readDir outputDir = (Some (ErrReadDirectory e), [])
  | Ok entries =>
      ScanAndUploadExisting readDir outputDir
      = (None,
         map (fun entry => GoPath.Join outputDir (Name entry))
           (List.filter (fun entry => negb (IsDir entry)
                                      && HasSuffix (Name entry) ".jsonl")
                        entries))
      /\ forall (p c : string) (t : Z),
           In (mkDirEntry (segment_name p c (Format (UTC t))) false) entries ->
           In (GoPath.Join outputDir (segment_name p c (Format (UTC t))))
              (ScanAndUploadExisting readDir outputDir).2
  end.
Proof.
  destruct readDir as [entries|e]; [|reflexivity].
  unfold ScanAndUploadExisting. rewrite collect_spec. cbn [app snd].
  split; [reflexivity|]. intros p c t Hin.
  apply in_map_iff. exists (mkDirEntry (segment_name p c (Format (UTC t))) false).
  split; [reflexivity|]. apply filter_In. split; [exact Hin|].
  cbn [IsDir Name negb andb]. unfold segment_name.
  replace (p +:+ "_" +:+ c +:+ "_" +:+ Format (UTC t) +:+ ".jsonl")
    with ((p +:+ "_" +:+ c +:+ "_" +:+ Format (UTC t)) +:+ ".jsonl")
    by (now rewrite !string_app_assoc).
  apply HasSuffix_app.
Qed.

End SegmentKeyFacts.

Section SegmentMinute.
Import GoOS GoStrings GoTime GoFmt Recorder Examples.

Lemma segment_name_stamp_inj (p c ts1 ts2 : string) :
  segment_name p c ts1 = segment_name p c ts2 -> ts1 = ts2.
Proof.
  unfold segment_name. intros H.
  do 4 apply sapp_inj_head in H.
  now apply sapp_inj_tail in H as [H _].
Qed.

(** Segments of one key with the same path were created in the same
    minute. *)
Lemma segment_path_inj (r : Recorder) (p c : string) (t1 t2 : Z) :
  0 <= Year (UTC t1) <= 9999 -> 0 <= Year (UTC t2) <= 9999 ->
  segment_path r p c t1 = segment_path r p c t2 -> t1 / Minute = t2 / Minute.
Proof.
  intros Y1 Y2. unfold segment_path. intros H.
  apply Join_inj, segment_name_stamp_inj in H. now apply Format_UTC_inj.
Qed.

(** X8 — for instants of the years 0 to 9999, two segments of one platform
    and channel get the same path exactly when they are created in the same
    UTC minute. *)
Theorem segment_path_same_minute (r : Recorder) (p c : string) (t1 t2 : Z) :
  0 <= Year (UTC t1) <= 9999 -> 0 <= Year (UTC t2) <= 9999 ->
  segment_path r p c t1 = segment_path r p c t2 <-> t1 / Minute = t2 / Minute.
Proof.
  intros Y1 Y2. split.
  - now apply segment_path_inj.
  - intros H. unfold segment_path. now rewrite (UTC_minute t1 t2 H).
Qed.

Lemma segment_path_same_minute_witness :
  segment_path (recorder one_writer) "twitch" "ludwig" (t_start + 10 * Second)
  = segment_path (recorder one_writer) "twitch" "ludwig" (t_start + 70 * Second)
  <-> (t_start + 10 * Second) / Minute = (t_start + 70 * Second) / Minute.
Proof.
  apply (segment_path_same_minute (recorder one_writer) "twitch" "ludwig"
           (t_start + 10 * Second) (t_start + 70 * Second)).
  - vm_compute. split; discriminate.
  - vm_compute. split; discriminate.
Defined.

End SegmentMinute.

(** ** The recorder: what the writers hold *)

Section Messages.
Import GoOS Recorder Recorder.
Variable json_Marshal : Message -> result string.

Abbreviation encode := (Recorder.encode json_Marshal).
Abbreviation count := (Recorder.count json_Marshal).
Abbreviation line := (Recorder.line json_Marshal).
Abbreviation recordMessage := (Recorder.recordMessage json_Marshal).
Abbreviation after_message := (Recorder.after_message json_Marshal).
Abbreviation stream := (Recorder.stream json_Marshal).

Lemma encode_app (a b : list Message) : encode (a ++ b) = encode a +:+ encode b.
Proof.
  induction a as [|m a IH]; [now rewrite sapp_nil|].
  cbn [app Recorder.encode]. now rewrite IH, string_app_assoc.
Qed.

Lemma encode_one (msg : Message) : encode [msg] = line msg.
Proof. cbn [Recorder.encode]. apply string_app_nil_r. Qed.

Lemma wrap64_add_l (a b : Z) : wrap64 (wrap64 a + b) = wrap64 (a + b).
Proof.
  unfold wrap64. f_equal.
  replace ((a + 2 ^ 63) mod 2 ^ 64 - 2 ^ 63 + b + 2 ^ 63)
    with ((a + 2 ^ 63) mod 2 ^ 64 + b) by ring.
  rewrite Zplus_mod_idemp_l. f_equal. ring.
Qed.

(** The counter grows by the bytes that the batch puts into the file. *)
Lemma count_bytes (msgs : list Message) :
  forall z : Z,
    count msgs (wrap64 z) = wrap64 (z + Z.of_nat (String.length (encode msgs))).
Proof.
  induction msgs as [|m msgs IH]; intros z.
  - change (wrap64 z = wrap64 (z + 0)). now rewrite Z.add_0_r.
  - cbn [Recorder.count Recorder.encode]. unfold Recorder.line.
    destruct (json_Marshal m) as [data|e].
    + rewrite wrap64_add_l, <- Z.add_assoc, wrap64_add_l, IH. f_equal.
      rewrite !string_app_length. cbn [String.length]. lia.
    + rewrite IH, sapp_nil. reflexivity.
Qed.

(** A writer of the map and the path of a segment of another key. *)
Lemma wf_other_path (st : State) (k : string) (x : fileWriter) (p c : string) (t : Z) :
  wf st -> currentFiles (recorder st) !! k = Some x -> k <> file_key p c ->
  name (file x) <> segment_path (recorder st) p c t.
Proof.
  intros Hwf Hx Hne Heq. apply Hne.
  rewrite (wf_path st Hwf k x Hx) in Heq. unfold segment_path in Heq.
  apply Join_inj in Heq.
  destruct (wf_stamp st Hwf k x Hx) as [t1 E1]. rewrite E1 in Heq.
  apply segment_name_key_inj in Heq.
  now rewrite (wf_key st Hwf k x Hx).
Qed.

(** [recordMessage] on a writer of the map. *)
Lemma recordMessage_found (msg : Message) (st : State) (fw : fileWriter) :
  wf st ->
  currentFiles (recorder st) !! file_key (Platform msg) (Channel msg) = Some fw ->
  recordMessage msg st
  = (None,
     mkState (set_files (recorder st)
                (<[file_key (Platform msg) (Channel msg)
                   := (after_message (recorder st) fw msg (world st)).1]>
                   (currentFiles (recorder st))))
             (after_message (recorder st) fw msg (world st)).2 (fileChan st)).
Proof.
  intros Hwf Hfw. unfold Recorder.recordMessage, Recorder.after_message.
  rewrite Hfw. cbv zeta.
  pose proof (wf_clean st Hwf _ fw Hfw) as Hclean.
  pose proof (wf_open st Hwf _ fw Hfw) as Hopen.
  cbn [messageBuffer].
  destruct (bufferSize (recorder st) <=? _); [|reflexivity].
  rewrite flushFileWriter_open by assumption. reflexivity.
Qed.

(** [recordMessage] when the key has no writer. *)
Lemma recordMessage_missing (msg : Message) (st : State) :
  wf st ->
  currentFiles (recorder st) !! file_key (Platform msg) (Channel msg) = None ->
  let r := recorder st in
  let path := segment_path r (Platform msg) (Channel msg) (now (world st)) in
  let new := after_message r (fresh_writer r (Platform msg) (Channel msg) (world st))
               msg (created path (world st)) in
  recordMessage msg st
  = if decide (path ∈ denied (world st))
    then (Some (ErrCreateFileWriter (ErrCreateFile (ErrPath "open" path))), st)
    else (None,
          mkState (set_files r (<[file_key (Platform msg) (Channel msg) := new.1]>
                                  (currentFiles r)))
                  new.2 (fileChan st)).
Proof.
  intros Hwf Hnone r path new. subst new.
  unfold Recorder.recordMessage, Recorder.after_message.
  rewrite Hnone. cbv zeta. rewrite createFileWriter_eq. fold r path.
  destruct (decide (path ∈ denied (world st)));
    [cbv beta iota; unfold r; now rewrite state_eta|].
  cbn [messageBuffer fresh_writer file writer createdAt bytesWritten platform
       channel filename name].
  destruct (bufferSize r <=? _); [|reflexivity].
  rewrite flushFileWriter_open; [reflexivity|reflexivity|].
  cbn [file fd created open_fds]. set_solver.
Qed.

End Messages.

Section Tidy.
Import GoOS Recorder Recorder.
Variable json_Marshal : Message -> result string.

Abbreviation encode := (Recorder.encode json_Marshal).
Abbreviation count := (Recorder.count json_Marshal).
Abbreviation after_message := (Recorder.after_message json_Marshal).

Lemma tidy_writer_disk (r r' : Recorder) (w w' : World) (x : fileWriter) :
  bufferSize r' = bufferSize r ->
  disk w' !! name (file x) = disk w !! name (file x) ->
  tidy_writer r w x -> tidy_writer r' w' x.
Proof. unfold tidy_writer. intros -> ->. auto. Qed.

(** A message through a tidy writer leaves it tidy, and no other file
    is touched. *)
Lemma tidy_after_message (r : Recorder) (fw : fileWriter) (msg : Message) (w : World) :
  tidy_writer r w fw ->
  let new := after_message r fw msg w in
  tidy_writer r new.2 new.1
  /\ file new.1 = file fw
  /\ (forall p, p <> name (file fw) -> disk new.2 !! p = disk w !! p).
Proof.
  intros (Hlen & (body & Hbody & Hbytes) & Hstamp).
  unfold Recorder.after_message. cbv zeta.
  destruct (Z.leb_spec (bufferSize r) (Z.of_nat (length (messageBuffer fw ++ [msg]))))
    as [Hfull|Hroom]; cbn [fst snd]; (split; [|split; [reflexivity|]]).
  - split; [cbn [messageBuffer length]; lia|]. split; [|exact Hstamp].
    exists (body +:+ encode (messageBuffer fw ++ [msg])).
    cbn [file bytesWritten appended disk]. rewrite lookup_alter_eq, Hbody.
    split; [reflexivity|].
    rewrite Hbytes, (count_bytes json_Marshal), string_app_length. f_equal. lia.
  - intros p Hp. cbn [appended disk]. now apply lookup_alter_ne.
  - split; [cbn [messageBuffer]; lia|]. split; [|exact Hstamp]. exists body. auto.
  - reflexivity.
Qed.

Lemma tidy_update (st : State) (key : string) (fw fw' : fileWriter)
    (w' : World) (c : Chan) :
  wf st -> tidy st ->
  currentFiles (recorder st) !! key = Some fw ->
  tidy_writer (recorder st) w' fw' ->
  (forall p, p <> name (file fw) -> disk w' !! p = disk (world st) !! p) ->
  tidy (mkState (set_files (recorder st) (<[key := fw']> (currentFiles (recorder st))))
                w' c).
Proof.
  intros Hwf Ht Hfw Hnew Hdisk k x Hk.
  cbn [recorder world set_files currentFiles] in Hk |- *.
  rewrite lookup_insert in Hk. case_decide as Hkk.
  - injection Hk as <-. exact Hnew.
  - apply (tidy_writer_disk (recorder st) _ (world st)); [reflexivity| |now apply (Ht k)].
    apply Hdisk. intros Heq. apply Hkk. symmetry.
    exact (wf_name_inj st k key x fw Hwf Hk Hfw Heq).
Qed.

Lemma tidy_drop (st : State) (key : string) (fw : fileWriter) (data : string) (c : Chan) :
  wf st -> tidy st ->
  currentFiles (recorder st) !! key = Some fw ->
  tidy (mkState (set_files (recorder st) (delete key (currentFiles (recorder st))))
                (closed (fd (file fw)) (appended (name (file fw)) data (world st))) c).
Proof.
  intros Hwf Ht Hfw k x Hk.
  cbn [recorder world set_files currentFiles] in Hk |- *.
  rewrite lookup_delete in Hk. case_decide as Hkk; [discriminate|].
  apply (tidy_writer_disk (recorder st) _ (world st)); [reflexivity| |now apply (Ht k)].
  cbn [closed appended disk]. apply lookup_alter_ne.
  intros Heq. apply Hkk. exact (wf_name_inj st key k fw x Hwf Hfw Hk Heq).
Qed.

Lemma tidy_install (st : State) (p c : string) (fw' : fileWriter) (w' : World) (ch : Chan) :
  wf st -> tidy st ->
  let r := recorder st in
  let path := segment_path r p c (now (world st)) in
  tidy_writer r w' fw' ->
  (forall q, q <> path -> disk w' !! q = disk (world st) !! q) ->
  tidy (mkState (set_files r (<[file_key p c := fw']> (currentFiles r))) w' ch).
Proof.
  intros Hwf Ht r path Hnew Hdisk k x Hk.
  cbn [recorder world set_files currentFiles] in Hk |- *.
  rewrite lookup_insert in Hk. case_decide as Hkk.
  - injection Hk as <-. exact Hnew.
  - apply (tidy_writer_disk (recorder st) _ (world st)); [reflexivity| |now apply (Ht k)].
    apply Hdisk. apply (wf_other_path st k x p c); auto.
Qed.

Lemma tidy_fresh (r : Recorder) (p c : string) (w : World) :
  tidy_writer r (created (segment_path r p c (now w)) w) (fresh_writer r p c w).
Proof.
  split; [cbn [fresh_writer messageBuffer length]; lia|]. split; [|reflexivity].
  exists EmptyString. cbn [fresh_writer file name created disk bytesWritten].
  rewrite lookup_insert_eq. split; reflexivity.
Qed.

Lemma tidy_recordMessage (msg : Message) (st : State) :
  wf st -> tidy st -> tidy (Recorder.recordMessage json_Marshal msg st).2.
Proof.
  intros Hwf Ht.
  destruct (currentFiles (recorder st) !! file_key (Platform msg) (Channel msg))
    as [fw|] eqn:Hfw.
  - rewrite (recordMessage_found json_Marshal msg st fw Hwf Hfw). cbn [snd].
    destruct (tidy_after_message (recorder st) fw msg (world st) (Ht _ _ Hfw))
      as (Hnew & _ & Hdisk).
    now apply (tidy_update st _ fw).
  - pose proof (recordMessage_missing json_Marshal msg st Hwf Hfw) as E.
    cbv zeta in E. rewrite E. clear E.
    destruct (decide (_ ∈ denied (world st))); [exact Ht|]. cbn [snd].
    set (r := recorder st).
    set (path := segment_path r (Platform msg) (Channel msg) (now (world st))).
    destruct (tidy_after_message r
                (fresh_writer r (Platform msg) (Channel msg) (world st)) msg
                (created path (world st)) (tidy_fresh r _ _ (world st)))
      as (Hnew & _ & Hdisk).
    apply tidy_install; [exact Hwf | exact Ht | exact Hnew |].
    intros q Hq. rewrite Hdisk by exact Hq.
    cbn [created disk]. now apply lookup_insert_ne.
Qed.

Lemma tidy_rotateFile (key : string) (fw : fileWriter) (st : State) :
  wf st -> tidy st -> currentFiles (recorder st) !! key = Some fw ->
  tidy (Recorder.rotateFile json_Marshal key fw st).
Proof.
  intros Hwf Ht Hfw.
  pose proof (rotateFile_eq json_Marshal key fw st) as E. cbv zeta in E.
  rewrite (finish_world_open json_Marshal fw (world st)
             (wf_clean st Hwf key fw Hfw) (wf_open st Hwf key fw Hfw)) in E.
  rewrite E. clear E.
  set (c1 := (trySend _ _).2).
  pose proof (wf_drop st key fw (encode (messageBuffer fw)) c1 Hwf Hfw) as Hwd.
  pose proof (tidy_drop st key fw (encode (messageBuffer fw)) c1 Hwf Ht Hfw) as Htd.
  destruct (decide (_ ∈ denied (world st))); [exact Htd|].
  pose proof (tidy_install _ (platform fw) (channel fw)
                (fresh_writer (recorder st) (platform fw) (channel fw)
                   (closed (fd (file fw))
                      (appended (name (file fw)) (encode (messageBuffer fw)) (world st))))
                (created (segment_path (recorder st) (platform fw) (channel fw)
                            (now (world st)))
                   (closed (fd (file fw))
                      (appended (name (file fw)) (encode (messageBuffer fw)) (world st))))
                c1 Hwd Htd) as Hi.
  cbv zeta in Hi. cbn [recorder world set_files currentFiles outputDir] in Hi.
  rewrite <- (wf_key st Hwf key fw Hfw) in Hi.
  rewrite insert_delete_eq in Hi. apply Hi.
  - apply (tidy_fresh (recorder st) (platform fw) (channel fw)
             (closed (fd (file fw))
                (appended (name (file fw)) (encode (messageBuffer fw)) (world st)))).
  - intros q Hq. cbn [created disk]. now apply lookup_insert_ne.
Qed.

Lemma tidy_checkOne (st : State) (key : string) :
  wf st -> tidy st -> tidy (Recorder.checkOne json_Marshal st key).
Proof.
  intros Hwf Ht. unfold Recorder.checkOne.
  destruct (currentFiles (recorder st) !! key) as [fw|] eqn:Hfw; [|exact Ht].
  destruct (needsRotation _ _ _); [|exact Ht].
  now apply tidy_rotateFile.
Qed.

Lemma tidy_flushOne (st : State) (key : string) :
  wf st -> tidy st -> tidy (Recorder.flushOne json_Marshal st key).
Proof.
  intros Hwf Ht.
  destruct (currentFiles (recorder st) !! key) as [fw|] eqn:Hfw.
  - rewrite (flushOne_eq json_Marshal st key fw Hwf Hfw). now apply tidy_drop.
  - unfold Recorder.flushOne. now rewrite Hfw.
Qed.

Lemma tidy_fold (step : State -> string -> State) (keys : list string) :
  (forall st key, wf st -> wf (step st key)) ->
  (forall st key, wf st -> tidy st -> tidy (step st key)) ->
  forall st, wf st -> tidy st -> tidy (fold_left step keys st).
Proof.
  intros Hwf Hstep. induction keys as [|key keys IH]; intros st H1 H2; simpl; auto.
Qed.

(** The writers are tidy all along the loop of [Start]. *)
Lemma tidy_Start (steps : list step) :
  forall st, wf st -> tidy st -> tidy (Recorder.Start json_Marshal steps st).2.
Proof.
  induction steps as [|s steps IH]; intros st Hwf Ht; [exact Ht|].
  destruct s; cbn [Recorder.Start].
  - apply IH; [now apply wf_recordMessage | now apply tidy_recordMessage].
  - apply IH; [now apply wf_checkRotation_in|].
    apply tidy_fold; auto using wf_checkOne, tidy_checkOne.
  - cbn [snd]. apply tidy_fold; auto using wf_flushOne, tidy_flushOne.
  - apply IH; [destruct Hwf; constructor; assumption | exact Ht].
  - apply IH; [destruct Hwf; constructor; assumption | exact Ht].
  - apply IH; [destruct Hwf; constructor; assumption | exact Ht].
Qed.

End Tidy.

Section Streams.
Import GoOS Recorder Recorder.
Variable json_Marshal : Message -> result string.

Abbreviation encode := (Recorder.encode json_Marshal).
Abbreviation line := (Recorder.line json_Marshal).
Abbreviation after_message := (Recorder.after_message json_Marshal).
Abbreviation stream := (Recorder.stream json_Marshal).
Abbreviation holds := (Recorder.holds json_Marshal).
Abbreviation flushOne := (Recorder.flushOne json_Marshal).
Abbreviation flushAll_in := (Recorder.flushAll_in json_Marshal).

Lemma for_key_snoc (key : string) (msgs : list Message) (msg : Message) :
  for_key key (msgs ++ [msg])
  = for_key key msgs
    ++ (if decide (file_key (Platform msg) (Channel msg) = key) then [msg] else []).
Proof.
  unfold for_key. now rewrite filter_app.
Qed.

(** What a message through a writer adds to its segment. *)
Lemma after_message_stream (r : Recorder) (fw : fileWriter) (msg : Message)
    (w : World) (body : string) :
  disk w !! name (file fw) = Some body ->
  let new := after_message r fw msg w in
  exists body',
    disk new.2 !! name (file new.1) = Some body'
    /\ body' +:+ encode (messageBuffer new.1)
       = (body +:+ encode (messageBuffer fw)) +:+ line msg
    /\ file new.1 = file fw
    /\ (forall p, p <> name (file fw) -> disk new.2 !! p = disk w !! p)
    /\ (forall p, is_Some (disk new.2 !! p) <-> is_Some (disk w !! p)).
Proof.
  intros Hbody. unfold Recorder.after_message. cbv zeta.
  destruct (bufferSize r <=? _); cbn [fst snd file messageBuffer].
  - exists (body +:+ encode (messageBuffer fw ++ [msg])).
    cbn [appended disk]. rewrite lookup_alter_eq, Hbody.
    split; [reflexivity|]. split.
    { cbn [Recorder.encode]. rewrite string_app_nil_r, encode_app, encode_one.
      now rewrite string_app_assoc. }
    split; [reflexivity|]. split.
    + intros p Hp. now apply lookup_alter_ne.
    + intros p. apply (appended_some _ _ p w).
  - exists body. split; [exact Hbody|]. split.
    { rewrite encode_app, encode_one. now rewrite string_app_assoc. }
    split; [reflexivity|]. split; [reflexivity|tauto].
Qed.

(** What [recordMessage] does to the segments when it can go through:
    the key of the message has a writer, or [os.Create] accepts the
    path of a new segment. *)
Lemma recordMessage_effect (msg : Message) (st : State) :
  wf st ->
  let key0 := file_key (Platform msg) (Channel msg) in
  let path := segment_path (recorder st) (Platform msg) (Channel msg) (now (world st)) in
  is_Some (currentFiles (recorder st) !! key0) \/ path ∉ denied (world st) ->
  let st' := (Recorder.recordMessage json_Marshal msg st).2 in
  (Recorder.recordMessage json_Marshal msg st).1 = None
  /\ is_Some (currentFiles (recorder st') !! key0)
  /\ stream st' key0 = stream st key0 +:+ line msg
  /\ (forall key, key <> key0 ->
        currentFiles (recorder st') !! key = currentFiles (recorder st) !! key
        /\ stream st' key = stream st key)
  /\ denied (world st') = denied (world st)
  /\ (forall p, is_Some (disk (world st') !! p) ->
        is_Some (disk (world st) !! p)
        \/ exists fw', currentFiles (recorder st') !! key0 = Some fw'
                       /\ name (file fw') = p)
  /\ (forall fw, currentFiles (recorder st) !! key0 = Some fw ->
        exists fw', currentFiles (recorder st') !! key0 = Some fw'
                    /\ name (file fw') = name (file fw)).
Proof.
  intros Hwf key0 path Hcan st'.
  destruct (currentFiles (recorder st) !! key0) as [fw|] eqn:Hfw.
  - pose proof (recordMessage_found json_Marshal msg st fw Hwf Hfw) as E.
    fold key0 in E. subst st'. rewrite E. cbn [fst snd]. clear E.
    destruct (wf_on_disk st Hwf key0 fw Hfw) as [body Hbody].
    destruct (after_message_stream (recorder st) fw msg (world st) body Hbody)
      as (body' & Hb' & Hs & Hfile & Hother & Hdom).
    split; [reflexivity|].
    cbn [recorder world set_files currentFiles].
    split; [rewrite lookup_insert_eq; eauto|]. split; [|split; [|split; [|split]]].
    5:{ intros fw0 [= <-]. eexists. rewrite lookup_insert_eq. split; [reflexivity|].
        now rewrite Hfile. }
    + unfold Recorder.stream. cbn [recorder world set_files currentFiles].
      rewrite lookup_insert_eq, Hfw, Hb', Hbody. exact Hs.
    + intros key Hne. rewrite lookup_insert_ne by congruence.
      split; [reflexivity|].
      unfold Recorder.stream. cbn [recorder world set_files currentFiles].
      rewrite lookup_insert_ne by congruence.
      destruct (currentFiles (recorder st) !! key) as [x|] eqn:Hx; [|reflexivity].
      rewrite Hother; [reflexivity|].
      intros Heq. apply Hne. exact (wf_name_inj st key key0 x fw Hwf Hx Hfw Heq).
    + unfold Recorder.after_message. destruct (_ <=? _); reflexivity.
    + intros p Hp. left. now apply Hdom.
  - destruct Hcan as [[? Hcan]|Hcan]; [discriminate|].
    pose proof (recordMessage_missing json_Marshal msg st Hwf Hfw) as E.
    cbv zeta in E. fold key0 path in E. subst st'. rewrite E. clear E.
    destruct (decide (path ∈ denied (world st))); [contradiction|]. cbn [fst snd].
    set (r := recorder st) in *.
    set (fresh := fresh_writer r (Platform msg) (Channel msg) (world st)).
    assert (disk (created path (world st)) !! name (file fresh) = Some EmptyString)
      as Hbody by (cbn [created disk]; apply lookup_insert_eq).
    destruct (after_message_stream r fresh msg (created path (world st)) _ Hbody)
      as (body' & Hb' & Hs & Hfile & Hother & Hdom).
    split; [reflexivity|].
    cbn [recorder world set_files currentFiles].
    split; [rewrite lookup_insert_eq; eauto|]. split; [|split; [|split; [|split]]].
    5:{ intros fw0 Hfw0. exfalso. clear -Hfw Hfw0. subst r key0. congruence. }
    + unfold Recorder.stream. cbn [recorder world set_files currentFiles].
      rewrite lookup_insert_eq, Hb'. fold r. rewrite Hfw. exact Hs.
    + intros key Hne. rewrite lookup_insert_ne by congruence.
      split; [reflexivity|].
      unfold Recorder.stream. cbn [recorder world set_files currentFiles].
      rewrite lookup_insert_ne by congruence. fold r.
      destruct (currentFiles r !! key) as [x|] eqn:Hx; [|reflexivity].
      assert (name (file x) <> path) as Hp
        by (apply (wf_other_path st key x); auto).
      rewrite Hother by exact Hp. cbn [created disk].
      now rewrite lookup_insert_ne by congruence.
    + unfold Recorder.after_message. destruct (_ <=? _); reflexivity.
    + intros p Hp. apply Hdom in Hp. cbn [created disk] in Hp.
      rewrite lookup_insert in Hp. case_decide as Hpp.
      * right. eexists. rewrite lookup_insert_eq. split; [reflexivity|].
        rewrite Hfile. exact Hpp.
      * left. exact Hp.
Qed.

Lemma holds_initial (dir : string) (bufferSize rotateMinutes rotateMegabytes start : Z)
    (queue : nat) :
  holds [] (initial dir bufferSize rotateMinutes rotateMegabytes start queue).
Proof.
  constructor.
  - apply wf_initial.
  - reflexivity.
  - reflexivity.
  - intros key. cbn [initial recorder New currentFiles]. rewrite lookup_empty.
    split; [intros [? ?]; discriminate | intros H; now destruct H].
  - intros path [? H]. cbn [initial world disk] in H. now rewrite lookup_empty in H.
Qed.

Lemma holds_recordMessage (msgs : list Message) (msg : Message) (st : State) :
  holds msgs st ->
  holds (msgs ++ [msg]) (Recorder.recordMessage json_Marshal msg st).2.
Proof.
  intros [Hwf Hallowed Hstream Hkeys Hfiles].
  destruct (recordMessage_effect msg st Hwf) as (_ & Hsome & Hs0 & Hoth & Hden & Hdom & Hname).
  { right. rewrite Hallowed. apply not_elem_of_empty. }
  set (key0 := file_key (Platform msg) (Channel msg)) in *.
  set (st' := (Recorder.recordMessage json_Marshal msg st).2) in *.
  constructor.
  - now apply wf_recordMessage.
  - now rewrite Hden.
  - intros key. rewrite for_key_snoc. fold key0.
    destruct (decide (key0 = key)) as [<-|Hne].
    + rewrite Hs0, Hstream, encode_app, encode_one. reflexivity.
    + destruct (Hoth key ltac:(congruence)) as [_ ->].
      now rewrite app_nil_r.
  - intros key. rewrite for_key_snoc. fold key0.
    destruct (decide (key0 = key)) as [<-|Hne].
    + split; [intros _ H; now apply app_eq_nil in H as [_ H] | auto].
    + destruct (Hoth key ltac:(congruence)) as [-> _].
      rewrite app_nil_r. apply Hkeys.
  - intros p Hp. apply Hdom in Hp as [Hp|(fw' & Hfw' & Hp)]; [|eauto].
    destruct (Hfiles p Hp) as (key & fw & Hfw & Hn).
    destruct (decide (key = key0)) as [->|Hne].
    + destruct (Hname fw Hfw) as (fw' & Hfw' & Hn'). exists key0, fw'.
      split; [exact Hfw' | congruence].
    + exists key, fw. destruct (Hoth key Hne) as [-> _]. auto.
Qed.

Lemma holds_frame (msgs : list Message) (st : State) (t : Z) (c : Chan) :
  holds msgs st ->
  holds msgs (mkState (recorder st)
                (mkWorld t (disk (world st)) (open_fds (world st))
                   (next_fd (world st)) (denied (world st))) c).
Proof.
  intros [Hwf Hallowed Hstream Hkeys Hfiles]. constructor; try assumption.
  destruct Hwf. constructor; assumption.
Qed.

(** Along steps that neither rotate nor shut down. *)
Lemma holds_plain (steps : list step) :
  forallb is_plain steps = true ->
  forall (msgs : list Message) (st : State),
    holds msgs st ->
    (Recorder.Start json_Marshal steps st).1 = false
    /\ holds (msgs ++ messages steps) (Recorder.Start json_Marshal steps st).2.
Proof.
  induction steps as [|s steps IH]; intros Hplain msgs st H.
  - cbn [Recorder.Start messages flat_map fst snd]. now rewrite app_nil_r.
  - cbn [forallb] in Hplain. apply andb_true_iff in Hplain as [Hs Hplain].
    destruct s; try discriminate; cbn [Recorder.Start].
    + change (messages (Receive msg :: steps)) with (msg :: messages steps).
      replace (msgs ++ msg :: messages steps) with ((msgs ++ [msg]) ++ messages steps)
        by now rewrite <- app_assoc.
      apply (IH Hplain). now apply holds_recordMessage.
    + change (messages (Elapse d :: steps)) with (messages steps).
      apply (IH Hplain). unfold elapse. now apply holds_frame.
    + change (messages (Dequeue :: steps)) with (messages steps).
      apply (IH Hplain). unfold dequeue.
      pose proof (holds_frame msgs st (now (world st))
                    (mkChan (tail (queued (fileChan st))) (capacity (fileChan st))) H)
        as H'.
      destruct st as [r [t d o nf dn] c]. exact H'.
Qed.

Lemma Start_app (steps rest : list step) :
  forall st : State,
    (Recorder.Start json_Marshal steps st).1 = false ->
    Recorder.Start json_Marshal (steps ++ rest) st
    = Recorder.Start json_Marshal rest (Recorder.Start json_Marshal steps st).2.
Proof.
  induction steps as [|s steps IH]; intros st H; [reflexivity|].
  destruct s; cbn [app Recorder.Start] in *; try (now apply IH). discriminate.
Qed.

(** The shutdown flush puts the segment of every key it ranges over
    into its file. *)
Lemma flushAll_in_settles (keys : list string) :
  forall (st : State) (key : string) (fw : fileWriter) (body : string),
    wf st -> key ∈ keys ->
    currentFiles (recorder st) !! key = Some fw ->
    disk (world st) !! name (file fw) = Some body ->
    disk (world (flushAll_in keys st)) !! name (file fw)
    = Some (body +:+ encode (messageBuffer fw)).
Proof.
  induction keys as [|k keys IH]; intros st key fw body Hwf Hin Hfw Hbody.
  - now apply not_elem_of_nil in Hin.
  - unfold Recorder.flushAll_in in *. cbn [fold_left].
    destruct (decide (k = key)) as [->|Hne].
    + fold (flushAll_in keys (flushOne st key)).
      rewrite (flushAll_in_disk_other json_Marshal).
      * rewrite (flushOne_eq json_Marshal st key fw Hwf Hfw).
        cbn [world closed appended disk]. now rewrite lookup_alter_eq, Hbody.
      * now apply wf_flushOne.
      * intros k' x _ Hx Heq. rewrite (flushOne_files json_Marshal) in Hx.
        destruct (decide (k' = key)) as [|Hk']; [discriminate|].
        apply Hk'. exact (wf_name_inj st k' key x fw Hwf Hx Hfw Heq).
    + apply (IH _ key).
      * now apply wf_flushOne.
      * apply elem_of_cons in Hin as [->|Hin]; [congruence | exact Hin].
      * rewrite (flushOne_files json_Marshal).
        destruct (decide (key = k)); [congruence | exact Hfw].
      * rewrite (flushOne_disk_other json_Marshal); [exact Hbody | exact Hwf |].
        intros x Hx Heq. apply Hne. exact (wf_name_inj st k key x fw Hwf Hx Hfw Heq).
Qed.

Lemma flushAll_in_paths (keys : list string) (p : string) :
  forall st : State,
    wf st ->
    is_Some (disk (world (flushAll_in keys st)) !! p) ->
    is_Some (disk (world st) !! p).
Proof.
  induction keys as [|k keys IH]; intros st Hwf Hp; [exact Hp|].
  unfold Recorder.flushAll_in in *. cbn [fold_left] in Hp.
  apply IH in Hp; [|now apply wf_flushOne].
  destruct (currentFiles (recorder st) !! k) as [x|] eqn:Hx.
  - rewrite (flushOne_eq json_Marshal st k x Hwf Hx) in Hp.
    cbn [world closed] in Hp. now apply appended_some in Hp.
  - unfold Recorder.flushOne in Hp. now rewrite Hx in Hp.
Qed.

End Streams.

Section Settings.
Import GoOS Recorder Recorder.
Variable json_Marshal : Message -> result string.

(** The configuration of the recorder never changes. *)
Lemma settings_recordMessage (msg : Message) (st : State) :
  bufferSize (recorder (Recorder.recordMessage json_Marshal msg st).2)
  = bufferSize (recorder st).
Proof.
  unfold Recorder.recordMessage. cbv zeta.
  destruct (currentFiles (recorder st) !! _) as [fw|].
  - destruct (_ <=? _); [|reflexivity].
    destruct (Recorder.flushFileWriter _ _ _) as [[e fw2] w2]. reflexivity.
  - destruct (createFileWriter _ _ _ _) as [[fw|e] w1]; [|reflexivity].
    destruct (_ <=? _); [|reflexivity].
    destruct (Recorder.flushFileWriter _ _ _) as [[e fw2] w2]. reflexivity.
Qed.

Lemma settings_checkOne (st : State) (key : string) :
  bufferSize (recorder (Recorder.checkOne json_Marshal st key)) = bufferSize (recorder st).
Proof.
  unfold Recorder.checkOne.
  destruct (currentFiles (recorder st) !! key) as [fw|]; [|reflexivity].
  destruct (needsRotation _ _ _); [|reflexivity].
  rewrite (rotateFile_eq json_Marshal). cbv zeta.
  destruct (decide _); reflexivity.
Qed.

Lemma settings_flushOne (st : State) (key : string) :
  bufferSize (recorder (Recorder.flushOne json_Marshal st key)) = bufferSize (recorder st).
Proof.
  unfold Recorder.flushOne.
  destruct (currentFiles (recorder st) !! key) as [fw|]; [|reflexivity].
  rewrite (finishFile_eq json_Marshal). reflexivity.
Qed.

Lemma settings_fold (step : State -> string -> State) (keys : list string) :
  (forall st key, bufferSize (recorder (step st key)) = bufferSize (recorder st)) ->
  forall st, bufferSize (recorder (fold_left step keys st)) = bufferSize (recorder st).
Proof.
  intros Hstep. induction keys as [|key keys IH]; intros st; [reflexivity|].
  cbn [fold_left]. now rewrite IH.
Qed.

Lemma settings_Start (steps : list step) :
  forall st,
    bufferSize (recorder (Recorder.Start json_Marshal steps st).2)
    = bufferSize (recorder st).
Proof.
  induction steps as [|s steps IH]; intros st; [reflexivity|].
  destruct s; cbn [Recorder.Start snd]; rewrite ?IH.
  - apply settings_recordMessage.
  - apply settings_fold, settings_checkOne.
  - apply settings_fold, settings_flushOne.
  - reflexivity.
  - reflexivity.
  - reflexivity.
Qed.

End Settings.

Section RecorderRuns.
Import GoOS Recorder Examples.

(** X9 — along the loop of [Start], from a recorder as [New] makes it with a
    buffer size that is not negative (a negative one makes [make] panic in
    [createFileWriter]): every writer of the map holds an open descriptor,
    its file is on disk, nothing is held back in its [bufio.Writer], it is
    filed under the key of its platform and channel, and no two writers
    share a descriptor or a path. So no message is ever written to a closed
    file or to the file of another key. Paths are as [Join] gives them: a
    directory and names that [Clean] leaves as they are. *)
Theorem Start_keeps_writers_open (json_Marshal : Message -> result string)
    (steps : list step) (dir : string)
    (bufferSize rotateMinutes rotateMegabytes start : Z) (queue : nat) :
  0 <= bufferSize ->
  let st := (Start json_Marshal steps
               (initial dir bufferSize rotateMinutes rotateMegabytes start queue)).2 in
  forall key fw,
    currentFiles (recorder st) !! key = Some fw ->
    fd (file fw) ∈ open_fds (world st)
    /\ is_Some (disk (world st) !! name (file fw))
    /\ writer fw = GoBufio.NewWriter
    /\ key = file_key (platform fw) (channel fw)
    /\ forall key' fw',
         currentFiles (recorder st) !! key' = Some fw' -> key' <> key ->
         fd (file fw') <> fd (file fw) /\ name (file fw') <> name (file fw).
Proof.
  intros _ st key fw Hfw.
  assert (wf st) as Hwf by (apply wf_Start, wf_initial).
  split; [exact (wf_open st Hwf key fw Hfw)|].
  split; [exact (wf_on_disk st Hwf key fw Hfw)|].
  split; [exact (wf_clean st Hwf key fw Hfw)|].
  split; [exact (wf_key st Hwf key fw Hfw)|].
  intros key' fw' Hfw' Hne. split; intros Heq; apply Hne.
  - exact (wf_fd_inj st Hwf key' key fw' fw Hfw' Hfw Heq).
  - exact (wf_name_inj st key' key fw' fw Hwf Hfw' Hfw Heq).
Qed.

Lemma tidy_initial (dir : string) (bufferSize rotateMinutes rotateMegabytes start : Z)
    (queue : nat) :
  tidy (initial dir bufferSize rotateMinutes rotateMegabytes start queue).
Proof. intros key fw H. cbn in H. now rewrite lookup_empty in H. Qed.

(** X10 — along the loop of [Start], for a buffer size that is not negative:
    between two steps a writer holds fewer messages than [bufferSize] (none
    at all when [bufferSize] is 0 or 1): a buffer that has reached
    [bufferSize] has been written out. *)
Theorem Start_buffer_below_size (json_Marshal : Message -> result string)
    (steps : list step) (dir : string)
    (bufferSize rotateMinutes rotateMegabytes start : Z) (queue : nat) :
  0 <= bufferSize ->
  let st := (Start json_Marshal steps
               (initial dir bufferSize rotateMinutes rotateMegabytes start queue)).2 in
  forall key fw,
    currentFiles (recorder st) !! key = Some fw ->
    Z.of_nat (length (messageBuffer fw)) < Z.max 1 bufferSize
    /\ (bufferSize <= 1 -> messageBuffer fw = []).
Proof.
  intros _ st key fw Hfw.
  assert (tidy st) as Ht by (apply tidy_Start; [apply wf_initial | apply tidy_initial]).
  destruct (Ht key fw Hfw) as (Hlen & _ & _).
  assert (Recorder.bufferSize (recorder st) = bufferSize) as E
    by (subst st; now rewrite settings_Start).
  rewrite E in Hlen. split; [exact Hlen|].
  intros Hone. destruct (messageBuffer fw); [reflexivity|]. cbn [length] in Hlen. lia.
Qed.

(** X11 — along the loop of [Start], for a buffer size that is not negative:
    the counter [bytesWritten] of a writer is the size of its file (as an
    [int64]), so the size test of the rotation check compares the size of
    the file on disk. *)
Theorem Start_counts_file_bytes (json_Marshal : Message -> result string)
    (steps : list step) (dir : string)
    (bufferSize rotateMinutes rotateMegabytes start : Z) (queue : nat) :
  0 <= bufferSize ->
  let st := (Start json_Marshal steps
               (initial dir bufferSize rotateMinutes rotateMegabytes start queue)).2 in
  forall key fw,
    currentFiles (recorder st) !! key = Some fw ->
    exists body,
      disk (world st) !! name (file fw) = Some body
      /\ bytesWritten fw = wrap64 (Z.of_nat (String.length body))
      /\ (Z.of_nat (String.length body) <= maxInt64 ->
          bytesWritten fw = Z.of_nat (String.length body)).
Proof.
  intros _ st key fw Hfw.
  assert (tidy st) as Ht by (apply tidy_Start; [apply wf_initial | apply tidy_initial]).
  destruct (Ht key fw Hfw) as (_ & (body & Hbody & Hbytes) & _).
  exists body. split; [exact Hbody|]. split; [exact Hbytes|].
  intros Hsmall. rewrite Hbytes. apply wrap64_small. unfold minInt64. lia.
Qed.

(** X12 — [recordMessage] in a state of the invariant, for a buffer size
    that is not negative: when the key of the message has a writer, or
    [os.Create] accepts the path of a new segment, no error is returned, the
    segment of the key (the file and then the buffer) grows by the line of
    the message, and the writers and segments of the other keys are
    untouched; when the key has no writer and [os.Create] refuses, the error
    is returned and the state is unchanged: the message is dropped. Paths
    are as [Join] gives them: a directory and names that [Clean] leaves as
    they are. *)
Theorem recordMessage_appends_line (json_Marshal : Message -> result string)
    (msg : Message) (st : State) :
  wf st -> 0 <= bufferSize (recorder st) ->
  let key0 := file_key (Platform msg) (Channel msg) in
  let path := segment_path (recorder st) (Platform msg) (Channel msg) (now (world st)) in
  let st' := (recordMessage json_Marshal msg st).2 in
  (is_Some (currentFiles (recorder st) !! key0) \/ path ∉ denied (world st) ->
   (recordMessage json_Marshal msg st).1 = None
   /\ stream json_Marshal st' key0
      = stream json_Marshal st key0 +:+ line json_Marshal msg
   /\ forall key, key <> key0 ->
        currentFiles (recorder st') !! key = currentFiles (recorder st) !! key
        /\ stream json_Marshal st' key = stream json_Marshal st key)
  /\ (currentFiles (recorder st) !! key0 = None -> path ∈ denied (world st) ->
      recordMessage json_Marshal msg st
      = (Some (ErrCreateFileWriter (ErrCreateFile (ErrPath "open" path))), st)).
Proof.
  intros Hwf _ key0 path st'. split.
  - intros Hcan.
    destruct (recordMessage_effect json_Marshal msg st Hwf Hcan)
      as (He & _ & Hs & Hoth & _).
    auto.
  - intros Hnone Hden.
    pose proof (recordMessage_missing json_Marshal msg st Hwf Hnone) as E.
    cbv zeta in E. rewrite E. fold path.
    destruct (decide (path ∈ denied (world st))); [reflexivity|contradiction].
Qed.

Lemma recordMessage_appends_line_witness :
  (recordMessage marshal_plain gg one_writer).1 = None
  /\ stream marshal_plain (recordMessage marshal_plain gg one_writer).2 "twitch_ludwig"
     = stream marshal_plain one_writer "twitch_ludwig" +:+ line marshal_plain gg.
Proof.
  assert (0 <= bufferSize (recorder one_writer)) as Hsize
    by (vm_compute; discriminate).
  destruct (proj1 (recordMessage_appends_line marshal_plain gg one_writer one_writer_wf
                     Hsize))
    as (He & Hs & _).
  - left. exists hello_writer. exact one_writer_lookup.
  - split; [exact He | exact Hs].
Defined.

(** X13 — a run of the loop of [Start] with no rotation check before the
    shutdown, from a recorder as [New] makes it with a buffer size that is
    not negative: when [Start] has returned no writer is left, every key
    that a message came for has a file that holds the lines of its messages
    in the order of arrival, none missing and none twice, and there is no
    other file. Paths are as [Join] gives them: a directory and names that
    [Clean] leaves as they are. *)
Theorem Start_without_rotation_keeps_every_message
    (json_Marshal : Message -> result string) (steps : list step) (dir : string)
    (bufferSize rotateMinutes rotateMegabytes start : Z) (queue : nat) :
  0 <= bufferSize ->
  forallb is_plain steps = true ->
  let final := Start json_Marshal (steps ++ [Done])
                 (initial dir bufferSize rotateMinutes rotateMegabytes start queue) in
  final.1 = true
  /\ currentFiles (recorder final.2) = ∅
  /\ (forall key,
        for_key key (messages steps) <> [] ->
        exists path,
          disk (world final.2) !! path
          = Some (encode json_Marshal (for_key key (messages steps))))
  /\ (forall path body,
        disk (world final.2) !! path = Some body ->
        exists key,
          for_key key (messages steps) <> []
          /\ body = encode json_Marshal (for_key key (messages steps))).
Proof.
  intros _ Hplain final.
  set (st0 := initial dir bufferSize rotateMinutes rotateMegabytes start queue) in *.
  destruct (holds_plain json_Marshal steps Hplain [] st0 (holds_initial json_Marshal _ _ _ _ _ _))
    as [Hrun H].
  cbn [app] in H.
  assert (final = (true, flushAll json_Marshal (Start json_Marshal steps st0).2)) as ->
    by (subst final; now rewrite (Start_app json_Marshal steps [Done] st0 Hrun)).
  set (st := (Start json_Marshal steps st0).2) in *.
  destruct H as [Hwf Hallowed Hstream Hkeys Hfiles].
  assert (forall key fw, currentFiles (recorder st) !! key = Some fw ->
            disk (world (flushAll json_Marshal st)) !! name (file fw)
            = Some (encode json_Marshal (for_key key (messages steps)))) as Hsettled.
  { intros key fw Hfw. destruct (wf_on_disk st Hwf key fw Hfw) as [body Hbody].
    unfold flushAll.
    rewrite (flushAll_in_settles json_Marshal _ st key fw body Hwf); auto.
    - rewrite <- Hstream. unfold Recorder.stream. now rewrite Hfw, Hbody.
    - apply range_keys_all. rewrite Hfw. eauto. }
  cbn [fst snd]. split; [reflexivity|]. split; [|split].
  - apply map_eq. intros k. unfold flushAll.
    rewrite (flushAll_in_files json_Marshal), lookup_empty.
    destruct (decide (k ∈ range_keys st)) as [_|Hnot]; [reflexivity|].
    destruct (currentFiles (recorder st) !! k) eqn:Hk; [|reflexivity].
    exfalso. apply Hnot, range_keys_all. rewrite Hk. eauto.
  - intros key Hne. apply Hkeys in Hne as [fw Hfw].
    exists (name (file fw)). now apply Hsettled.
  - intros path body Hbody.
    assert (is_Some (disk (world st) !! path)) as Hp.
    { apply (flushAll_in_paths json_Marshal (range_keys st)); [exact Hwf|].
      unfold flushAll in Hbody. rewrite Hbody. eauto. }
    destruct (Hfiles path Hp) as (key & fw & Hfw & <-).
    exists key. split; [apply Hkeys; eauto|].
    rewrite (Hsettled key fw Hfw) in Hbody. congruence.
Qed.

Lemma Start_without_rotation_keeps_every_message_witness :
  let final := Start marshal_plain
                 ([Elapse (10 * GoTime.Second); Receive hello; Dequeue; Receive gg]
                  ++ [Done])
                 (initial "data" 100 60 1 t_start 100) in
  final.1 = true
  /\ currentFiles (recorder final.2) = ∅
  /\ (forall key,
        for_key key [hello; gg] <> [] ->
        exists path,
          disk (world final.2) !! path
          = Some (encode marshal_plain (for_key key [hello; gg])))
  /\ (forall path body,
        disk (world final.2) !! path = Some body ->
        exists key,
          for_key key [hello; gg] <> []
          /\ body = encode marshal_plain (for_key key [hello; gg])).
Proof.
  apply (Start_without_rotation_keeps_every_message marshal_plain
           [Elapse (10 * GoTime.Second); Receive hello; Dequeue; Receive gg]
           "data" 100 60 1 t_start 100); [lia | reflexivity].
Defined.

End RecorderRuns.

Section LaterMinute.
Import GoOS GoTime Recorder Examples.

(** X14 — along the loop of [Start], for a buffer size that is not negative
    and instants of the years 0 to 9999: a rotation in another minute than
    the one the writer was created in (as every rotation by age is, when
    [rotateMinutes] is 1 or more) gives the replacement another path, so the
    closed segment keeps what it held followed by the lines of the buffered
    messages, and the replacement starts an empty file. *)
Theorem rotateFile_later_minute_keeps_segment
    (json_Marshal : Message -> result string) (steps : list step) (dir : string)
    (bufferSize rotateMinutes rotateMegabytes start : Z) (queue : nat) :
  0 <= bufferSize ->
  let st := (Start json_Marshal steps
               (initial dir bufferSize rotateMinutes rotateMegabytes start queue)).2 in
  forall key fw,
    currentFiles (recorder st) !! key = Some fw ->
    0 <= Year (UTC (createdAt fw)) <= 9999 ->
    0 <= Year (UTC (now (world st))) <= 9999 ->
    now (world st) / Minute <> createdAt fw / Minute
    \/ (1 <= Recorder.rotateMinutes (recorder st)
        /\ timeLimit (recorder st) (world st) fw = true) ->
    let path := segment_path (recorder st) (platform fw) (channel fw) (now (world st)) in
    let st' := rotateFile json_Marshal key fw st in
    path <> name (file fw)
    /\ (exists old,
          disk (world st) !! name (file fw) = Some old
          /\ disk (world st') !! name (file fw)
             = Some (old +:+ encode json_Marshal (messageBuffer fw)))
    /\ (path ∉ denied (world st) ->
        exists newFw,
          currentFiles (recorder st') !! key = Some newFw
          /\ name (file newFw) = path
          /\ disk (world st') !! path = Some EmptyString).
Proof.
  intros _ st key fw Hfw Yc Yn Hlater path st'.
  assert (wf st) as Hwf by (apply wf_Start, wf_initial).
  assert (tidy st) as Ht by (apply tidy_Start; [apply wf_initial | apply tidy_initial]).
  destruct (Ht key fw Hfw) as (_ & _ & Hstamp).
  assert (now (world st) / Minute <> createdAt fw / Minute) as Hmin.
  { destruct Hlater as [H|[Hrm Hdue]]; [exact H|].
    unfold timeLimit, Sub in Hdue. apply Z.leb_le in Hdue.
    unfold Minute, Second, minInt64, maxInt64 in *.
    assert (60 * 1000000000 <= now (world st) - createdAt fw) as Hage by lia.
    intros Heq.
    pose proof (Z.div_mod (now (world st)) (60 * 1000000000) ltac:(lia)).
    pose proof (Z.div_mod (createdAt fw) (60 * 1000000000) ltac:(lia)).
    pose proof (Z.mod_pos_bound (now (world st)) (60 * 1000000000) ltac:(lia)).
    pose proof (Z.mod_pos_bound (createdAt fw) (60 * 1000000000) ltac:(lia)).
    lia. }
  assert (path <> name (file fw)) as Hpath.
  { intros Heq. apply Hmin.
    apply (segment_path_inj (recorder st) (platform fw) (channel fw)); [assumption..|].
    fold path. rewrite Heq, (wf_path st Hwf key fw Hfw), Hstamp. reflexivity. }
  split; [exact Hpath|].
  destruct (wf_on_disk st Hwf key fw Hfw) as [old Hold].
  pose proof (rotateFile_eq json_Marshal key fw st) as E. cbv zeta in E.
  rewrite (finish_world_open json_Marshal fw (world st)
             (wf_clean st Hwf key fw Hfw) (wf_open st Hwf key fw Hfw)) in E.
  fold path in E. subst st'. rewrite E. clear E.
  destruct (decide (path ∈ denied (world st))) as [Hden|Hok].
  - split; [|contradiction]. exists old. split; [exact Hold|].
    cbn [world closed appended disk]. now rewrite lookup_alter_eq, Hold.
  - split.
    + exists old. split; [exact Hold|].
      cbn [world created closed appended disk].
      rewrite lookup_insert_ne by exact Hpath. now rewrite lookup_alter_eq, Hold.
    + intros _. eexists. cbn [recorder world set_files currentFiles created disk].
      rewrite !lookup_insert_eq. split; [reflexivity|]. split; reflexivity.
Qed.

Lemma rotateFile_later_minute_keeps_segment_witness :
  let st := (Start marshal_plain
               [Elapse (10 * Second); Receive hello; Elapse (60 * Second)]
               (initial "data" 100 60 1 t_start 100)).2 in
  let st' := rotateFile marshal_plain "twitch_ludwig" hello_writer st in
  exists old,
    disk (world st) !! name (file hello_writer) = Some old
    /\ disk (world st') !! name (file hello_writer)
       = Some (old +:+ encode marshal_plain (messageBuffer hello_writer)).
Proof.
  refine (proj1 (proj2 (rotateFile_later_minute_keeps_segment marshal_plain
            [Elapse (10 * Second); Receive hello; Elapse (60 * Second)]
            "data" 100 60 1 t_start 100 _ "twitch_ludwig" hello_writer _ _ _ _))).
  - lia.
  - vm_compute. reflexivity.
  - vm_compute. split; discriminate.
  - vm_compute. split; discriminate.
  - left. vm_compute. discriminate.
Defined.

End LaterMinute.

Section RunWitnesses.
Import GoOS GoTime Recorder Examples.

Lemma Start_keeps_writers_open_witness :
  fd (file hello_writer) ∈ open_fds (world one_writer).
Proof.
  refine (proj1 (Start_keeps_writers_open marshal_plain
            [Elapse (10 * Second); Receive hello] "data" 100 60 1 t_start 0
            _ "twitch_ludwig" hello_writer _)).
  - lia.
  - exact one_writer_lookup.
Defined.

Lemma Start_buffer_below_size_witness :
  Z.of_nat (length (messageBuffer hello_writer)) < Z.max 1 100.
Proof.
  refine (proj1 (Start_buffer_below_size marshal_plain
            [Elapse (10 * Second); Receive hello] "data" 100 60 1 t_start 0
            _ "twitch_ludwig" hello_writer _)).
  - lia.
  - exact one_writer_lookup.
Defined.

Lemma Start_counts_file_bytes_witness :
  exists body,
    disk (world one_writer) !! name (file hello_writer) = Some body
    /\ bytesWritten hello_writer = wrap64 (Z.of_nat (String.length body))
    /\ (Z.of_nat (String.length body) <= maxInt64 ->
        bytesWritten hello_writer = Z.of_nat (String.length body)).
Proof.
  refine (Start_counts_file_bytes marshal_plain
            [Elapse (10 * Second); Receive hello] "data" 100 60 1 t_start 0
            _ "twitch_ludwig" hello_writer _).
  - lia.
  - exact one_writer_lookup.
Defined.

End RunWitnesses.

(** ** The recorder: rotations by age *)

Section Calm.
Import GoOS GoTime Recorder Recorder.

Lemma ascending_snoc (ts : list Z) (c : Z) :
  ascending ts -> Forall (fun t => t / Minute < c / Minute) ts -> ascending (ts ++ [c]).
Proof.
  induction ts as [|t ts IH]; intros Ha Hf; cbn [app ascending].
  - split; [constructor | exact I].
  - destruct Ha as [Ht Ha]. apply Forall_cons in Hf as [Htc Hf].
    split; [|now apply IH].
    apply Forall_app. split; [exact Ht|]. now constructor.
Qed.

Lemma ascending_last (ts : list Z) (c : Z) :
  ascending (ts ++ [c]) ->
  ascending ts /\ Forall (fun t => t / Minute < c / Minute) ts.
Proof.
  induction ts as [|t ts IH]; cbn [app ascending]; intros H.
  - split; [exact I | constructor].
  - destruct H as [Ht Ha]. apply Forall_app in Ht as [Ht Htc].
    destruct (IH Ha) as [Ha' Hf]. split; [split; assumption|].
    constructor; [|exact Hf]. now apply Forall_cons in Htc as [Htc _].
Qed.

Lemma contents_app (d : gmap string string) (a b : list string) :
  contents d (a ++ b) = contents d a +:+ contents d b.
Proof.
  induction a as [|p a IH]; cbn [app contents]; [now rewrite sapp_nil|].
  now rewrite IH, string_app_assoc.
Qed.

Lemma contents_agree (d d' : gmap string string) (paths : list string) :
  (forall p, p ∈ paths -> d' !! p = d !! p) -> contents d' paths = contents d paths.
Proof.
  induction paths as [|p paths IH]; intros H; [reflexivity|].
  cbn [contents]. rewrite H by apply list_elem_of_here.
  rewrite IH; [reflexivity|]. intros q Hq. apply H. now apply list_elem_of_further.
Qed.

(** The years of the instants that fit a count of nanoseconds in 64
    bits. *)
Lemma UTC_year_int64 (t : Z) :
  minInt64 <= t <= maxInt64 -> 0 <= Year (UTC t) <= 9999.
Proof.
  intros Ht. unfold UTC, civil_from_days.
  set (days := t / Minute / 1440).
  assert (-106752 <= days <= 106751) as Hdays.
  { unfold days, Minute, Second, minInt64, maxInt64 in *.
    change (60 * 1000000000) with 60000000000.
    rewrite Z.div_div by lia. change (60000000000 * 1440) with 86400000000000.
    split.
    - apply Z.div_le_lower_bound; lia.
    - apply Z.lt_succ_r, Z.div_lt_upper_bound; lia. }
  pose proof (Z.mod_pos_bound (days + 719468) 146097 ltac:(lia)) as Hdoe.
  pose proof (civil_of_doe_back _ Hdoe) as B.
  assert (4 <= (days + 719468) / 146097 <= 5) as Hera.
  { split; [apply Z.div_le_lower_bound; lia|].
    apply Z.lt_succ_r, Z.div_lt_upper_bound; lia. }
  destruct (civil_of_doe ((days + 719468) mod 146097)) as [[yoe m] d].
  destruct B as [_ Hyoe]. cbn [Year].
  destruct (m <=? 2); lia.
Qed.

Lemma segment_path_other_key (r : Recorder) (p1 c1 p2 c2 : string) (t1 t2 : Z) :
  file_key p1 c1 <> file_key p2 c2 ->
  segment_path r p1 c1 t1 <> segment_path r p2 c2 t2.
Proof.
  intros Hne Heq. apply Hne. unfold segment_path in Heq.
  apply Join_inj in Heq. now apply segment_name_key_inj in Heq.
Qed.

Lemma segment_path_other_minute (r : Recorder) (p c : string) (t1 t2 : Z) :
  minInt64 <= t1 <= maxInt64 -> minInt64 <= t2 <= maxInt64 ->
  t1 / Minute <> t2 / Minute ->
  segment_path r p c t1 <> segment_path r p c t2.
Proof.
  intros H1 H2 Hne Heq. apply Hne.
  apply (segment_path_inj r p c); auto using UTC_year_int64.
Qed.

(** The path of a writer of the map, by the instant it was created at. *)
Lemma writer_path (st : State) (key : string) (fw : fileWriter) :
  wf st -> tidy st -> currentFiles (recorder st) !! key = Some fw ->
  name (file fw)
  = segment_path (recorder st) (platform fw) (channel fw) (createdAt fw).
Proof.
  intros Hwf Ht Hfw. destruct (Ht key fw Hfw) as (_ & _ & Hstamp).
  rewrite (wf_path st Hwf key fw Hfw), Hstamp. reflexivity.
Qed.

End Calm.

Section Kept.
Import GoOS GoTime Recorder Recorder.
Variable json_Marshal : Message -> result string.

Abbreviation encode := (Recorder.encode json_Marshal).
Abbreviation line := (Recorder.line json_Marshal).
Abbreviation after_message := (Recorder.after_message json_Marshal).
Abbreviation stream := (Recorder.stream json_Marshal).
Abbreviation kept_key := (Recorder.kept_key json_Marshal).
Abbreviation keeps := (Recorder.keeps json_Marshal).
Abbreviation recordMessage := (Recorder.recordMessage json_Marshal).
Abbreviation checkOne := (Recorder.checkOne json_Marshal).

Lemma segment_path_dir (r r' : Recorder) (p c : string) (t : Z) :
  outputDir r' = outputDir r -> segment_path r' p c t = segment_path r p c t.
Proof. unfold segment_path. now intros ->. Qed.

(** The closed segments of a key are older than its writer, so they
    have other paths. *)
Lemma closed_path_other (st : State) (fw : fileWriter) (ts : list Z) (t : Z) :
  ascending (ts ++ [createdAt fw]) ->
  Forall (fun t =>
            minInt64 <= t
            /\ is_Some (disk (world st)
                         !! segment_path (recorder st) (platform fw) (channel fw) t)) ts ->
  createdAt fw <= now (world st) -> now (world st) <= maxInt64 ->
  t ∈ ts ->
  forall t', createdAt fw / Minute <= t' / Minute -> minInt64 <= t' <= maxInt64 ->
  segment_path (recorder st) (platform fw) (channel fw) t
  <> segment_path (recorder st) (platform fw) (channel fw) t'.
Proof.
  intros Ha Hf Hc Hnow Hin t' Hlater Ht'.
  apply ascending_last in Ha as [_ Ha].
  rewrite Forall_forall in Ha, Hf.
  specialize (Ha t Hin). destruct (Hf t Hin) as [Hlo _].
  apply segment_path_other_minute; [|exact Ht'|lia].
  split; [exact Hlo|].
  assert (t < createdAt fw); [|lia].
  apply Z.nle_gt. intros Hle.
  apply (Z.div_le_mono _ _ Minute) in Hle; [lia | unfold Minute, Second; lia].
Qed.

(** A key whose writer and files a step leaves alone. *)
Lemma kept_key_frame (msgs : list Message) (st st' : State) (key : string) :
  wf st -> tidy st ->
  kept_key msgs st key ->
  currentFiles (recorder st') !! key = currentFiles (recorder st) !! key ->
  outputDir (recorder st') = outputDir (recorder st) ->
  now (world st) <= now (world st') ->
  (forall fw t,
     currentFiles (recorder st) !! key = Some fw ->
     disk (world st') !! segment_path (recorder st) (platform fw) (channel fw) t
     = disk (world st) !! segment_path (recorder st) (platform fw) (channel fw) t) ->
  kept_key msgs st' key.
Proof.
  intros Hwf Ht [[Hnone Hempty]|(fw & ts & Hfw & Ha & Hf & Hc & Hcont)]
    Hmap Hdir Hnow Hdisk.
  - left. split; [now rewrite Hmap | exact Hempty].
  - right. exists fw, ts. split; [now rewrite Hmap|]. split; [exact Ha|].
    split.
    { eapply Forall_impl; [exact Hf|]. intros t [Hlo Hsome]. split; [exact Hlo|].
      rewrite (segment_path_dir _ _ _ _ _ Hdir), (Hdisk fw t Hfw). exact Hsome. }
    split; [lia|].
    assert (segment_path (recorder st') (platform fw) (channel fw) <$> ts
            = segment_path (recorder st) (platform fw) (channel fw) <$> ts) as ->.
    { apply list_fmap_ext. intros i t _. now apply segment_path_dir. }
    assert (contents (disk (world st'))
              (segment_path (recorder st) (platform fw) (channel fw) <$> ts)
            = contents (disk (world st))
                (segment_path (recorder st) (platform fw) (channel fw) <$> ts)) as ->.
    { apply contents_agree. intros q Hq.
      apply list_elem_of_fmap in Hq as (t & -> & _). now apply Hdisk. }
    assert (stream st' key = stream st key) as ->; [|exact Hcont].
    unfold Recorder.stream. rewrite Hmap, Hfw.
    rewrite (writer_path st key fw Hwf Ht Hfw), (Hdisk fw _ Hfw). reflexivity.
Qed.

Lemma after_message_facts (r : Recorder) (fw : fileWriter) (msg : Message) (w : World) :
  let new := after_message r fw msg w in
  file new.1 = file fw /\ platform new.1 = platform fw /\ channel new.1 = channel fw
  /\ createdAt new.1 = createdAt fw /\ now new.2 = now w
  /\ (forall q, q <> name (file fw) -> disk new.2 !! q = disk w !! q).
Proof.
  unfold Recorder.after_message. cbv zeta.
  destruct (bufferSize r <=? _); cbn [fst snd file platform channel createdAt];
    split_and!; try reflexivity.
  intros q Hq. cbn [appended disk]. now apply lookup_alter_ne.
Qed.

Lemma encode_snoc_key (msgs : list Message) (msg : Message) (key : string) :
  encode (for_key key (msgs ++ [msg]))
  = encode (for_key key msgs)
    +:+ (if decide (file_key (Platform msg) (Channel msg) = key)
         then line msg else EmptyString).
Proof.
  rewrite (for_key_snoc key msgs msg), (encode_app json_Marshal).
  destruct (decide _); [now rewrite (encode_one json_Marshal) | reflexivity].
Qed.

Lemma kept_key_ext (msgs msgs' : list Message) (st : State) (key : string) :
  for_key key msgs' = for_key key msgs -> kept_key msgs st key -> kept_key msgs' st key.
Proof. unfold Recorder.kept_key. now intros ->. Qed.

Lemma for_key_other (msgs : list Message) (msg : Message) (key : string) :
  file_key (Platform msg) (Channel msg) <> key ->
  for_key key (msgs ++ [msg]) = for_key key msgs.
Proof.
  intros Hne. rewrite (for_key_snoc key msgs msg).
  destruct (decide _); [contradiction | apply app_nil_r].
Qed.

(** A message keeps what was kept, and is kept itself. *)
Lemma kept_recordMessage (msgs : list Message) (msg : Message) (st : State) :
  wf st -> tidy st -> denied (world st) = ∅ ->
  minInt64 <= now (world st) <= maxInt64 ->
  (forall key, kept_key msgs st key) ->
  forall key, kept_key (msgs ++ [msg]) (recordMessage msg st).2 key.
Proof.
  intros Hwf Ht Hallowed Hnow Hkept key.
  set (key0 := file_key (Platform msg) (Channel msg)).
  set (path0 := segment_path (recorder st) (Platform msg) (Channel msg) (now (world st))).
  assert (is_Some (currentFiles (recorder st) !! key0) \/ path0 ∉ denied (world st))
    as Hcan by (right; rewrite Hallowed; apply not_elem_of_empty).
  destruct (recordMessage_effect json_Marshal msg st Hwf Hcan)
    as (_ & _ & Hs0 & Hoth & _).
  fold key0 in Hs0, Hoth.
  destruct (currentFiles (recorder st) !! key0) as [fw0|] eqn:Hfw0.
  - (* the key has a writer *)
    pose proof (recordMessage_found json_Marshal msg st fw0 Hwf Hfw0) as E.
    fold key0 in E.
    destruct (after_message_facts (recorder st) fw0 msg (world st))
      as (Hfile & Hp & Hc & Hcr & Hn & Hframe).
    set (new := after_message (recorder st) fw0 msg (world st)) in *.
    pose proof (writer_path st key0 fw0 Hwf Ht Hfw0) as Hpath0.
    destruct (decide (key0 = key)) as [<-|Hne].
    + unfold Recorder.kept_key. rewrite encode_snoc_key. fold key0.
      destruct (decide (key0 = key0)) as [_|]; [|contradiction].
      destruct (Hkept key0) as [[Hnone _]|(fw & ts & Hfw & Ha & Hf & Hcr' & Hcont)];
        [congruence|].
      assert (fw = fw0) as -> by congruence.
      assert (forall t, t ∈ ts ->
                disk new.2 !! segment_path (recorder st) (platform fw0) (channel fw0) t
                = disk (world st)
                    !! segment_path (recorder st) (platform fw0) (channel fw0) t) as Hsame.
      { intros t Hin. apply Hframe. rewrite Hpath0.
        apply (closed_path_other st fw0 ts t); auto; lia. }
      right. exists new.1, ts. rewrite E. cbn [snd recorder world].
      unfold set_files at 1. cbn [currentFiles].
      rewrite lookup_insert_eq. split; [reflexivity|].
      rewrite Hcr, Hp, Hc, Hn. split; [exact Ha|]. split.
      { rewrite Forall_forall in Hf |- *. intros t Hin. destruct (Hf t Hin) as [Hlo Hsome].
        split; [exact Hlo|].
        rewrite (segment_path_dir (recorder st)) by reflexivity.
        now rewrite (Hsame t Hin). }
      split; [exact Hcr'|].
      rewrite E in Hs0. cbn [snd] in Hs0. rewrite Hs0.
      rewrite <- Hcont, string_app_assoc.
      change (segment_path (set_files (recorder st)
                              (<[key0:=new.1]> (currentFiles (recorder st)))))
        with (segment_path (recorder st)).
      assert (contents (disk new.2)
                (segment_path (recorder st) (platform fw0) (channel fw0) <$> ts)
              = contents (disk (world st))
                  (segment_path (recorder st) (platform fw0) (channel fw0) <$> ts)) as ->;
        [|reflexivity].
      apply contents_agree. intros q Hq.
      apply list_elem_of_fmap in Hq as (t & -> & Hin). now apply Hsame.
    + apply (kept_key_ext msgs); [now apply for_key_other|].
      apply (kept_key_frame msgs st); auto.
      * now destruct (Hoth key ltac:(congruence)).
      * rewrite E. reflexivity.
      * rewrite E. cbn [snd world]. lia.
      * intros fw t Hfw. rewrite E. cbn [snd world]. apply Hframe.
        rewrite Hpath0. apply segment_path_other_key.
        rewrite <- (wf_key st Hwf key fw Hfw), <- (wf_key st Hwf key0 fw0 Hfw0).
        congruence.
  - (* the key has no writer *)
    pose proof (recordMessage_missing json_Marshal msg st Hwf Hfw0) as E.
    cbv zeta in E. fold key0 path0 in E.
    destruct (decide (path0 ∈ denied (world st))) as [Hden|_];
      [rewrite Hallowed in Hden; now apply not_elem_of_empty in Hden|].
    set (fresh := fresh_writer (recorder st) (Platform msg) (Channel msg) (world st)) in *.
    destruct (after_message_facts (recorder st) fresh msg (created path0 (world st)))
      as (Hfile & Hp & Hc & Hcr & Hn & Hframe).
    set (new := after_message (recorder st) fresh msg (created path0 (world st))) in *.
    destruct (decide (key0 = key)) as [<-|Hne].
    + unfold Recorder.kept_key. rewrite encode_snoc_key. fold key0.
      destruct (decide (key0 = key0)) as [_|]; [|contradiction].
      destruct (Hkept key0) as [[_ Hempty]|(fw & ts & Hfw & _)]; [|congruence].
      right. exists new.1, []. rewrite E. cbn [snd recorder world].
      unfold set_files at 1. cbn [currentFiles].
      rewrite lookup_insert_eq. split; [reflexivity|].
      rewrite Hcr, Hn.
      cbn [fresh fresh_writer createdAt created now app Recorder.ascending fmap
             list_fmap Recorder.contents].
      split; [split; [constructor | exact I]|]. split; [constructor|].
      split; [lia|].
      rewrite E in Hs0. cbn [snd] in Hs0. rewrite Hs0, Hempty.
      unfold Recorder.stream. rewrite Hfw0. reflexivity.
    + apply (kept_key_ext msgs); [now apply for_key_other|].
      apply (kept_key_frame msgs st); auto.
      * now destruct (Hoth key ltac:(congruence)).
      * rewrite E. reflexivity.
      * rewrite E. cbn [snd world]. rewrite Hn. cbn [created now]. lia.
      * intros fw t Hfw. rewrite E. cbn [snd world].
        assert (segment_path (recorder st) (platform fw) (channel fw) t <> path0) as Hq.
        { apply segment_path_other_key.
          rewrite <- (wf_key st Hwf key fw Hfw). fold key0. congruence. }
        rewrite Hframe by exact Hq. cbn [created disk]. now apply lookup_insert_ne.
Qed.

Lemma encode_for_key_le (key : string) (msgs : list Message) :
  (String.length (encode (for_key key msgs)) <= String.length (encode msgs))%nat.
Proof.
  induction msgs as [|m msgs IH]; [reflexivity|].
  unfold for_key in *. rewrite filter_cons.
  destruct (decide _); cbn [Recorder.encode]; rewrite ?string_app_length.
  all: fold (for_key key msgs) in *; lia.
Qed.

Lemma encode_prefix_le (msgs rest : list Message) :
  (String.length (encode msgs) <= String.length (encode (msgs ++ rest)))%nat.
Proof. rewrite (encode_app json_Marshal), string_app_length. lia. Qed.

(** While all that came is less than the size limit, no file has
    reached it. *)
Lemma kept_small (msgs : list Message) (st : State) (key : string) (fw : fileWriter) :
  tidy st -> kept_key msgs st key ->
  currentFiles (recorder st) !! key = Some fw ->
  Z.of_nat (String.length (encode msgs)) < rotateMegabytes (recorder st) <= 2 ^ 63 ->
  sizeLimit (recorder st) fw = false.
Proof.
  intros Ht [[Hnone _]|(fw' & ts & Hfw' & _ & _ & _ & Hcont)] Hfw Hsize; [congruence|].
  assert (fw' = fw) as -> by congruence.
  destruct (Ht key fw Hfw) as (_ & (body & Hbody & Hbytes) & _).
  unfold Recorder.stream in Hcont. rewrite Hfw, Hbody in Hcont. cbn [default id] in Hcont.
  apply (f_equal String.length) in Hcont. rewrite !string_app_length in Hcont.
  pose proof (encode_for_key_le key msgs) as Hle.
  unfold sizeLimit. apply Z.leb_gt.
  change (2 ^ 63) with 9223372036854775808 in Hsize.
  rewrite Hbytes, wrap64_small; [lia|].
  unfold minInt64, maxInt64. change (2 ^ 63) with 9223372036854775808. lia.
Qed.

Lemma segment_path_set_files (r : Recorder) (m : gmap string fileWriter)
    (p c : string) (t : Z) :
  segment_path (set_files r m) p c t = segment_path r p c t.
Proof. reflexivity. Qed.

Lemma files_set_files (r : Recorder) (m : gmap string fileWriter) :
  currentFiles (set_files r m) = m.
Proof. reflexivity. Qed.

(** A rotation by age closes a segment of an earlier minute and keeps
    it. *)
Lemma kept_checkOne (msgs : list Message) (st : State) (k : string) :
  keeps msgs st ->
  minInt64 <= now (world st) <= maxInt64 ->
  1 <= rotateMinutes (recorder st) ->
  Z.of_nat (String.length (encode msgs)) < rotateMegabytes (recorder st) <= 2 ^ 63 ->
  keeps msgs (checkOne st k).
Proof.
  intros (Hwf & Ht & Hallowed & Hkept) Hnow Hrm Hsize.
  destruct (checkOne_frame json_Marshal st k) as (_ & _ & _ & _ & Hden & _).
  split; [now apply wf_checkOne|]. split; [now apply tidy_checkOne|].
  split; [now rewrite Hden|]. clear Hden.
  intros key. unfold Recorder.checkOne.
  destruct (currentFiles (recorder st) !! k) as [fw0|] eqn:Hfw0; [|apply Hkept].
  unfold needsRotation.
  rewrite (kept_small msgs st k fw0 Ht (Hkept k) Hfw0 Hsize).
  destruct (timeLimit (recorder st) (world st) fw0) eqn:Hdue; [|apply Hkept].
  cbv beta zeta iota.
  pose proof (writer_path st k fw0 Hwf Ht Hfw0) as Hpath0.
  destruct (Hkept k) as [[Hnone _]|(fw & ts & Hfw & Ha & Hf & Hcr & Hcont)];
    [congruence|].
  assert (fw = fw0) as -> by congruence.
  destruct (Ht k fw0 Hfw0) as (_ & (body & Hbody & _) & _).
  assert (createdAt fw0 / Minute < now (world st) / Minute) as Hlater.
  { unfold timeLimit, Sub in Hdue. apply Z.leb_le in Hdue.
    unfold Minute, Second, minInt64, maxInt64 in *.
    assert (60 * 1000000000 <= now (world st) - createdAt fw0) as Hage by lia.
    pose proof (Z.div_mod (now (world st)) (60 * 1000000000) ltac:(lia)).
    pose proof (Z.div_mod (createdAt fw0) (60 * 1000000000) ltac:(lia)).
    pose proof (Z.mod_pos_bound (now (world st)) (60 * 1000000000) ltac:(lia)).
    pose proof (Z.mod_pos_bound (createdAt fw0) (60 * 1000000000) ltac:(lia)).
    nia. }
  set (path := segment_path (recorder st) (platform fw0) (channel fw0) (now (world st))).
  assert (path <> name (file fw0)) as Hpath.
  { rewrite Hpath0. apply segment_path_other_minute; lia. }
  assert (forall t, t ∈ ts ->
            segment_path (recorder st) (platform fw0) (channel fw0) t <> path
            /\ segment_path (recorder st) (platform fw0) (channel fw0) t
               <> name (file fw0)) as Hold.
  { intros t Hin. split.
    - apply (closed_path_other st fw0 ts t); auto; lia.
    - rewrite Hpath0. apply (closed_path_other st fw0 ts t); auto; lia. }
  pose proof (rotateFile_eq json_Marshal k fw0 st) as E. cbv zeta in E.
  rewrite (finish_world_open json_Marshal fw0 (world st)
             (wf_clean st Hwf k fw0 Hfw0) (wf_open st Hwf k fw0 Hfw0)) in E.
  fold path in E.
  destruct (decide (path ∈ denied (world st))) as [Hin|_];
    [rewrite Hallowed in Hin; now apply not_elem_of_empty in Hin|].
  rewrite E. clear E.
  set (c1 := (trySend _ _).2).
  set (w1 := closed (fd (file fw0))
               (appended (name (file fw0)) (encode (messageBuffer fw0)) (world st))).
  set (fresh := fresh_writer (recorder st) (platform fw0) (channel fw0) w1).
  assert (now (created path w1) = now (world st)) as N1 by reflexivity.
  assert (disk (created path w1) !! path = Some EmptyString) as D1.
  { unfold created. cbn [disk]. apply lookup_insert_eq. }
  assert (disk (created path w1) !! name (file fw0)
          = Some (body +:+ encode (messageBuffer fw0))) as D2.
  { unfold created, w1, closed, appended. cbn [disk].
    rewrite lookup_insert_ne by exact Hpath. now rewrite lookup_alter_eq, Hbody. }
  assert (forall q, q <> path -> q <> name (file fw0) ->
            disk (created path w1) !! q = disk (world st) !! q) as D3.
  { intros q Q1 Q2. unfold created, w1, closed, appended. cbn [disk].
    rewrite lookup_insert_ne by congruence. apply lookup_alter_ne. congruence. }
  assert (name (file fresh) = path) as F1 by reflexivity.
  assert (createdAt fresh = now (world st)) as F2 by reflexivity.
  assert (messageBuffer fresh = []) as F3 by reflexivity.
  assert (platform fresh = platform fw0) as F4 by reflexivity.
  assert (channel fresh = channel fw0) as F5 by reflexivity.
  clearbody fresh w1 c1.
  destruct (decide (k = key)) as [<-|Hne].
  - right. exists fresh, (ts ++ [createdAt fw0]).
    cbn [recorder world]. rewrite files_set_files.
    change (segment_path (set_files (recorder st) (<[k:=fresh]> (currentFiles (recorder st)))))
      with (segment_path (recorder st)).
    rewrite lookup_insert_eq. split; [reflexivity|].
    rewrite F2, F4, F5, N1.
    split.
    { apply ascending_snoc; [exact Ha|]. apply Forall_app. split.
      - destruct (ascending_last ts _ Ha) as [_ Hts].
        eapply Forall_impl; [exact Hts|]. cbv beta. intros t Hlt. lia.
      - constructor; [exact Hlater | constructor]. }
    split.
    { apply Forall_app. split.
      - rewrite Forall_forall in Hf |- *. intros t Hin.
        destruct (Hf t Hin) as [Hlo Hsome]. destruct (Hold t Hin) as [H1 H2].
        split; [exact Hlo|]. now rewrite D3.
      - constructor; [|constructor]. split; [lia|].
        rewrite <- Hpath0, D2. eauto. }
    split; [lia|].
    rewrite fmap_app, contents_app. cbn [fmap list_fmap Recorder.contents].
    rewrite <- Hpath0, D2.
    unfold Recorder.stream at 1. cbn [recorder world].
    rewrite files_set_files, lookup_insert_eq, F1, F3, D1.
    cbn [default Recorder.encode id]. rewrite !string_app_nil_r.
    rewrite <- Hcont. unfold Recorder.stream. rewrite Hfw0, Hbody. cbn [default id].
    assert (contents (disk (created path w1))
              (segment_path (recorder st) (platform fw0) (channel fw0) <$> ts)
            = contents (disk (world st))
                (segment_path (recorder st) (platform fw0) (channel fw0) <$> ts)) as ->;
      [|reflexivity].
    apply contents_agree. intros q Hq.
    apply list_elem_of_fmap in Hq as (t & -> & Hin). destruct (Hold t Hin) as [H1 H2].
    now apply D3.
  - apply (kept_key_frame msgs st); auto.
    + cbn [recorder]. rewrite files_set_files. now rewrite lookup_insert_ne.
    + cbn [world]. rewrite N1. lia.
    + intros fw t Hfwk. cbn [world].
      assert (file_key (platform fw) (channel fw)
              <> file_key (platform fw0) (channel fw0)) as Hkeys.
      { rewrite <- (wf_key st Hwf key fw Hfwk), <- (wf_key st Hwf k fw0 Hfw0).
        congruence. }
      apply D3; [|rewrite Hpath0]; now apply segment_path_other_key.
Qed.

Lemma recordMessage_frame (msg : Message) (st : State) :
  wf st ->
  let st' := (recordMessage msg st).2 in
  now (world st') = now (world st)
  /\ outputDir (recorder st') = outputDir (recorder st)
  /\ rotateMinutes (recorder st') = rotateMinutes (recorder st)
  /\ rotateMegabytes (recorder st') = rotateMegabytes (recorder st).
Proof.
  intros Hwf.
  destruct (currentFiles (recorder st) !! file_key (Platform msg) (Channel msg))
    as [fw|] eqn:Hfw.
  - rewrite (recordMessage_found json_Marshal msg st fw Hwf Hfw). cbv zeta. cbn [snd].
    destruct (after_message_facts (recorder st) fw msg (world st))
      as (_ & _ & _ & _ & Hn & _).
    cbn [world recorder]. now split_and!.
  - pose proof (recordMessage_missing json_Marshal msg st Hwf Hfw) as E.
    cbv zeta in E. rewrite E. cbv zeta. destruct (decide _); [now split_and!|].
    cbn [snd world recorder].
    match goal with
    | |- now (after_message ?r ?x ?m ?w).2 = _ /\ _ =>
        destruct (after_message_facts r x m w) as (_ & _ & _ & _ & Hn & _)
    end.
    rewrite Hn. now split_and!.
Qed.

Lemma keeps_checkRotation_in (msgs : list Message) (keys : list string) :
  forall st,
    keeps msgs st ->
    minInt64 <= now (world st) <= maxInt64 ->
    1 <= rotateMinutes (recorder st) ->
    Z.of_nat (String.length (encode msgs)) < rotateMegabytes (recorder st) <= 2 ^ 63 ->
    let st' := Recorder.checkRotation_in json_Marshal keys st in
    keeps msgs st'
    /\ now (world st') = now (world st)
    /\ outputDir (recorder st') = outputDir (recorder st)
    /\ rotateMinutes (recorder st') = rotateMinutes (recorder st)
    /\ rotateMegabytes (recorder st') = rotateMegabytes (recorder st).
Proof.
  induction keys as [|k keys IH]; intros st Hk Hnow Hrm Hsize; [now split_and!|].
  unfold Recorder.checkRotation_in in *. cbn [fold_left]. cbv zeta in IH.
  destruct (checkOne_frame json_Marshal st k) as (O & M & B & N & _). cbv zeta.
  destruct (IH (checkOne st k)) as (K' & N' & O' & M' & B').
  - now apply kept_checkOne.
  - now rewrite N.
  - now rewrite M.
  - now rewrite B.
  - split; [exact K'|]. split_and!; congruence.
Qed.

Lemma elapsed_nonneg (steps : list step) :
  forallb is_calm steps = true -> 0 <= elapsed steps.
Proof.
  induction steps as [|s steps IH]; cbn [forallb elapsed]; [lia|].
  intros H. apply andb_true_iff in H as [Hs H]. specialize (IH H).
  destruct s; cbn [is_calm] in Hs; try exact IH; try discriminate.
  apply Z.leb_le in Hs. lia.
Qed.

Lemma Start_cons_calm (s : step) (rest : list step) (st : State) :
  is_calm s = true ->
  Recorder.Start json_Marshal (s :: rest) st
  = Recorder.Start json_Marshal rest (Recorder.Start json_Marshal [s] st).2.
Proof. destruct s; cbn [is_calm]; intros H; try discriminate; reflexivity. Qed.

Lemma messages_cons (s : step) (rest : list step) :
  messages (s :: rest) = messages [s] ++ messages rest.
Proof. unfold messages. cbn [flat_map]. now rewrite app_nil_r. Qed.

Lemma elapsed_cons (s : step) (rest : list step) :
  elapsed (s :: rest) = elapsed [s] + elapsed rest.
Proof. destruct s; cbn [elapsed]; lia. Qed.

(** One step of a run without refusals of [os.Create], with a clock
    that does not go back and less to write than the size limit. *)
Lemma keeps_step (s : step) (msgs : list Message) (st : State) :
  is_calm s = true ->
  keeps msgs st ->
  minInt64 <= now (world st) ->
  now (world st) + elapsed [s] <= maxInt64 ->
  1 <= rotateMinutes (recorder st) ->
  Z.of_nat (String.length (encode (msgs ++ messages [s])))
    < rotateMegabytes (recorder st) <= 2 ^ 63 ->
  let st' := (Recorder.Start json_Marshal [s] st).2 in
  keeps (msgs ++ messages [s]) st'
  /\ now (world st') = now (world st) + elapsed [s]
  /\ outputDir (recorder st') = outputDir (recorder st)
  /\ rotateMinutes (recorder st') = rotateMinutes (recorder st)
  /\ rotateMegabytes (recorder st') = rotateMegabytes (recorder st).
Proof.
  intros Hs Hk Hlo Hhi Hrm Hsize.
  destruct s as [msg| | |d| |paths]; cbn [is_calm] in Hs; try discriminate;
    cbn [Recorder.Start messages flat_map elapsed app snd] in *;
    rewrite ?app_nil_r, ?Z.add_0_r in *.
  - (* a message *)
    destruct Hk as (Hwf & Ht & Hallowed & Hkept).
    destruct (recordMessage_frame msg st Hwf) as (N & O & M & B).
    split; [|now split_and!].
    split; [now apply wf_recordMessage|].
    split; [now apply tidy_recordMessage|]. split.
    + assert (is_Some (currentFiles (recorder st)
                         !! file_key (Platform msg) (Channel msg))
              \/ segment_path (recorder st) (Platform msg) (Channel msg)
                   (now (world st)) ∉ denied (world st)) as Hcan
        by (right; rewrite Hallowed; apply not_elem_of_empty).
      destruct (recordMessage_effect json_Marshal msg st Hwf Hcan)
        as (_ & _ & _ & _ & Hden & _).
      now rewrite Hden.
    + apply kept_recordMessage; auto.
  - (* a rotation check *)
    destruct (keeps_checkRotation_in msgs (range_keys st) st Hk
                ltac:(lia) Hrm Hsize) as (K & N & O & M & B).
    now split_and!.
  - (* the clock moves on *)
    apply Z.leb_le in Hs.
    destruct Hk as (Hwf & Ht & Hallowed & Hkept).
    split; [|now split_and!].
    split; [destruct Hwf; constructor; assumption|].
    split; [exact Ht|]. split; [exact Hallowed|].
    intros key. apply (kept_key_frame msgs st); auto.
    unfold elapse. cbn [world now]. lia.
  - (* the uploader takes a path *)
    destruct Hk as (Hwf & Ht & Hallowed & Hkept).
    split; [|now split_and!].
    split; [destruct Hwf; constructor; assumption|].
    split; [exact Ht|]. split; [exact Hallowed|].
    intros key. apply (kept_key_frame msgs st); auto.
    unfold dequeue. cbn [world]. lia.
Qed.

(** A run without refusals of [os.Create], with a clock that does not
    go back and less to write than the size limit, keeps every
    message. *)
Lemma keeps_calm (steps : list step) :
  forallb is_calm steps = true ->
  forall (msgs : list Message) (st : State),
    keeps msgs st ->
    minInt64 <= now (world st) ->
    now (world st) + elapsed steps <= maxInt64 ->
    1 <= rotateMinutes (recorder st) ->
    Z.of_nat (String.length (encode (msgs ++ messages steps)))
      < rotateMegabytes (recorder st) <= 2 ^ 63 ->
    let run := Recorder.Start json_Marshal steps st in
    run.1 = false
    /\ keeps (msgs ++ messages steps) run.2
    /\ now (world run.2) = now (world st) + elapsed steps
    /\ outputDir (recorder run.2) = outputDir (recorder st)
    /\ rotateMinutes (recorder run.2) = rotateMinutes (recorder st)
    /\ rotateMegabytes (recorder run.2) = rotateMegabytes (recorder st).
Proof.
  induction steps as [|s steps IH]; intros Hcalm msgs st Hk Hlo Hhi Hrm Hsize.
  - cbn [Recorder.Start messages flat_map fst snd elapsed] in *.
    rewrite app_nil_r, Z.add_0_r. now split_and!.
  - cbn [forallb] in Hcalm. apply andb_true_iff in Hcalm as [Hs Hcalm].
    pose proof (elapsed_nonneg steps Hcalm) as Hpos.
    pose proof (elapsed_nonneg [s] ltac:(cbn [forallb]; now rewrite Hs)) as Hpos1.
    rewrite messages_cons, app_assoc in Hsize |- *.
    rewrite elapsed_cons in Hhi |- *.
    rewrite (Start_cons_calm s steps st Hs). cbv zeta.
    destruct (keeps_step s msgs st Hs Hk Hlo ltac:(lia) Hrm) as (K & N & O & M & B).
    { pose proof (encode_prefix_le (msgs ++ messages [s]) (messages steps)). lia. }
    destruct (IH Hcalm (msgs ++ messages [s]) (Recorder.Start json_Marshal [s] st).2 K)
      as (R1 & R2 & R3 & R4 & R5 & R6); rewrite ?N, ?M, ?B; try lia; try assumption.
    split_and!; auto; first [lia | congruence].
Qed.

Lemma segment_name_file_key (p c stamp : string) :
  segment_name p c stamp = file_key p c +:+ "_" +:+ stamp +:+ ".jsonl".
Proof.
  unfold segment_name, file_key. now rewrite <- !string_app_assoc.
Qed.

Lemma segment_path_key (r : Recorder) (p c p' c' : string) (t : Z) :
  file_key p c = file_key p' c' -> segment_path r p c t = segment_path r p' c' t.
Proof.
  unfold segment_path. intros H. now rewrite !segment_name_file_key, H.
Qed.

Lemma keeps_initial (dir : string) (bs rm rmb start : Z) (queue : nat) :
  keeps [] (initial dir bs rm rmb start queue).
Proof.
  split; [apply wf_initial|]. split; [apply tidy_initial|]. split; [reflexivity|].
  intros key. left. split; [apply lookup_empty | reflexivity].
Qed.

Lemma flushAll_in_dir (keys : list string) :
  forall st, outputDir (recorder (Recorder.flushAll_in json_Marshal keys st))
             = outputDir (recorder st).
Proof.
  induction keys as [|k keys IH]; intros st; [reflexivity|].
  unfold Recorder.flushAll_in in *. cbn [fold_left]. rewrite IH.
  unfold Recorder.flushOne.
  destruct (currentFiles (recorder st) !! k) as [fw|]; [|reflexivity].
  rewrite (finishFile_eq json_Marshal). reflexivity.
Qed.

(** At the shutdown the segments of a key hold its messages. *)
Lemma keeps_flushAll (msgs : list Message) (st : State) :
  keeps msgs st -> now (world st) <= maxInt64 ->
  forall platform channel : string,
    let d := disk (world (Recorder.flushAll json_Marshal st)) in
    exists ts,
      ascending ts
      /\ Forall (fun t => minInt64 <= t <= maxInt64) ts
      /\ Forall (fun t =>
                   is_Some (d !! segment_path (recorder st) platform channel t)) ts
      /\ contents d (segment_path (recorder st) platform channel <$> ts)
         = encode (for_key (file_key platform channel) msgs).
Proof.
  intros (Hwf & Ht & Hallowed & Hkept) Hnow p c d.
  destruct (Hkept (file_key p c))
    as [[Hnone Hempty]|(fw & ts & Hfw & Ha & Hf & Hcr & Hcont)].
  - exists []. rewrite Hempty. split; [exact I|]. split; [constructor|].
    split; [constructor | reflexivity].
  - assert (forall t, segment_path (recorder st) p c t
                      = segment_path (recorder st) (platform fw) (channel fw) t) as E.
    { intros t. apply segment_path_key. apply (wf_key st Hwf _ fw Hfw). }
    destruct (Ht _ fw Hfw) as (_ & (body & Hbody & _) & _).
    pose proof (writer_path st _ fw Hwf Ht Hfw) as Hpath.
    assert (d !! name (file fw) = Some (body +:+ encode (messageBuffer fw))) as Dlast.
    { unfold d, Recorder.flushAll.
      apply (flushAll_in_settles json_Marshal _ st (file_key p c)); auto.
      apply range_keys_all. rewrite Hfw. eauto. }
    assert (forall t, t ∈ ts ->
              d !! segment_path (recorder st) (platform fw) (channel fw) t
              = disk (world st)
                  !! segment_path (recorder st) (platform fw) (channel fw) t) as Dold.
    { intros t Hin. unfold d, Recorder.flushAll.
      apply (flushAll_in_disk_other json_Marshal); [exact Hwf|].
      intros k x _ Hx. rewrite (writer_path st k x Hwf Ht Hx).
      destruct (decide (k = file_key p c)) as [->|Hne].
      - assert (x = fw) as -> by congruence.
        intros Heq. symmetry in Heq. revert Heq.
        apply (closed_path_other st fw ts t); auto; lia.
      - intros Heq. symmetry in Heq. revert Heq. apply segment_path_other_key.
        rewrite <- (wf_key st Hwf k x Hx), <- (wf_key st Hwf _ fw Hfw). congruence. }
    exists (ts ++ [createdAt fw]). split; [exact Ha|].
    assert (segment_path (recorder st) p c <$> ts ++ [createdAt fw]
            = segment_path (recorder st) (platform fw) (channel fw)
                <$> ts ++ [createdAt fw]) as ->
      by (apply list_fmap_ext; intros i t _; apply E).
    split.
    { apply Forall_app. split; [|constructor; [lia | constructor]].
      destruct (ascending_last ts _ Ha) as [_ Hts].
      rewrite Forall_forall in Hf, Hts |- *. intros t Hin.
      destruct (Hf t Hin) as [Hlo _]. specialize (Hts t Hin).
      split; [exact Hlo|].
      destruct (Z.le_gt_cases (createdAt fw) t) as [Hge|Hlt]; [|lia].
      pose proof (Z.div_le_mono (createdAt fw) t Minute ltac:(reflexivity) Hge). lia. }
    split.
    + apply (Forall_impl (fun t => is_Some (d !! segment_path (recorder st)
                                              (platform fw) (channel fw) t)));
        [|intros t; now rewrite E].
      apply Forall_app. split.
      * rewrite Forall_forall in Hf |- *. intros t Hin.
        rewrite (Dold t Hin). now destruct (Hf t Hin).
      * constructor; [|constructor]. rewrite <- Hpath, Dlast. eauto.
    + rewrite fmap_app, contents_app. cbn [fmap list_fmap Recorder.contents].
      rewrite <- Hpath, Dlast. cbn [default id]. rewrite string_app_nil_r.
      rewrite <- Hcont. unfold Recorder.stream. rewrite Hfw, Hbody. cbn [default id].
      f_equal. apply contents_agree. intros q Hq.
      apply list_elem_of_fmap in Hq as (t & -> & Hin). now apply Dold.
Qed.

(** Segments of one key created in minutes that go up have paths of
    their own. *)
Lemma ascending_paths (r : Recorder) (p c : string) (ts : list Z) :
  ascending ts -> Forall (fun t => minInt64 <= t <= maxInt64) ts ->
  NoDup (segment_path r p c <$> ts).
Proof.
  induction ts as [|t ts IH]; intros Ha Hr; [constructor|].
  destruct Ha as [Hlt Ha]. apply Forall_cons in Hr as [Ht Hr].
  rewrite fmap_cons. constructor; [|now apply IH].
  intros Hin. apply list_elem_of_fmap in Hin as (t' & Heq & Hin').
  rewrite Forall_forall in Hlt, Hr.
  specialize (Hlt t' Hin'). specialize (Hr t' Hin').
  apply segment_path_inj in Heq; auto using UTC_year_int64. lia.
Qed.

End Kept.

Section CalmRuns.
Import GoOS GoTime Recorder Examples.

(** X15 — a run of the loop of [Start] with rotation checks, from a recorder
    as [New] makes it with a buffer size that is not negative, while
    [os.Create] refuses nothing, the clock stays within [int64] and does not
    go back, [rotateMinutes] is 1 or more and all the lines together are
    shorter than the size limit (so every rotation is one by age): when
    [Start] has returned no writer is left, and for every platform and
    channel there are segments, created in minutes that go up and each with
    a path of its own, that are on disk and, read one after the other, hold
    the lines of the messages of the key in the order of arrival, none
    missing and none twice. Paths are as [Join] gives them: a directory and
    names that [Clean] leaves as they are. *)
Theorem Start_rotation_by_age_keeps_every_message
    (json_Marshal : Message -> result string) (steps : list step) (dir : string)
    (bufferSize rotateMinutes rotateMegabytes start : Z) (queue : nat) :
  forallb is_calm steps = true ->
  0 <= bufferSize -> 1 <= rotateMinutes ->
  minInt64 <= start -> start + elapsed steps <= maxInt64 ->
  Z.of_nat (String.length (encode json_Marshal (messages steps)))
    < wrap64 (wrap64 (rotateMegabytes * 1024) * 1024) ->
  let r := New dir bufferSize rotateMinutes rotateMegabytes in
  let final := Start json_Marshal (steps ++ [Done])
                 (initial dir bufferSize rotateMinutes rotateMegabytes start queue) in
  final.1 = true
  /\ currentFiles (recorder final.2) = ∅
  /\ forall platform channel : string,
       exists ts,
         ascending ts
         /\ NoDup (segment_path r platform channel <$> ts)
         /\ Forall (fun t =>
                      is_Some (disk (world final.2)
                                 !! segment_path r platform channel t)) ts
         /\ contents (disk (world final.2)) (segment_path r platform channel <$> ts)
            = encode json_Marshal
                (for_key (file_key platform channel) (messages steps)).
Proof.
  intros Hcalm _ Hrm Hlo Hhi Hsize r final.
  set (st0 := initial dir bufferSize rotateMinutes rotateMegabytes start queue) in *.
  assert (wrap64 (wrap64 (rotateMegabytes * 1024) * 1024) <= 2 ^ 63) as Hmax.
  { unfold wrap64.
    pose proof (Z.mod_pos_bound (wrap64 (rotateMegabytes * 1024) * 1024 + 2 ^ 63)
                  (2 ^ 64) ltac:(reflexivity)) as Hb.
    unfold wrap64 in Hb. change (2 ^ 64) with (2 * 2 ^ 63) in *.
    remember (2 ^ 63) as h. lia. }
  destruct (keeps_calm json_Marshal steps Hcalm [] st0
              (keeps_initial json_Marshal _ _ _ _ _ _) Hlo Hhi Hrm
              (conj Hsize Hmax)) as (Hrun & Hk & Hnow & Hdir & _).
  cbn [app] in Hk.
  pose proof (elapsed_nonneg steps Hcalm) as Hpos.
  change (now (world st0)) with start in Hnow.
  assert (final = (true, flushAll json_Marshal (Start json_Marshal steps st0).2)) as ->
    by (subst final; now rewrite (Start_app json_Marshal steps [Done] st0 Hrun)).
  set (st := (Start json_Marshal steps st0).2) in *.
  cbn [fst snd]. split; [reflexivity|]. split.
  - apply map_eq. intros k. unfold flushAll.
    rewrite (flushAll_in_files json_Marshal), lookup_empty.
    destruct (decide (k ∈ range_keys st)) as [_|Hnot]; [reflexivity|].
    destruct (currentFiles (recorder st) !! k) eqn:Hk'; [|reflexivity].
    exfalso. apply Hnot, range_keys_all. rewrite Hk'. eauto.
  - intros p c.
    destruct (keeps_flushAll json_Marshal (messages steps) st Hk ltac:(lia) p c)
      as (ts & Ha & Hr & Hf & Hcont).
    assert (forall t, segment_path (recorder st) p c t = segment_path r p c t) as E
      by (intros t; now apply segment_path_dir).
    exists ts. split; [exact Ha|]. split; [now apply ascending_paths|]. split.
    + eapply Forall_impl; [exact Hf|]. intros t. cbv beta. now rewrite E.
    + rewrite <- Hcont. f_equal. apply list_fmap_ext. intros i t _. now rewrite E.
Qed.

Lemma Start_rotation_by_age_keeps_every_message_witness :
  let r := New "data" 100 1 1 in
  let final := Start marshal_plain
                 ([Elapse (10 * Second); Receive hello; Elapse (60 * Second); Tick;
                   Receive gg] ++ [Done])
                 (initial "data" 100 1 1 t_start 100) in
  exists ts,
    ascending ts
    /\ NoDup (segment_path r "twitch" "ludwig" <$> ts)
    /\ Forall (fun t =>
                 is_Some (disk (world final.2)
                            !! segment_path r "twitch" "ludwig" t)) ts
    /\ contents (disk (world final.2)) (segment_path r "twitch" "ludwig" <$> ts)
       = encode marshal_plain [hello; gg].
Proof.
  refine (proj2 (proj2 (Start_rotation_by_age_keeps_every_message marshal_plain
            [Elapse (10 * Second); Receive hello; Elapse (60 * Second); Tick;
             Receive gg] "data" 100 1 1 t_start 100 _ _ _ _ _ _)) "twitch" "ludwig").
  - reflexivity.
  - lia.
  - lia.
  - vm_compute. discriminate.
  - vm_compute. discriminate.
  - vm_compute. reflexivity.
Defined.

End CalmRuns.

Section Retired.
Import GoOS GoTime Recorder Recorder.
Variable json_Marshal : Message -> result string.

Abbreviation encode := (Recorder.encode json_Marshal).
Abbreviation after_message := (Recorder.after_message json_Marshal).
Abbreviation kept_key := (Recorder.kept_key json_Marshal).
Abbreviation keeps := (Recorder.keeps json_Marshal).
Abbreviation recordMessage := (Recorder.recordMessage json_Marshal).
Abbreviation checkOne := (Recorder.checkOne json_Marshal).

Lemma minute_lt (t c : Z) : t / Minute < c / Minute -> t < c.
Proof.
  intros H. destruct (Z.le_gt_cases c t) as [Hge|Hlt]; [|lia].
  pose proof (Z.div_le_mono c t Minute ltac:(reflexivity) Hge). lia.
Qed.

(** The instant a writer of the map was created at. *)
Lemma kept_created (msgs : list Message) (st : State) (key : string) (fw : fileWriter) :
  keeps msgs st -> currentFiles (recorder st) !! key = Some fw ->
  minInt64 <= createdAt fw <= now (world st).
Proof.
  intros (_ & _ & _ & Hkept) Hfw.
  destruct (Hkept key) as [[Hnone _]|(fw' & ts & Hfw' & _ & _ & Hcr & _)];
    congruence.
Qed.

(** No writer of the map writes to a retired segment. *)
Lemma retired_not_writer (msgs : list Message) (st : State) (q : string) :
  keeps msgs st -> now (world st) <= maxInt64 -> retired st q ->
  forall key fw, currentFiles (recorder st) !! key = Some fw -> name (file fw) <> q.
Proof.
  intros Hk Hnow (key & fw & t & Hfw & -> & Hlo & Hlt & _) key' fw' Hfw'.
  pose proof Hk as (Hwf & Ht & _).
  rewrite (writer_path st key' fw' Hwf Ht Hfw').
  pose proof (kept_created msgs st key fw Hk Hfw) as Hc.
  pose proof (minute_lt _ _ Hlt) as Hlt'.
  destruct (decide (key' = key)) as [->|Hne].
  - assert (fw' = fw) as -> by congruence.
    apply segment_path_other_minute; lia.
  - apply segment_path_other_key.
    rewrite <- (wf_key st Hwf key' fw' Hfw'), <- (wf_key st Hwf key fw Hfw). congruence.
Qed.

(** A message leaves the retired segments and the queue alone. *)
Lemma retired_recordMessage (msgs : list Message) (msg : Message) (st : State)
    (q : string) :
  keeps msgs st -> now (world st) <= maxInt64 -> retired st q ->
  let st' := (recordMessage msg st).2 in
  retired st' q
  /\ disk (world st') !! q = disk (world st) !! q
  /\ fileChan st' = fileChan st.
Proof.
  intros Hk Hnow Hq.
  pose proof (retired_not_writer msgs st q Hk Hnow Hq) as Hother.
  pose proof Hk as (Hwf & Ht & Hallowed & _).
  destruct Hq as (key & fw & t & Hfw & Hqt & Hlo & Hlt & Hsome).
  set (key0 := file_key (Platform msg) (Channel msg)).
  destruct (currentFiles (recorder st) !! key0) as [fw0|] eqn:Hfw0.
  - pose proof (recordMessage_found json_Marshal msg st fw0 Hwf Hfw0) as E.
    fold key0 in E. cbv zeta. rewrite E. cbn [snd world fileChan recorder]. clear E.
    destruct (after_message_facts json_Marshal (recorder st) fw0 msg (world st))
      as (Hfile & Hp & Hc & Hcr & Hn & Hframe).
    set (new := after_message (recorder st) fw0 msg (world st)) in *.
    assert (disk new.2 !! q = disk (world st) !! q) as Hdisk.
    { apply Hframe. intros Heq. now apply (Hother key0 fw0 Hfw0). }
    split; [|split; [exact Hdisk | reflexivity]].
    destruct (decide (key = key0)) as [->|Hne].
    + assert (fw0 = fw) as -> by congruence.
      exists key0, new.1, t. cbn [recorder world].
      rewrite files_set_files, lookup_insert_eq.
      split; [reflexivity|]. rewrite Hp, Hc, Hcr, Hdisk. now split_and!.
    + exists key, fw, t. cbn [recorder world].
      rewrite files_set_files, lookup_insert_ne by congruence.
      rewrite Hdisk. now split_and!.
  - pose proof (recordMessage_missing json_Marshal msg st Hwf Hfw0) as E.
    cbv zeta in E. fold key0 in E. cbv zeta. rewrite E. clear E.
    set (path0 := segment_path (recorder st) (Platform msg) (Channel msg)
                    (now (world st))).
    destruct (decide (path0 ∈ denied (world st))) as [Hden|_];
      [rewrite Hallowed in Hden; now apply not_elem_of_empty in Hden|].
    cbn [snd world fileChan recorder].
    set (fresh := fresh_writer (recorder st) (Platform msg) (Channel msg) (world st)).
    destruct (after_message_facts json_Marshal (recorder st) fresh msg
                (created path0 (world st))) as (_ & _ & _ & _ & _ & Hframe).
    set (new := after_message (recorder st) fresh msg (created path0 (world st))) in *.
    assert (key <> key0) as Hne by congruence.
    assert (q <> path0) as Hq0.
    { rewrite Hqt. apply segment_path_other_key.
      rewrite <- (wf_key st Hwf key fw Hfw). exact Hne. }
    assert (disk new.2 !! q = disk (world st) !! q) as Hdisk.
    { rewrite Hframe by exact Hq0. cbn [created disk]. apply lookup_insert_ne.
      congruence. }
    split; [|split; [exact Hdisk | reflexivity]].
    exists key, fw, t. cbn [recorder world].
    rewrite files_set_files, lookup_insert_ne by congruence.
    rewrite Hdisk. now split_and!.
Qed.

(** What a rotation check does to one key while all that came is less
    than the size limit: nothing, or a rotation in a later minute than
    the one the segment was created in. *)
Lemma checkOne_calm (msgs : list Message) (st : State) (k : string) :
  keeps msgs st ->
  minInt64 <= now (world st) <= maxInt64 ->
  1 <= rotateMinutes (recorder st) ->
  Z.of_nat (String.length (encode msgs)) < rotateMegabytes (recorder st) <= 2 ^ 63 ->
  checkOne st k = st
  \/ exists fw0,
       currentFiles (recorder st) !! k = Some fw0
       /\ minInt64 <= createdAt fw0
       /\ createdAt fw0 / Minute < now (world st) / Minute
       /\ let r := recorder st in
          let w1 := closed (fd (file fw0))
                      (appended (name (file fw0)) (encode (messageBuffer fw0))
                         (world st)) in
          let path := segment_path r (platform fw0) (channel fw0) (now (world st)) in
          checkOne st k
          = mkState (set_files r (<[k := fresh_writer r (platform fw0) (channel fw0) w1]>
                                    (currentFiles r)))
                    (created path w1)
                    (trySend (name (file fw0)) (fileChan st)).2.
Proof.
  intros Hk Hnow Hrm Hsize. pose proof Hk as (Hwf & Ht & Hallowed & Hkept).
  unfold Recorder.checkOne.
  destruct (currentFiles (recorder st) !! k) as [fw0|] eqn:Hfw0; [|now left].
  unfold needsRotation.
  rewrite (kept_small json_Marshal msgs st k fw0 Ht (Hkept k) Hfw0 Hsize).
  destruct (timeLimit (recorder st) (world st) fw0) eqn:Hdue; [|now left].
  cbv beta zeta iota. right. exists fw0.
  pose proof (kept_created msgs st k fw0 Hk Hfw0) as Hcr.
  split; [reflexivity|]. split; [lia|]. split.
  { unfold timeLimit, Sub in Hdue. apply Z.leb_le in Hdue.
    unfold Minute, Second, minInt64, maxInt64 in *.
    assert (60 * 1000000000 <= now (world st) - createdAt fw0) as Hage by lia.
    pose proof (Z.div_mod (now (world st)) (60 * 1000000000) ltac:(lia)).
    pose proof (Z.div_mod (createdAt fw0) (60 * 1000000000) ltac:(lia)).
    pose proof (Z.mod_pos_bound (now (world st)) (60 * 1000000000) ltac:(lia)).
    pose proof (Z.mod_pos_bound (createdAt fw0) (60 * 1000000000) ltac:(lia)).
    nia. }
  pose proof (rotateFile_eq json_Marshal k fw0 st) as E. cbv zeta in E.
  rewrite (finish_world_open json_Marshal fw0 (world st)
             (wf_clean st Hwf k fw0 Hfw0) (wf_open st Hwf k fw0 Hfw0)) in E.
  rewrite <- (wf_path st Hwf k fw0 Hfw0) in E.
  destruct (decide (_ ∈ denied (world st))) as [Hin|_];
    [rewrite Hallowed in Hin; now apply not_elem_of_empty in Hin|].
  exact E.
Qed.

(** A rotation check of one key leaves the retired segments alone, and
    what it closes is retired. *)
Lemma retired_checkOne (msgs : list Message) (st : State) (k : string) :
  keeps msgs st ->
  minInt64 <= now (world st) <= maxInt64 ->
  1 <= rotateMinutes (recorder st) ->
  Z.of_nat (String.length (encode msgs)) < rotateMegabytes (recorder st) <= 2 ^ 63 ->
  let st' := checkOne st k in
  (forall q, retired st q ->
     retired st' q /\ disk (world st') !! q = disk (world st) !! q)
  /\ (forall q, q ∈ queued (fileChan st') ->
        q ∈ queued (fileChan st) \/ retired st' q).
Proof.
  intros Hk Hnow Hrm Hsize. pose proof Hk as (Hwf & Ht & Hallowed & Hkept).
  destruct (checkOne_calm msgs st k Hk Hnow Hrm Hsize)
    as [->|(fw0 & Hfw0 & Hlo0 & Hlater & E)]; [cbv zeta; auto|].
  cbv zeta in *. rewrite E. clear E.
  pose proof (writer_path st k fw0 Hwf Ht Hfw0) as Hpath0.
  pose proof (kept_created msgs st k fw0 Hk Hfw0) as Hcr0.
  destruct (Ht k fw0 Hfw0) as (_ & (body & Hbody & _) & _).
  set (path := segment_path (recorder st) (platform fw0) (channel fw0) (now (world st))).
  assert (path <> name (file fw0)) as Hpath.
  { rewrite Hpath0. apply segment_path_other_minute; lia. }
  set (w1 := closed (fd (file fw0))
               (appended (name (file fw0)) (encode (messageBuffer fw0)) (world st))).
  set (fresh := fresh_writer (recorder st) (platform fw0) (channel fw0) w1).
  assert (disk (created path w1) !! name (file fw0)
          = Some (body +:+ encode (messageBuffer fw0))) as D2.
  { unfold created, w1, closed, appended. cbn [disk].
    rewrite lookup_insert_ne by exact Hpath. now rewrite lookup_alter_eq, Hbody. }
  assert (forall q, q <> path -> q <> name (file fw0) ->
            disk (created path w1) !! q = disk (world st) !! q) as D3.
  { intros q Q1 Q2. unfold created, w1, closed, appended. cbn [disk].
    rewrite lookup_insert_ne by congruence. apply lookup_alter_ne. congruence. }
  assert (createdAt fresh = now (world st)) as F2 by reflexivity.
  assert (platform fresh = platform fw0) as F4 by reflexivity.
  assert (channel fresh = channel fw0) as F5 by reflexivity.
  clearbody fresh w1.
  split.
  - intros q Hq.
    pose proof (retired_not_writer msgs st q Hk ltac:(lia) Hq k fw0 Hfw0) as Hq0.
    destruct Hq as (key & fw & t & Hfw & Hqt & Hlo & Hlt & Hsome).
    pose proof (kept_created msgs st key fw Hk Hfw) as Hcr.
    pose proof (minute_lt _ _ Hlt) as Hlt'.
    assert (q <> path) as Hqp.
    { rewrite Hqt. destruct (decide (key = k)) as [->|Hne].
      - assert (fw = fw0) as -> by congruence.
        apply segment_path_other_minute; lia.
      - apply segment_path_other_key.
        rewrite <- (wf_key st Hwf key fw Hfw), <- (wf_key st Hwf k fw0 Hfw0).
        congruence. }
    assert (disk (created path w1) !! q = disk (world st) !! q) as Hdisk
      by (apply D3; congruence).
    split; [|exact Hdisk].
    destruct (decide (key = k)) as [->|Hne].
    + assert (fw = fw0) as -> by congruence.
      exists k, fresh, t. cbn [recorder world].
      rewrite files_set_files, lookup_insert_eq, F2, F4, F5, Hdisk.
      split_and!; auto. lia.
    + exists key, fw, t. cbn [recorder world].
      rewrite files_set_files, lookup_insert_ne by congruence.
      rewrite Hdisk. now split_and!.
  - intros q Hq. cbn [fileChan] in Hq. unfold trySend in Hq.
    destruct (_ <? _)%nat; cbn [snd queued] in Hq; [|now left].
    apply elem_of_app in Hq as [Hq|Hq]; [now left|].
    apply list_elem_of_singleton in Hq as ->. right.
    exists k, fresh, (createdAt fw0). cbn [recorder world].
    rewrite files_set_files, lookup_insert_eq, F2, F4, F5, D2.
    split_and!; eauto.
Qed.

Lemma retired_checkRotation_in (msgs : list Message) (keys : list string) :
  forall st,
    keeps msgs st ->
    minInt64 <= now (world st) <= maxInt64 ->
    1 <= rotateMinutes (recorder st) ->
    Z.of_nat (String.length (encode msgs)) < rotateMegabytes (recorder st) <= 2 ^ 63 ->
    (forall q, q ∈ queued (fileChan st) -> retired st q) ->
    let st' := Recorder.checkRotation_in json_Marshal keys st in
    (forall q, retired st q ->
       retired st' q /\ disk (world st') !! q = disk (world st) !! q)
    /\ (forall q, q ∈ queued (fileChan st') -> retired st' q).
Proof.
  induction keys as [|k keys IH]; intros st Hk Hnow Hrm Hsize Hqueue;
    [cbv zeta; split; auto|].
  unfold Recorder.checkRotation_in in *. cbn [fold_left]. cbv zeta in IH |- *.
  destruct (checkOne_frame json_Marshal st k) as (O & M & B & N & _).
  destruct (retired_checkOne msgs st k Hk Hnow Hrm Hsize) as [Hkeep Hnew].
  destruct (IH (checkOne st k)) as [Hkeep' Hqueue'].
  - now apply kept_checkOne.
  - now rewrite N.
  - now rewrite M.
  - now rewrite B.
  - intros q Hq. destruct (Hnew q Hq) as [Hold|Hr]; [|exact Hr].
    now apply Hkeep, Hqueue.
  - split; [|exact Hqueue'].
    intros q Hq. destruct (Hkeep q Hq) as [Hr Hd].
    destruct (Hkeep' q Hr) as [Hr' Hd']. split; [exact Hr'|]. congruence.
Qed.

Lemma recordMessage_fileChan (msg : Message) (st : State) :
  wf st -> fileChan (recordMessage msg st).2 = fileChan st.
Proof.
  intros Hwf.
  destruct (currentFiles (recorder st) !! file_key (Platform msg) (Channel msg))
    as [fw|] eqn:Hfw.
  - now rewrite (recordMessage_found json_Marshal msg st fw Hwf Hfw).
  - pose proof (recordMessage_missing json_Marshal msg st Hwf Hfw) as E.
    cbv zeta in E. rewrite E. now destruct (decide _).
Qed.

(** One step of a calm run leaves the retired segments alone, and what
    it puts into the queue is retired. *)
Lemma retired_step (s : step) (msgs : list Message) (st : State) :
  is_calm s = true ->
  keeps msgs st ->
  minInt64 <= now (world st) ->
  now (world st) + elapsed [s] <= maxInt64 ->
  1 <= rotateMinutes (recorder st) ->
  Z.of_nat (String.length (encode (msgs ++ messages [s])))
    < rotateMegabytes (recorder st) <= 2 ^ 63 ->
  (forall q, q ∈ queued (fileChan st) -> retired st q) ->
  let st' := (Recorder.Start json_Marshal [s] st).2 in
  (forall q, retired st q ->
     retired st' q /\ disk (world st') !! q = disk (world st) !! q)
  /\ (forall q, q ∈ queued (fileChan st') -> retired st' q).
Proof.
  intros Hs Hk Hlo Hhi Hrm Hsize Hqueue.
  destruct s as [msg| | |d| |paths]; cbn [is_calm] in Hs; try discriminate;
    cbn [Recorder.Start messages flat_map elapsed app snd] in *;
    rewrite ?app_nil_r, ?Z.add_0_r in *.
  - (* a message *)
    assert (Hstep := fun q => retired_recordMessage msgs msg st q Hk Hhi).
    cbv zeta in Hstep. split.
    + intros q Hq. destruct (Hstep q Hq) as (H1 & H2 & _). now split.
    + intros q Hq. pose proof Hk as (Hwf & _).
      rewrite (recordMessage_fileChan msg st Hwf) in Hq.
      now apply Hstep, Hqueue.
  - (* a rotation check *)
    apply (retired_checkRotation_in msgs); auto.
  - (* the clock moves on *)
    assert (forall q, retired st q -> retired (elapse d st) q) as Hsame
      by (intros q H; exact H).
    split; [intros q Hq; split; [now apply Hsame | reflexivity]|].
    intros q Hq. now apply Hsame, Hqueue.
  - (* the uploader takes a path *)
    assert (forall q, retired st q -> retired (dequeue st) q) as Hsame
      by (intros q H; exact H).
    split; [intros q Hq; split; [now apply Hsame | reflexivity]|].
    intros q Hq. apply Hsame, Hqueue. unfold dequeue in Hq. cbn [fileChan queued] in Hq.
    destruct (queued (fileChan st)) as [|q0 qs]; [exact Hq|].
    cbn [tail] in Hq. now constructor.
Qed.

(** Along a calm run the retired segments stay as they are, and the
    queue holds retired segments only. *)
Lemma retired_calm (steps : list step) :
  forallb is_calm steps = true ->
  forall (msgs : list Message) (st : State),
    keeps msgs st ->
    minInt64 <= now (world st) ->
    now (world st) + elapsed steps <= maxInt64 ->
    1 <= rotateMinutes (recorder st) ->
    Z.of_nat (String.length (encode (msgs ++ messages steps)))
      < rotateMegabytes (recorder st) <= 2 ^ 63 ->
    (forall q, q ∈ queued (fileChan st) -> retired st q) ->
    let st' := (Recorder.Start json_Marshal steps st).2 in
    (forall q, retired st q ->
       retired st' q /\ disk (world st') !! q = disk (world st) !! q)
    /\ (forall q, q ∈ queued (fileChan st') -> retired st' q).
Proof.
  induction steps as [|s steps IH]; intros Hcalm msgs st Hk Hlo Hhi Hrm Hsize Hqueue.
  - cbn [Recorder.Start snd]. split; auto.
  - cbn [forallb] in Hcalm. apply andb_true_iff in Hcalm as [Hs Hcalm].
    pose proof (elapsed_nonneg steps Hcalm) as Hpos.
    pose proof (elapsed_nonneg [s] ltac:(cbn [forallb]; now rewrite Hs)) as Hpos1.
    rewrite messages_cons, app_assoc in Hsize.
    rewrite elapsed_cons in Hhi.
    rewrite (Start_cons_calm json_Marshal s steps st Hs). cbv zeta.
    assert (Z.of_nat (String.length (encode (msgs ++ messages [s])))
            < rotateMegabytes (recorder st) <= 2 ^ 63) as Hsize1.
    { pose proof (encode_prefix_le json_Marshal (msgs ++ messages [s]) (messages steps)).
      lia. }
    destruct (keeps_step json_Marshal s msgs st Hs Hk Hlo ltac:(lia) Hrm Hsize1)
      as (K & N & O & M & B).
    destruct (retired_step s msgs st Hs Hk Hlo ltac:(lia) Hrm Hsize1 Hqueue)
      as [Hkeep Hqueue1].
    destruct (IH Hcalm (msgs ++ messages [s]) (Recorder.Start json_Marshal [s] st).2 K)
      as [Hkeep' Hqueue']; rewrite ?N, ?M, ?B; try lia; try assumption.
    split; [|exact Hqueue'].
    intros q Hq. destruct (Hkeep q Hq) as [Hr Hd].
    destruct (Hkeep' q Hr) as [Hr' Hd']. split; [exact Hr'|]. congruence.
Qed.

End Retired.

Section QueuedRuns.
Import GoOS GoTime Recorder Examples.

Lemma elapsed_app (a b : list step) : elapsed (a ++ b) = elapsed a + elapsed b.
Proof.
  induction a as [|s a IH]; [reflexivity|].
  cbn [app]. rewrite (elapsed_cons s (a ++ b)), (elapsed_cons s a), IH. lia.
Qed.

Lemma messages_app (a b : list step) : messages (a ++ b) = messages a ++ messages b.
Proof. unfold messages. apply flat_map_app. Qed.

(** X16 — at any point of a run of the loop of [Start], from a recorder as
    [New] makes it with a buffer size that is not negative, while
    [os.Create] refuses nothing, the clock stays within [int64] and does not
    go back, [rotateMinutes] is 1 or more and all the lines together are
    shorter than the size limit: a path that is in the upload queue names a
    file that is on disk and that no writer of the map writes to, and the
    recorder leaves the file as it is from then on, the final flush of the
    shutdown included. So the uploader is never handed a segment that is
    still being written. Paths are as [Join] gives them: a directory and
    names that [Clean] leaves as they are. *)
Theorem Start_queued_segments_are_closed
    (json_Marshal : Message -> result string) (before after : list step) (dir : string)
    (bufferSize rotateMinutes rotateMegabytes start : Z) (queue : nat) :
  forallb is_calm (before ++ after) = true ->
  0 <= bufferSize -> 1 <= rotateMinutes ->
  minInt64 <= start -> start + elapsed (before ++ after) <= maxInt64 ->
  Z.of_nat (String.length (encode json_Marshal (messages (before ++ after))))
    < wrap64 (wrap64 (rotateMegabytes * 1024) * 1024) ->
  let st := (Start json_Marshal before
               (initial dir bufferSize rotateMinutes rotateMegabytes start queue)).2 in
  let final := (Start json_Marshal (after ++ [Done]) st).2 in
  forall q,
    q ∈ queued (fileChan st) ->
    is_Some (disk (world st) !! q)
    /\ (forall key fw,
          currentFiles (recorder st) !! key = Some fw -> name (file fw) <> q)
    /\ disk (world final) !! q = disk (world st) !! q.
Proof.
  intros Hcalm _ Hrm Hlo Hhi Hsize st final q Hq.
  set (st0 := initial dir bufferSize rotateMinutes rotateMegabytes start queue) in *.
  rewrite forallb_app in Hcalm. apply andb_true_iff in Hcalm as [Hc1 Hc2].
  rewrite elapsed_app in Hhi. rewrite messages_app in Hsize.
  pose proof (elapsed_nonneg before Hc1) as Hp1.
  pose proof (elapsed_nonneg after Hc2) as Hp2.
  assert (wrap64 (wrap64 (rotateMegabytes * 1024) * 1024) <= 2 ^ 63) as Hmax.
  { unfold wrap64.
    pose proof (Z.mod_pos_bound (wrap64 (rotateMegabytes * 1024) * 1024 + 2 ^ 63)
                  (2 ^ 64) ltac:(reflexivity)) as Hb.
    unfold wrap64 in Hb. change (2 ^ 64) with (2 * 2 ^ 63) in *.
    remember (2 ^ 63) as h. lia. }
  set (limit := wrap64 (wrap64 (rotateMegabytes * 1024) * 1024)) in *.
  assert (rotateMegabytes0 : Recorder.rotateMegabytes (recorder st0) = limit)
    by reflexivity.
  assert (rotateMinutes0 : Recorder.rotateMinutes (recorder st0) = rotateMinutes)
    by reflexivity.
  assert (now0 : now (world st0) = start) by reflexivity.
  assert (Z.of_nat (String.length (encode json_Marshal ([] ++ messages before)))
          < Recorder.rotateMegabytes (recorder st0) <= 2 ^ 63) as Hsize1.
  { rewrite rotateMegabytes0. cbn [app].
    pose proof (encode_prefix_le json_Marshal (messages before) (messages after)).
    lia. }
  pose proof (keeps_initial json_Marshal dir bufferSize rotateMinutes rotateMegabytes
                start queue) as K0.
  fold st0 in K0.
  destruct (keeps_calm json_Marshal before Hc1 [] st0 K0
              ltac:(rewrite now0; lia) ltac:(rewrite now0; lia)
              ltac:(rewrite rotateMinutes0; lia) Hsize1)
    as (_ & K1 & N1 & _ & M1 & B1).
  destruct (retired_calm json_Marshal before Hc1 [] st0 K0
              ltac:(rewrite now0; lia) ltac:(rewrite now0; lia)
              ltac:(rewrite rotateMinutes0; lia) Hsize1) as [_ Hqueue].
  { intros p Hp. cbn in Hp. now apply not_elem_of_nil in Hp. }
  fold st in K1, N1, M1, B1, Hqueue. cbn [app] in K1.
  rewrite now0 in N1. rewrite rotateMinutes0 in M1. rewrite rotateMegabytes0 in B1.
  pose proof (Hqueue q Hq) as Hr.
  assert (is_Some (disk (world st) !! q)) as Hsome
    by (destruct Hr as (? & ? & ? & _ & _ & _ & _ & H); exact H).
  split; [exact Hsome|]. split.
  { assert (now (world st) <= maxInt64) as Hn by lia.
    exact (retired_not_writer json_Marshal (messages before) st q K1 Hn Hr). }
  assert (Z.of_nat (String.length
                      (encode json_Marshal (messages before ++ messages after)))
          < Recorder.rotateMegabytes (recorder st) <= 2 ^ 63) as Hsize2
    by (rewrite B1; lia).
  destruct (keeps_calm json_Marshal after Hc2 (messages before) st K1
              ltac:(lia) ltac:(lia) ltac:(lia) Hsize2)
    as (Hrun & K2 & N2 & _).
  destruct (retired_calm json_Marshal after Hc2 (messages before) st K1
              ltac:(lia) ltac:(lia) ltac:(lia) Hsize2 Hqueue) as [Hkeep _].
  destruct (Hkeep q Hr) as [Hr2 Hd2].
  subst final. rewrite (Start_app json_Marshal after [Done] st Hrun).
  set (st2 := (Start json_Marshal after st).2) in *.
  cbn [Start snd]. rewrite <- Hd2. unfold flushAll.
  pose proof K2 as (Hwf2 & _).
  apply (flushAll_in_disk_other json_Marshal); [exact Hwf2|].
  intros k x _ Hx.
  assert (now (world st2) <= maxInt64) as Hn by lia.
  exact (retired_not_writer json_Marshal _ st2 q K2 Hn Hr2 k x Hx).
Qed.

Lemma Start_queued_segments_are_closed_witness :
  let st := (Start marshal_plain
               [Elapse (10 * Second); Receive hello; Elapse (60 * Second); Tick]
               (initial "data" 100 1 1 t_start 100)).2 in
  let final := (Start marshal_plain ([Receive gg] ++ [Done]) st).2 in
  is_Some (disk (world st) !! example_path)
  /\ (forall key fw,
        currentFiles (recorder st) !! key = Some fw -> name (file fw) <> example_path)
  /\ disk (world final) !! example_path = disk (world st) !! example_path.
Proof.
  refine (Start_queued_segments_are_closed marshal_plain
            [Elapse (10 * Second); Receive hello; Elapse (60 * Second); Tick]
            [Receive gg] "data" 100 1 1 t_start 100 _ _ _ _ _ _ example_path _).
  - reflexivity.
  - lia.
  - lia.
  - vm_compute. discriminate.
  - vm_compute. discriminate.
  - vm_compute. reflexivity.
  - vm_compute. apply list_elem_of_here.
Defined.

End QueuedRuns.

(** ** The configuration *)

Section ConfigFacts.
Import Config Examples.

Variable os_ReadFile : string -> result string.
Variable yaml_Unmarshal : string -> result Config.
Variable os_Getenv : string -> string.

Lemma validate_ok (cfg cfg' : Config) :
  validate cfg = inr cfg' ->
  cfg' = cfg
  /\ (Channels (Twitch cfg) <> [] ->
      Username (Twitch cfg) <> EmptyString /\ OAuth (Twitch cfg) <> EmptyString)
  /\ (Channels (Twitch cfg) <> []
      \/ (Enabled (Kick cfg) = true /\ KickChannels (Kick cfg) <> []))
  /\ Bucket (S3 cfg) <> EmptyString
  /\ Region (S3 cfg) <> EmptyString
  /\ (RoleARN (S3 cfg) <> EmptyString \/ AccessKeyID (S3 cfg) <> EmptyString)
  /\ (AccessKeyID (S3 cfg) <> EmptyString -> SecretAccessKey (S3 cfg) <> EmptyString).
Proof.
  unfold validate. cbv zeta. intros H.
  assert (Channels (Twitch cfg) <> [] ->
          Username (Twitch cfg) <> EmptyString /\ OAuth (Twitch cfg) <> EmptyString)
    as Htwitch.
  { intros Hne. destruct (Channels (Twitch cfg)) as [|ch chs]; [congruence|].
    cbn [length Nat.ltb Nat.leb] in H.
    destruct (String.eqb_spec (Username (Twitch cfg)) EmptyString); [discriminate|].
    destruct (String.eqb_spec (OAuth (Twitch cfg)) EmptyString); [discriminate|].
    now split. }
  assert (match
            (if (0 <? length (Channels (Twitch cfg)))%nat
             then if String.eqb (Username (Twitch cfg)) EmptyString
                  then Some ErrTwitchUsername
                  else if String.eqb (OAuth (Twitch cfg)) EmptyString
                       then Some ErrTwitchOAuth else None
             else None)
          with Some _ => False | None => True end) as Hnone.
  { destruct (if (0 <? _)%nat then _ else _); [discriminate | exact I]. }
  destruct (if (0 <? _)%nat then _ else _) as [e|]; [destruct Hnone|]. clear Hnone.
  destruct (_ =? 0)%nat eqn:Htotal; [discriminate|].
  destruct (String.eqb_spec (Bucket (S3 cfg)) EmptyString) as [|Hbucket];
    [discriminate|].
  destruct (String.eqb_spec (Region (S3 cfg)) EmptyString) as [|Hregion];
    [discriminate|].
  destruct (_ && _) eqn:Hcred; [discriminate|].
  destruct (negb _ && _) eqn:Hsecret; [discriminate|].
  injection H as <-.
  rewrite andb_false_iff in Hcred, Hsecret. rewrite negb_false_iff in Hsecret.
  rewrite !String.eqb_neq in Hcred. rewrite String.eqb_neq, String.eqb_eq in Hsecret.
  apply Nat.eqb_neq in Htotal.
  split; [reflexivity|]. split_and!.
  - exact Htwitch.
  - destruct (Channels (Twitch cfg)) as [|ch chs]; [|left; discriminate].
    right. destruct (Enabled (Kick cfg)); [|cbn in Htotal; congruence].
    split; [reflexivity|]. destruct (KickChannels (Kick cfg)); [cbn in Htotal|]; congruence.
  - exact Hbucket.
  - exact Hregion.
  - tauto.
  - intros Hk. destruct Hsecret as [Hk'|Hs]; [congruence | exact Hs].
Qed.

Lemma default_int_nonzero (field value : Z) : value <> 0 -> default_int field value <> 0.
Proof. unfold default_int. destruct (Z.eqb_spec field 0); auto. Qed.

Lemma Load_inv (path : string) (cfg : Config) :
  Load os_ReadFile yaml_Unmarshal os_Getenv path = inr cfg ->
  exists data file,
    os_ReadFile path = Ok data /\ yaml_Unmarshal data = Ok file
    /\ validate (setDefaults (applyEnv os_Getenv file)) = inr cfg.
Proof.
  unfold Load. destruct (os_ReadFile path) as [data|e] eqn:Hread; [|discriminate].
  destruct (yaml_Unmarshal data) as [file|e] eqn:Hparse; [|discriminate].
  intros H. exists data, file. split_and!; auto.
Qed.

(** X17 — a configuration that [Load] returns is complete: user name and
    token when Twitch channels are listed, at least one channel (of Twitch,
    or of Kick when enabled), bucket and region, a role or an access key,
    the secret when there is an access key, and no zero or empty recorder or
    uploader setting (in particular [MaxRetries] is never 0). *)
Theorem Load_ok_complete (path : string) (cfg : Config) :
  Load os_ReadFile yaml_Unmarshal os_Getenv path = inr cfg ->
  (Channels (Twitch cfg) <> [] ->
   Username (Twitch cfg) <> EmptyString /\ OAuth (Twitch cfg) <> EmptyString)
  /\ (Channels (Twitch cfg) <> []
      \/ (Enabled (Kick cfg) = true /\ KickChannels (Kick cfg) <> []))
  /\ Bucket (S3 cfg) <> EmptyString
  /\ Region (S3 cfg) <> EmptyString
  /\ (RoleARN (S3 cfg) <> EmptyString
      \/ (AccessKeyID (S3 cfg) <> EmptyString /\ SecretAccessKey (S3 cfg) <> EmptyString))
  /\ (AccessKeyID (S3 cfg) <> EmptyString -> SecretAccessKey (S3 cfg) <> EmptyString)
  /\ OutputDir (Recorder cfg) <> EmptyString
  /\ RotateMinutes (Recorder cfg) <> 0
  /\ RotateMegabytes (Recorder cfg) <> 0
  /\ BufferSize (Recorder cfg) <> 0
  /\ CheckIntervalSeconds (Uploader cfg) <> 0
  /\ MaxRetries (Uploader cfg) <> 0.
Proof.
  intros H. apply Load_inv in H as (data & file & _ & _ & H).
  apply validate_ok in H as (-> & Ht & Hc & Hb & Hr & Hcred & Hsec).
  split; [exact Ht|]. split; [exact Hc|]. split; [exact Hb|]. split; [exact Hr|].
  split; [destruct Hcred as [?|Hk]; [left; assumption | right; split; auto]|].
  split; [exact Hsec|].
  cbn [setDefaults Recorder Uploader OutputDir RotateMinutes RotateMegabytes BufferSize
       CheckIntervalSeconds MaxRetries].
  split.
  { destruct (String.eqb_spec (OutputDir (Recorder (applyEnv os_Getenv file))) EmptyString);
      [discriminate | assumption]. }
  split_and!; apply default_int_nonzero; lia.
Qed.


End ConfigFacts.

Section ConfigExamples.
Import Config Examples.

Lemma Load_ok_complete_witness :
  Bucket (S3 (mkConfig
           (mkTwitchConfig "chatlog" "oauth:token" ["ludwig"])
           (mkKickConfig false [])
           (mkS3Config "chatlog-archive" "us-east-1" "arn:aws:iam::1:role/chatlog"
              EmptyString EmptyString EmptyString)
           (mkRecorderConfig "./data" 60 100 100)
           (mkUploaderConfig 60 false (-1)))) <> EmptyString.
Proof.
  refine (proj1 (proj2 (proj2 (Load_ok_complete
            (fun _ => Ok "twitch: ...") (fun _ => Ok example_config) example_env
            "config.yaml" _ _)))).
  vm_compute. reflexivity.
Defined.


End ConfigExamples.

Section ConfiguredRetries.
Import Uploader Examples.

(** X19 — the retries as configured: with the uploader made from the
    configuration that [Load] returns and a store that never accepts,
    [max_retries: 0] in the file gives 4 attempts, a positive value [n]
    gives [n + 1], a negative one gives none; no file gives exactly one
    attempt. *)
Theorem Load_max_retries (os_ReadFile : string -> result string)
    (yaml_Unmarshal : string -> result Config.Config) (os_Getenv : string -> string)
    (path : string) (cfg : Config.Config)
    (u : Uploader) (env : Env) (localPath key : string) (st : Store) :
  Config.Load os_ReadFile yaml_Unmarshal os_Getenv path = inr cfg ->
  maxRetries u = Config.MaxRetries (Config.Uploader cfg) ->
  maxRetries u < maxInt64 ->
  generateS3Key (GoPath.Base localPath) = Ok key ->
  (forall i : nat, putOk env i = false /\ ctxDone env i = false) ->
  exists data file tr,
    os_ReadFile path = Ok data /\ yaml_Unmarshal data = Ok file
    /\ uploadWithRetry u env localPath st = Some (tr, st)
    /\ (Config.MaxRetries (Config.Uploader file) = 0 -> attempts tr = 4%nat)
    /\ (0 < Config.MaxRetries (Config.Uploader file) ->
        Z.of_nat (attempts tr) = Config.MaxRetries (Config.Uploader file) + 1)
    /\ (Config.MaxRetries (Config.Uploader file) < 0 -> attempts tr = 0%nat)
    /\ attempts tr <> 1%nat.
Proof.
  intros Hload Hu Hmax Hkey Hfail.
  apply Load_inv in Hload as (data & file & Hread & Hparse & Hvalid).
  apply validate_ok in Hvalid as (-> & _).
  cbn [Config.setDefaults Config.applyEnv Config.Uploader Config.MaxRetries] in Hu.
  unfold Config.default_int in Hu.
  exists data, file. revert Hu.
  destruct (Z.eqb_spec (Config.MaxRetries (Config.Uploader file)) 0) as [E0|Ene];
    intros Hu.
  - destruct (uploadWithRetry_all_fail u env localPath key st) as (Hrun & Hn & _);
      [lia | exact Hkey | intros i _; destruct (Hfail i); auto |].
    eexists. split; [exact Hread|]. split; [exact Hparse|]. split; [exact Hrun|].
    split_and!; intros; lia.
  - destruct (Z.lt_ge_cases (Config.MaxRetries (Config.Uploader file)) 0) as [Hneg|Hpos].
    + exists [EvGiveUp]. split; [exact Hread|]. split; [exact Hparse|].
      split; [apply (uploadWithRetry_no_iteration u env localPath key st); [lia|exact Hkey]|].
      cbn [attempts]. split_and!; intros; lia.
    + destruct (uploadWithRetry_all_fail u env localPath key st) as (Hrun & Hn & _);
        [lia | exact Hkey | intros i _; destruct (Hfail i); auto |].
      eexists. split; [exact Hread|]. split; [exact Hparse|]. split; [exact Hrun|].
      split_and!; intros; lia.
Qed.

Lemma Load_max_retries_witness :
  exists data file tr,
    (fun _ : string => @Ok string "twitch: ...") "config.yaml" = Ok data
    /\ (fun _ : string => Ok example_config) data = Ok file
    /\ uploadWithRetry (mkUploader "chatlog-archive" false (-1)) always_failing
         example_path example_store = Some (tr, example_store)
    /\ (Config.MaxRetries (Config.Uploader file) = 0 -> attempts tr = 4%nat)
    /\ (0 < Config.MaxRetries (Config.Uploader file) ->
        Z.of_nat (attempts tr) = Config.MaxRetries (Config.Uploader file) + 1)
    /\ (Config.MaxRetries (Config.Uploader file) < 0 -> attempts tr = 0%nat)
    /\ attempts tr <> 1%nat.
Proof.
  refine (Load_max_retries
            (fun _ => Ok "twitch: ...") (fun _ => Ok example_config) example_env
            "config.yaml"
            (Config.mkConfig
               (Config.mkTwitchConfig "chatlog" "oauth:token" ["ludwig"])
               (Config.mkKickConfig false [])
               (Config.mkS3Config "chatlog-archive" "us-east-1"
                  "arn:aws:iam::1:role/chatlog" EmptyString EmptyString EmptyString)
               (Config.mkRecorderConfig "./data" 60 100 100)
               (Config.mkUploaderConfig 60 false (-1)))
            (mkUploader "chatlog-archive" false (-1)) always_failing example_path
            _ example_store _ _ _ _ _).
  - vm_compute. reflexivity.
  - reflexivity.
  - vm_compute. reflexivity.
  - vm_compute. reflexivity.
  - intros i. split; reflexivity.
Defined.

End ConfiguredRetries.
